(** * vybe-server: authentication and session lifecycle

    A shallow embedding of the authentication subsystem of the server
    ([src/modules/auth/auth.service.ts], [src/modules/auth/auth.schema.ts],
    [src/shared/utils/jwt.ts], [src/shared/utils/hash.ts],
    [src/shared/utils/pagination.ts], [src/shared/middleware/auth.middleware.ts],
    [src/shared/middleware/rate-limit.middleware.ts]) together with the
    properties of the design document that concern it and further properties
    read off the code.

    Conventions.
    - Time is the value of [Date.now()], an integer number of milliseconds,
      read once per service call and passed in as [now].
    - The durable store (Prisma) is a pair of tables, each a list of rows in
      insertion order, plus the counter from which row ids are drawn.
    - The fast store (Redis) is a finite map from key strings to entries that
      carry their own expiry instant.
    - A service method is a function from the world to a result (an error or
      a value) and the world it leaves behind: a thrown error does not roll
      anything back. *)

From Stdlib Require Import ZArith NArith List String Ascii Lia.
From Stdlib Require Import DecimalString.
From Stdlib Require DecimalFacts DecimalPos DecimalN DecimalZ.
From stdpp Require Import base option list gmap strings fin_maps sorting.

Local Open Scope string_scope.
Local Open Scope Z_scope.

(** ** SHA-256 ([crypto.createHash('sha256')]) *)

Module SHA256.

Definition w32 (x : Z) : Z := Z.land x 4294967295.
Definition add32 (x y : Z) : Z := w32 (x + y).
Definition rotr (n x : Z) : Z :=
Z.lor (Z.shiftr x n) (w32 (Z.shiftl x (32 - n))).
Definition shr (n x : Z) : Z := Z.shiftr x n.
Definition not32 (x : Z) : Z := Z.lxor x 4294967295.

Definition Ch (x y z : Z) : Z := Z.lxor (Z.land x y) (Z.land (not32 x) z).
Definition Maj (x y z : Z) : Z :=
Z.lxor (Z.lxor (Z.land x y) (Z.land x z)) (Z.land y z).
Definition bsig0 (x : Z) : Z := Z.lxor (Z.lxor (rotr 2 x) (rotr 13 x)) (rotr 22 x).
Definition bsig1 (x : Z) : Z := Z.lxor (Z.lxor (rotr 6 x) (rotr 11 x)) (rotr 25 x).
Definition ssig0 (x : Z) : Z := Z.lxor (Z.lxor (rotr 7 x) (rotr 18 x)) (shr 3 x).
Definition ssig1 (x : Z) : Z := Z.lxor (Z.lxor (rotr 17 x) (rotr 19 x)) (shr 10 x).

(** The round constants and the initial chaining value are the first 32
    bits of the fractional parts of the cube roots, respectively square
    roots, of the first primes (FIPS 180-4, 4.2.2 and 5.3.3). *)
Definition is_prime (n : Z) : bool :=
  (1 <? n) && forallb (fun d => (n <? d * d) || negb (n mod d =? 0))
                      (List.map Z.of_nat (List.seq 2 (Z.to_nat n - 2))).

Definition first_primes (count : nat) : list Z :=
  firstn count (List.filter is_prime (List.map Z.of_nat (List.seq 2 400))).

(** The largest [x] below [2 ^ bits] with [x ^ k <= n], found bit by bit. *)
Fixpoint iroot (k : Z) (n : Z) (bits : nat) (x : Z) : Z :=
  match bits with
  | O => x
  | S b =>
      let y := x + 2 ^ Z.of_nat b in
      if y ^ k <=? n then iroot k n b y else iroot k n b x
  end.

Definition frac_root (k p : Z) : Z := w32 (iroot k (p * 2 ^ (32 * k)) 40 0).

Definition K : list Z := Eval vm_compute in List.map (frac_root 3) (first_primes 64).

(** The eight working variables / the chaining value. *)
Record hstate : Type := HState
{ ha : Z; hb : Z; hc : Z; hd : Z; he : Z; hf : Z; hg : Z; hh : Z }.

Definition H0 : hstate :=
  Eval vm_compute in
    match List.map (frac_root 2) (first_primes 8) with
    | [a; b; c; d; e; f; g; h] => HState a b c d e f g h
    | _ => HState 0 0 0 0 0 0 0 0
    end.

(** Big-endian packing of the bytes of a block into 32-bit words. *)
Fixpoint words_of_bytes (bs : list Z) : list Z :=
match bs with
| b0 :: b1 :: b2 :: b3 :: rest =>
    (Z.lor (Z.shiftl b0 24) (Z.lor (Z.shiftl b1 16) (Z.lor (Z.shiftl b2 8) b3)))
      :: words_of_bytes rest
| _ => []
end.

(** Message schedule. [rev_w] holds the words computed so far, latest first. *)
Fixpoint extend (n : nat) (rev_w : list Z) : list Z :=
match n with
| O => rev_w
| S n' =>
    let w2 := nth 1 rev_w 0 in
    let w7 := nth 6 rev_w 0 in
    let w15 := nth 14 rev_w 0 in
    let w16 := nth 15 rev_w 0 in
    extend n' (add32 (add32 (ssig1 w2) w7) (add32 (ssig0 w15) w16) :: rev_w)
end.

Definition schedule (block : list Z) : list Z :=
rev (extend 48 (rev (words_of_bytes block))).

Definition round (s : hstate) (kw : Z * Z) : hstate :=
let t1 := add32 (add32 (add32 (hh s) (bsig1 (he s)))
                       (add32 (Ch (he s) (hf s) (hg s)) (fst kw))) (snd kw) in
let t2 := add32 (bsig0 (ha s)) (Maj (ha s) (hb s) (hc s)) in
HState (add32 t1 t2) (ha s) (hb s) (hc s) (add32 (hd s) t1) (he s) (hf s) (hg s).

Definition compress (s : hstate) (block : list Z) : hstate :=
let r := fold_left round (combine K (schedule block)) s in
HState (add32 (ha s) (ha r)) (add32 (hb s) (hb r)) (add32 (hc s) (hc r))
       (add32 (hd s) (hd r)) (add32 (he s) (he r)) (add32 (hf s) (hf r))
       (add32 (hg s) (hg r)) (add32 (hh s) (hh r)).

Definition be64 (n : Z) : list Z :=
map (fun i => Z.land (Z.shiftr n (8 * i)) 255) [7; 6; 5; 4; 3; 2; 1; 0].

Definition pad (msg : list Z) : list Z :=
let len := Z.of_nat (List.length msg) in
let zeros := Z.to_nat ((55 - len) mod 64) in
msg ++ 128 :: repeat 0 zeros ++ be64 (8 * len).

Fixpoint blocks (fuel : nat) (s : hstate) (bs : list Z) : hstate :=
match fuel, bs with
| S fuel', _ :: _ => blocks fuel' (compress s (firstn 64 bs)) (skipn 64 bs)
| _, _ => s
end.

Definition digest (msg : list Z) : hstate :=
let p := pad msg in blocks (List.length p) H0 p.

End SHA256.

(** ** [src/shared/utils/hash.ts] *)

Definition hex_digit (n : Z) : ascii :=
  match n with
  | 0 => "0" | 1 => "1" | 2 => "2" | 3 => "3" | 4 => "4" | 5 => "5"
  | 6 => "6" | 7 => "7" | 8 => "8" | 9 => "9" | 10 => "a" | 11 => "b"
  | 12 => "c" | 13 => "d" | 14 => "e" | _ => "f"
  end%char.

Definition nibble (x i : Z) : ascii := hex_digit (Z.land (Z.shiftr x (4 * i)) 15).

(** The eight lowercase hexadecimal digits of a 32-bit word. *)
Definition hex32 (x : Z) : string :=
  String (nibble x 7) (String (nibble x 6) (String (nibble x 5) (String (nibble x 4)
  (String (nibble x 3) (String (nibble x 2) (String (nibble x 1) (String (nibble x 0)
   EmptyString))))))).

Definition hex_of_hstate (s : SHA256.hstate) : string :=
  hex32 (SHA256.ha s) ++ hex32 (SHA256.hb s) ++ hex32 (SHA256.hc s) ++
  hex32 (SHA256.hd s) ++ hex32 (SHA256.he s) ++ hex32 (SHA256.hf s) ++
  hex32 (SHA256.hg s) ++ hex32 (SHA256.hh s).

Definition bytes_of_string (s : string) : list Z :=
  map (fun c => Z.of_N (N_of_ascii c)) (list_ascii_of_string s).

(** [crypto.createHash('sha256').update(token).digest('hex')] *)
Definition hashToken (token : string) : string :=
  hex_of_hstate (SHA256.digest (bytes_of_string token)).

(** [n.toString()] and [`${n}`] for an integer [n]: its decimal numeral. *)
Definition dec (z : Z) : string := NilZero.string_of_int (Z.to_int z).

(** [crypto.randomInt(min, max)]: an integer of the half-open range
    [min <= n < max], determined here by the entropy consumed. *)
Definition randomInt (min max : Z) (entropy : N) : Z :=
  min + Z.of_N entropy mod (max - min).

(** [crypto.randomInt(100000, 999999).toString()] *)
Definition generateVerificationCode (entropy : N) : string :=
  dec (randomInt 100000 999999 entropy).

(** ** [src/config/index.ts] *)

Record Env : Type := MkEnv
  { JWT_ACCESS_SECRET : string;
    JWT_REFRESH_SECRET : string;
    JWT_ACCESS_EXPIRATION : string;
    JWT_REFRESH_EXPIRATION : string }.

(** ** [src/shared/utils/jwt.ts] *)

Definition is_digit (c : ascii) : bool :=
  let n := N_of_ascii c in ((48 <=? n) && (n <=? 57))%N.

(** [parseInt(s, 10)] on a string of decimal digits. *)
Fixpoint parse_digits (acc : Z) (s : string) : option Z :=
  match s with
  | EmptyString => Some acc
  | String c rest =>
      if is_digit c
      then parse_digits (10 * acc + (Z.of_N (N_of_ascii c) - 48)) rest
      else None
  end.

Fixpoint split_last (s : string) : option (string * ascii) :=
  match s with
  | EmptyString => None
  | String c EmptyString => Some (EmptyString, c)
  | String c rest =>
      match split_last rest with
      | Some (front, l) => Some (String c front, l)
      | None => None
      end
  end.

(** [parseDuration]: the string must match [/^(\d+)([smhd])$/]; [None] stands
    for the thrown "Invalid duration format". The result is in milliseconds.
    The source computes it in JavaScript numbers ([parseInt], then products
    of doubles) and the model in [Z]. The two agree whenever the model's
    result is a safe integer, at most [2^53 - 1]: the numeral is then a safe
    integer too, and so is every intermediate product, so nothing is rounded.
    Beyond that the source rounds (and from 309 digits on yields [Infinity]);
    properties that depend on the exact value are stated for results within
    the safe range. *)
Definition parseDuration (duration : string) : option Z :=
  match split_last duration with
  | Some (String d ds, unit) =>
      match parse_digits 0 (String d ds) with
      | Some value =>
          if Ascii.eqb unit "s" then Some (value * 1000)
          else if Ascii.eqb unit "m" then Some (value * 60 * 1000)
          else if Ascii.eqb unit "h" then Some (value * 60 * 60 * 1000)
          else if Ascii.eqb unit "d" then Some (value * 24 * 60 * 60 * 1000)
          else None
      | None => None
      end
  | _ => None
  end.

Module JwtPayload.
Record t : Type := Mk
  { userId : string; sessionId : string; iat : Z; exp : Z }.
End JwtPayload.

(** A presented credential string. Signatures are symbolic: a well-formed
    token records the secret it was signed with and the claims it carries,
    and verification under a secret succeeds exactly for tokens signed with
    that secret. Every other string is [NotJwt]. *)
Inductive Token : Type :=
  | Jwt (key : string) (claims : JwtPayload.t)
  | NotJwt (raw : string).

(** The text of a token, as far as hashing is concerned: a deterministic
    rendering of what [jwt.sign] serialises (header, claims, signature). *)
Definition compact (t : Token) : string :=
  match t with
  | Jwt key p =>
      "HS256.JWT." ++ JwtPayload.userId p ++ "," ++ JwtPayload.sessionId p ++ ","
        ++ dec (JwtPayload.iat p) ++ "," ++ dec (JwtPayload.exp p) ++ "." ++ key
  | NotJwt raw => raw
  end.

(** [jwt.sign(payload, secret, { expiresIn })]: [iat] is the clock in whole
    seconds and [exp] is [iat] plus the lifetime in seconds. The library
    reads the lifetime string with the [ms] package, which agrees with
    [parseDuration] on every string the latter accepts that has at most 100
    characters and denotes a safe integer of milliseconds. The package also
    reads strings that [parseDuration] refuses ([1w], [1.5h], [2 days]) and
    refuses strings of more than 100 characters; the model follows
    [parseDuration] there, so a property of the lifetime a token carries is
    stated for lifetimes on which the two agree. [None] is a thrown error.
    Nothing else enters the token: the same claims signed with the same
    secret within the same second give the same token. *)
Definition jwt_sign (userId sessionId : string) (secret expiresIn : string)
    (now : Z) : option Token :=
  match parseDuration expiresIn with
  | Some ms =>
      let iat := now / 1000 in
      Some (Jwt secret (JwtPayload.Mk userId sessionId iat (iat + ms / 1000)))
  | None => None
  end.

(** [jwt.verify(token, secret)]: [None] is a thrown error (malformed token,
    bad signature, or [exp] reached). *)
Definition jwt_verify (token : Token) (secret : string) (now : Z)
    : option JwtPayload.t :=
  match token with
  | Jwt key p =>
      if bool_decide (key = secret)
      then if JwtPayload.exp p <=? now / 1000 then None else Some p
      else None
  | NotJwt _ => None
  end.

Section Jwt.
Variable config : Env.

Definition generateAccessToken (userId sessionId : string) (now : Z) : option Token :=
  jwt_sign userId sessionId (JWT_ACCESS_SECRET config) (JWT_ACCESS_EXPIRATION config) now.

Definition generateRefreshToken (userId sessionId : string) (now : Z) : option Token :=
  jwt_sign userId sessionId (JWT_REFRESH_SECRET config) (JWT_REFRESH_EXPIRATION config) now.

Definition verifyAccessToken (token : Token) (now : Z) : option JwtPayload.t :=
  jwt_verify token (JWT_ACCESS_SECRET config) now.

Definition verifyRefreshToken (token : Token) (now : Z) : option JwtPayload.t :=
  jwt_verify token (JWT_REFRESH_SECRET config) now.
End Jwt.

(** ** The fast store

    A key holds a string or a sorted set, and optionally the instant at which
    it expires. An entry whose instant has been reached is dead: every
    command treats it as absent. *)

Inductive RedisValue : Type :=
  | RString (s : string)
  | RZSet (members : list (string * Z)).

Record RedisEntry : Type := MkEntry
  { rvalue : RedisValue; expireAt : option Z }.

Abbreviation Redis := (gmap string RedisEntry).

Definition expired (e : RedisEntry) (now : Z) : bool :=
  match expireAt e with
  | Some t => t <=? now
  | None => false
  end.

Definition live (r : Redis) (key : string) (now : Z) : option RedisEntry :=
  match r !! key with
  | Some e => if expired e now then None else Some e
  | None => None
  end.

(** ** The durable store *)

Module User.
Record t : Type := Mk
  { id : string;
    phone : option string;
    email : option string;
    googleId : option string;
    appleId : option string;
    displayName : option string;
    username : option string;
    avatarUrl : option string;
    verifiedBadges : list string;
    lastActiveAt : Z }.
End User.

Module UserSession.
Record t : Type := Mk
  { id : string;
    userId : string;
    refreshTokenHash : string;
    deviceType : option string;
    ipAddress : string;
    expiresAt : Z;
    createdAt : Z }.
End UserSession.

(** The two tables, rows in insertion order, and the counter from which the
    store draws row ids. *)
Record Prisma : Type := MkPrisma
  { user : list User.t;
    userSession : list UserSession.t;
    seq : N }.

(** The id the store gives to its [n]-th row. *)
Definition cuid (n : N) : string := "c" ++ NilZero.string_of_uint (N.to_uint n).

Record World : Type := MkWorld
  { prisma : Prisma; redis : Redis }.

(** ** Thrown errors and the monad of service code *)

Inductive Exn : Type :=
  | HttpError (statusCode : Z) (message : string)
  | PrismaError (code : string)
  | RedisError (message : string)
  | JsError (message : string).

Definition M (A : Type) : Type := World -> (Exn + A) * World.

Definition ret {A} (a : A) : M A := fun w => (inr a, w).
Definition throw {A} (e : Exn) : M A := fun w => (inl e, w).
Definition bind {A B} (m : M A) (k : A -> M B) : M B :=
  fun w => match m w with
           | (inr a, w') => k a w'
           | (inl e, w') => (inl e, w')
           end.
(** [m.catch(() => {})] *)
Definition swallow (m : M unit) : M unit :=
  fun w => match m w with
           | (_, w') => (inr tt, w')
           end.

Notation "'let*' x ':=' m 'in' k" := (bind m (fun x => k))
  (at level 10, x name, m at level 100, k at level 200).
Notation "m ';;;' k" := (bind m (fun _ => k))
  (at level 100, k at level 200, right associativity).

Definition the_redis : M Redis := fun w => (inr (redis w), w).
Definition put_redis (r : Redis) : M unit :=
  fun w => (inr tt, MkWorld (prisma w) r).
Definition the_prisma : M Prisma := fun w => (inr (prisma w), w).
Definition put_prisma (p : Prisma) : M unit :=
  fun w => (inr tt, MkWorld p (redis w)).

(** *** Redis commands *)

(** [redis.set(key, value, 'EX', seconds)] *)
Definition redis_set (key value : string) (seconds now : Z) : M unit :=
  if seconds <=? 0
  then throw (RedisError "ERR invalid expire time in 'set' command")
  else let* r := the_redis in
       put_redis (<[key := MkEntry (RString value) (Some (now + seconds * 1000))]> r).

(** [redis.get(key)] *)
Definition redis_get (key : string) (now : Z) : M (option string) :=
  let* r := the_redis in
  match live r key now with
  | Some (MkEntry (RString s) _) => ret (Some s)
  | Some (MkEntry (RZSet _) _) =>
      throw (RedisError "WRONGTYPE Operation against a key holding the wrong kind of value")
  | None => ret None
  end.

(** [redis.del(key)] *)
Definition redis_del (key : string) : M unit :=
  let* r := the_redis in put_redis (delete key r).

(** [redis.exists(key)] *)
Definition redis_exists (key : string) (now : Z) : M bool :=
  let* r := the_redis in
  ret (match live r key now with Some _ => true | None => false end).

(** [redis.incr(key)]: a missing key counts from zero and gets no expiry; an
    existing one keeps its expiry. *)
Definition redis_incr (key : string) (now : Z) : M Z :=
  let* r := the_redis in
  match live r key now with
  | None => put_redis (<[key := MkEntry (RString "1") None]> r) ;;; ret 1
  | Some (MkEntry (RString s) ttl) =>
      match NilZero.int_of_string s with
      | Some d =>
          let n := Z.of_int d + 1 in
          put_redis (<[key := MkEntry (RString (dec n)) ttl]> r) ;;; ret n
      | None => throw (RedisError "ERR value is not an integer or out of range")
      end
  | Some (MkEntry (RZSet _) _) =>
      throw (RedisError "WRONGTYPE Operation against a key holding the wrong kind of value")
  end.

(** [redis.expire(key, seconds)] *)
Definition redis_expire (key : string) (seconds now : Z) : M unit :=
  let* r := the_redis in
  match live r key now with
  | Some e => put_redis (<[key := MkEntry (rvalue e) (Some (now + seconds * 1000))]> r)
  | None => ret tt
  end.

(** *** Prisma queries *)

Inductive UserWhere : Type :=
  | ById (v : string)
  | ByPhone (v : string)
  | ByEmail (v : string)
  | ByGoogleId (v : string)
  | ByAppleId (v : string).

Definition user_matches (q : UserWhere) (u : User.t) : bool :=
  match q with
  | ById v => bool_decide (User.id u = v)
  | ByPhone v => bool_decide (User.phone u = Some v)
  | ByEmail v => bool_decide (User.email u = Some v)
  | ByGoogleId v => bool_decide (User.googleId u = Some v)
  | ByAppleId v => bool_decide (User.appleId u = Some v)
  end.

(** [prisma.user.findUnique({ where })] *)
Definition user_findUnique (q : UserWhere) : M (option User.t) :=
  let* p := the_prisma in ret (List.find (user_matches q) (user p)).

Definition taken (q : option UserWhere) (rows : list User.t) : bool :=
  match q with
  | Some q => existsb (user_matches q) rows
  | None => false
  end.

(** Modelled from the spec: the schema file is not part of the sources; the
    design document states that each of phone, email, Google subject and
    Apple subject is held by at most one account, "enforced by unique
    constraints in the durable store" (the service also queries each of them
    with [findUnique]). A row that would repeat a value is refused with
    Prisma's P2002. *)
Definition violates_unique (u : User.t) (rows : list User.t) : bool :=
  taken (ByPhone <$> User.phone u) rows
  || taken (ByEmail <$> User.email u) rows
  || taken (ByGoogleId <$> User.googleId u) rows
  || taken (ByAppleId <$> User.appleId u) rows.

(** [prisma.user.create({ data })]; the row's id is drawn by the store. *)
Definition user_create (phone email googleId appleId displayName avatarUrl : option string)
    (verifiedBadges : list string) (now : Z) : M User.t :=
  let* p := the_prisma in
  let u := User.Mk (cuid (seq p)) phone email googleId appleId displayName None
                   avatarUrl verifiedBadges now in
  if violates_unique u (user p)
  then throw (PrismaError "P2002")
  else put_prisma (MkPrisma (user p ++ [u]) (userSession p) (N.succ (seq p))) ;;; ret u.

Definition replace_user (u' : User.t) (rows : list User.t) : list User.t :=
  List.map (fun u => if bool_decide (User.id u = User.id u') then u' else u) rows.

(** The value a column is given by an update, if the update changes it. *)
Definition changed (old new : option string) : option string :=
  if bool_decide (old = new) then None else new.

Definition update_violates_unique (u u' : User.t) (rows : list User.t) : bool :=
  taken (ByPhone <$> changed (User.phone u) (User.phone u')) rows
  || taken (ByEmail <$> changed (User.email u) (User.email u')) rows
  || taken (ByGoogleId <$> changed (User.googleId u) (User.googleId u')) rows
  || taken (ByAppleId <$> changed (User.appleId u) (User.appleId u')) rows.

(** [prisma.user.update({ where: { id }, data })]; [data] is given as the
    effect it has on the row. P2025 is "record to update not found". *)
Definition user_update (id : string) (data : User.t -> User.t) : M User.t :=
  let* p := the_prisma in
  match List.find (user_matches (ById id)) (user p) with
  | Some u =>
      let u' := data u in
      if update_violates_unique u u' (user p)
      then throw (PrismaError "P2002")
      else put_prisma (MkPrisma (replace_user u' (user p)) (userSession p) (seq p)) ;;; ret u'
  | None => throw (PrismaError "P2025")
  end.

(** [prisma.userSession.create({ data })]: [createdAt] defaults to the clock. *)
Definition userSession_create (userId refreshTokenHash : string)
    (deviceType : option string) (ipAddress : string) (expiresAt now : Z)
    : M UserSession.t :=
  let* p := the_prisma in
  let s := UserSession.Mk (cuid (seq p)) userId refreshTokenHash deviceType
                          ipAddress expiresAt now in
  put_prisma (MkPrisma (user p) (userSession p ++ [s]) (N.succ (seq p))) ;;; ret s.

Definition has_id (id : string) (s : UserSession.t) : bool :=
  bool_decide (UserSession.id s = id).

(** [prisma.userSession.update({ where: { id }, data })] *)
Definition userSession_update (id : string) (data : UserSession.t -> UserSession.t)
    : M UserSession.t :=
  let* p := the_prisma in
  match List.find (has_id id) (userSession p) with
  | Some s =>
      put_prisma (MkPrisma (user p)
                    (List.map (fun r => if has_id id r then data r else r) (userSession p))
                    (seq p)) ;;;
      ret (data s)
  | None => throw (PrismaError "P2025")
  end.

(** [prisma.userSession.findUnique({ where: { id } })] *)
Definition userSession_findUnique (id : string) : M (option UserSession.t) :=
  let* p := the_prisma in ret (List.find (has_id id) (userSession p)).

(** [prisma.userSession.findFirst({ where })] *)
Definition userSession_findFirst (where_ : UserSession.t -> bool)
    : M (option UserSession.t) :=
  let* p := the_prisma in ret (List.find where_ (userSession p)).

(** Rows are handed back newest first. *)
Definition newer_or_same (a b : UserSession.t) : Prop :=
  UserSession.createdAt b <= UserSession.createdAt a.

#[global] Instance newer_or_same_dec : RelDecision newer_or_same.
Proof. intros a b. unfold newer_or_same. apply _. Defined.

(** [prisma.userSession.findMany({ where: { userId }, orderBy: { createdAt: 'desc' } })] *)
Definition userSession_findMany_desc (userId : string) : M (list UserSession.t) :=
  let* p := the_prisma in
  ret (merge_sort newer_or_same
         (List.filter (fun s => bool_decide (UserSession.userId s = userId)) (userSession p))).

(** [prisma.userSession.findMany({ where: { userId }, select: { id: true } })] *)
Definition userSession_findMany (userId : string) : M (list UserSession.t) :=
  let* p := the_prisma in
  ret (List.filter (fun s => bool_decide (UserSession.userId s = userId)) (userSession p)).

(** [prisma.userSession.delete({ where: { id } })] *)
Definition userSession_delete (id : string) : M unit :=
  let* p := the_prisma in
  match List.find (has_id id) (userSession p) with
  | Some _ =>
      put_prisma (MkPrisma (user p)
                    (List.filter (fun s => negb (has_id id s)) (userSession p)) (seq p))
  | None => throw (PrismaError "P2025")
  end.

(** [prisma.userSession.deleteMany({ where })] *)
Definition userSession_deleteMany (where_ : UserSession.t -> bool) : M unit :=
  let* p := the_prisma in
  put_prisma (MkPrisma (user p)
                (List.filter (fun s => negb (where_ s)) (userSession p)) (seq p)).

(** ** [src/modules/auth/auth.types.ts] *)

Module AuthTokens.
Record t : Type := Mk
  { accessToken : Token; refreshToken : Token; expiresIn : Z }.
End AuthTokens.

Module AuthUser.
Record t : Type := Mk
  { id : string;
    phone : option string;
    email : option string;
    displayName : option string;
    username : option string;
    avatarUrl : option string;
    isNewUser : bool }.
End AuthUser.

Module AuthResponse.
Record t : Type := Mk { user : AuthUser.t; tokens : AuthTokens.t }.
End AuthResponse.

(** The payload segment of a federated identity token once decoded; a token
    that does not split into three segments, or whose payload is not JSON, is
    [IdMalformed]. *)
Record IdClaims : Type := MkIdClaims
  { sub : string; id_email : option string; id_name : option string;
    id_picture : option string }.

Inductive IdToken : Type :=
  | IdJwt (claims : IdClaims)
  | IdMalformed (raw : string).

Record FullName : Type := MkFullName
  { givenName : option string; familyName : option string }.

(** JavaScript truthiness of an optional string. *)
Definition truthy (o : option string) : bool :=
  match o with
  | Some (String _ _) => true
  | _ => false
  end.

(** [o || null] *)
Definition or_null (o : option string) : option string :=
  if truthy o then o else None.

(** ** [src/modules/auth/auth.service.ts] *)

Definition or_throw {A} (o : option A) (e : Exn) : M A :=
  match o with
  | Some a => ret a
  | None => throw e
  end.

Fixpoint for_each {A} (l : list A) (body : A -> M unit) : M unit :=
  match l with
  | [] => ret tt
  | x :: rest => body x ;;; for_each rest body
  end.

Definition session_key (sessionId : string) : string := "session:" ++ sessionId.
Definition verification_key (phone : string) : string := "verification:" ++ phone.
Definition attempts_key (phone : string) : string := "verification:attempts:" ++ phone.

Definition with_hash (h : string) (s : UserSession.t) : UserSession.t :=
  UserSession.Mk (UserSession.id s) (UserSession.userId s) h (UserSession.deviceType s)
    (UserSession.ipAddress s) (UserSession.expiresAt s) (UserSession.createdAt s).

Definition rotated (h ip : string) (expiresAt : Z) (s : UserSession.t) : UserSession.t :=
  UserSession.Mk (UserSession.id s) (UserSession.userId s) h (UserSession.deviceType s)
    ip expiresAt (UserSession.createdAt s).

Definition with_lastActiveAt (t : Z) (u : User.t) : User.t :=
  User.Mk (User.id u) (User.phone u) (User.email u) (User.googleId u) (User.appleId u)
    (User.displayName u) (User.username u) (User.avatarUrl u) (User.verifiedBadges u) t.

Definition with_badges (badges : list string) (u : User.t) : User.t :=
  User.Mk (User.id u) (User.phone u) (User.email u) (User.googleId u) (User.appleId u)
    (User.displayName u) (User.username u) (User.avatarUrl u) badges (User.lastActiveAt u).

Definition with_googleId (g : string) (badges : list string) (u : User.t) : User.t :=
  User.Mk (User.id u) (User.phone u) (User.email u) (Some g) (User.appleId u)
    (User.displayName u) (User.username u) (User.avatarUrl u) badges (User.lastActiveAt u).

Definition includes (badge : string) (badges : list string) : bool :=
  bool_decide (badge ∈ badges).

Definition summary (u : User.t) (isNewUser : bool) : AuthUser.t :=
  AuthUser.Mk (User.id u) (User.phone u) (User.email u) (User.displayName u)
    (User.username u) (User.avatarUrl u) isNewUser.

Definition invalid_duration : Exn := JsError "Invalid duration format".

Section AuthService.
Variable config : Env.

(** [sendVerificationCode(phone)] *)
Definition sendVerificationCode (phone : string) (entropy : N) (now : Z) : M bool :=
  let code := generateVerificationCode entropy in
  let key := verification_key phone in
  redis_set key code 300 now ;;;
  let attemptsKey := attempts_key phone in
  let* attempts := redis_incr attemptsKey now in
  (if attempts =? 1 then redis_expire attemptsKey 3600 now else ret tt) ;;;
  if 5 <? attempts
  then throw (HttpError 429 "Too many verification attempts. Try again later.")
  else ret true.

(** [invalidateUserSessions(userId)] *)
Definition invalidateUserSessions (userId : string) : M unit :=
  let* sessions := userSession_findMany userId in
  for_each sessions (fun session => redis_del (session_key (UserSession.id session))).

(** [createSession(userId, deviceType, ipAddress)]. The source reads the
    clock when it computes the row's [expiresAt], and [jwt.sign] reads it
    again, after the awaited insert, for the tokens' [iat]; the model passes
    one reading [now] to both. The second reading can fall in a later
    second, so a property that relates the token's expiry to the row's is
    stated with the row's expiry as a hypothesis of its own. *)
Definition createSession (userId : string) (deviceType : option string)
    (ipAddress : string) (now : Z) : M AuthTokens.t :=
  let* refreshExpMs := or_throw (parseDuration (JWT_REFRESH_EXPIRATION config))
                                invalid_duration in
  let* session := userSession_create userId "" (or_null deviceType) ipAddress
                                     (now + refreshExpMs) now in
  let* accessToken :=
    or_throw (generateAccessToken config userId (UserSession.id session) now)
             invalid_duration in
  let* refreshToken :=
    or_throw (generateRefreshToken config userId (UserSession.id session) now)
             invalid_duration in
  let tokenHash := hashToken (compact refreshToken) in
  userSession_update (UserSession.id session) (with_hash tokenHash) ;;;
  let ttl := refreshExpMs / 1000 in
  redis_set (session_key (UserSession.id session)) userId ttl now ;;;
  user_update userId (with_lastActiveAt now) ;;;
  let* activeSessions := userSession_findMany_desc userId in
  (if (5 <? List.length activeSessions)%nat
   then
     let sessionsToDelete := drop 5 activeSessions in
     userSession_deleteMany
       (fun s => bool_decide (UserSession.id s ∈ List.map UserSession.id sessionsToDelete)) ;;;
     for_each sessionsToDelete (fun s => redis_del (session_key (UserSession.id s)))
   else ret tt) ;;;
  ret (AuthTokens.Mk accessToken refreshToken 900).

(** [verifyPhoneCode(input, ipAddress)] *)
Definition verifyPhoneCode (phone code : string) (deviceType : option string)
    (ipAddress : string) (now : Z) : M AuthResponse.t :=
  let key := verification_key phone in
  let* storedCode := redis_get key now in
  if negb (truthy storedCode)
  then throw (HttpError 400 "Verification code expired or not found")
  else if negb (bool_decide (storedCode = Some code))
  then throw (HttpError 400 "Invalid verification code")
  else
    redis_del key ;;;
    let* found := user_findUnique (ByPhone phone) in
    let isNewUser := match found with Some _ => false | None => true end in
    let* user :=
      match found with
      | None => user_create (Some phone) None None None None None ["PHONE"] now
      | Some u =>
          if negb (includes "PHONE" (User.verifiedBadges u))
          then user_update (User.id u) (fun r => with_badges (User.verifiedBadges r ++ ["PHONE"]) r)
          else ret u
      end in
    let* tokens := createSession (User.id user) deviceType ipAddress now in
    ret (AuthResponse.Mk (summary user isNewUser) tokens).

(** [authenticateWithGoogle(input, ipAddress)] *)
Definition authenticateWithGoogle (idToken : IdToken) (deviceType : option string)
    (ipAddress : string) (now : Z) : M AuthResponse.t :=
  match idToken with
  | IdMalformed _ => throw (HttpError 400 "Invalid Google ID token")
  | IdJwt googlePayload =>
      let* found := user_findUnique (ByGoogleId (sub googlePayload)) in
      let isNewUser := match found with Some _ => false | None => true end in
      let* user :=
        match found with
        | Some u => ret u
        | None =>
            let* linked :=
              if truthy (id_email googlePayload)
              then
                let* existingUser :=
                  user_findUnique (ByEmail (default "" (id_email googlePayload))) in
                match existingUser with
                | Some existingUser =>
                    let* u := user_update (User.id existingUser)
                                (with_googleId (sub googlePayload)
                                   (if includes "GOOGLE" (User.verifiedBadges existingUser)
                                    then User.verifiedBadges existingUser
                                    else User.verifiedBadges existingUser ++ ["GOOGLE"])) in
                    ret (Some u)
                | None => ret None
                end
              else ret None in
            match linked with
            | Some u => ret u
            | None =>
                user_create None (id_email googlePayload) (Some (sub googlePayload)) None
                            (id_name googlePayload) (id_picture googlePayload) ["GOOGLE"] now
            end
        end in
      let* tokens := createSession (User.id user) deviceType ipAddress now in
      ret (AuthResponse.Mk (summary user isNewUser) tokens)
  end.

(** [[givenName, familyName].filter(Boolean).join(' ') || null] *)
Definition apple_displayName (fullName : option FullName) : option string :=
  match fullName with
  | Some fn =>
      match or_null (givenName fn), or_null (familyName fn) with
      | Some g, Some f => Some (g ++ " " ++ f)
      | Some g, None => Some g
      | None, Some f => Some f
      | None, None => None
      end
  | None => None
  end.

(** [authenticateWithApple(input, ipAddress)] *)
Definition authenticateWithApple (identityToken : IdToken) (fullName : option FullName)
    (deviceType : option string) (ipAddress : string) (now : Z) : M AuthResponse.t :=
  match identityToken with
  | IdMalformed _ => throw (HttpError 400 "Invalid Apple identity token")
  | IdJwt applePayload =>
      let* found := user_findUnique (ByAppleId (sub applePayload)) in
      let isNewUser := match found with Some _ => false | None => true end in
      let* user :=
        match found with
        | Some u => ret u
        | None =>
            let displayName := apple_displayName fullName in
            user_create None (id_email applePayload) None (Some (sub applePayload))
                        displayName None ["APPLE"] now
        end in
      let* tokens := createSession (User.id user) deviceType ipAddress now in
      ret (AuthResponse.Mk (summary user isNewUser) tokens)
  end.

(** [refreshTokens(refreshToken, ipAddress)] *)
Definition refreshTokens (refreshToken : Token) (ipAddress : string) (now : Z)
    : M AuthTokens.t :=
  match verifyRefreshToken config refreshToken now with
  | None => throw (HttpError 401 "Invalid refresh token")
  | Some payload =>
      let tokenHash := hashToken (compact refreshToken) in
      let* session :=
        userSession_findFirst
          (fun s => bool_decide (UserSession.id s = JwtPayload.sessionId payload)
                    && bool_decide (UserSession.refreshTokenHash s = tokenHash)
                    && (now <? UserSession.expiresAt s)) in
      match session with
      | None =>
          userSession_deleteMany
            (fun s => bool_decide (UserSession.userId s = JwtPayload.userId payload)) ;;;
          invalidateUserSessions (JwtPayload.userId payload) ;;;
          throw (HttpError 401 "Invalid refresh token - all sessions invalidated")
      | Some session =>
          let* newAccessToken :=
            or_throw (generateAccessToken config (UserSession.userId session)
                        (UserSession.id session) now) invalid_duration in
          let* newRefreshToken :=
            or_throw (generateRefreshToken config (UserSession.userId session)
                        (UserSession.id session) now) invalid_duration in
          let newTokenHash := hashToken (compact newRefreshToken) in
          let* refreshExpMs := or_throw (parseDuration (JWT_REFRESH_EXPIRATION config))
                                        invalid_duration in
          userSession_update (UserSession.id session)
            (rotated newTokenHash ipAddress (now + refreshExpMs)) ;;;
          let ttl := refreshExpMs / 1000 in
          redis_set (session_key (UserSession.id session)) (UserSession.userId session)
                    ttl now ;;;
          ret (AuthTokens.Mk newAccessToken newRefreshToken 900)
      end
  end.

(** [logout(sessionId)] *)
Definition logout (sessionId : string) : M unit :=
  swallow (userSession_delete sessionId) ;;;
  redis_del (session_key sessionId).

End AuthService.

(** ** [src/shared/middleware/auth.middleware.ts] *)

(** The [Authorization] header: [Bearer] followed by a token, or anything else. *)
Inductive AuthHeader : Type :=
  | Bearer (token : Token)
  | NotBearer (raw : string).

Module AuthenticatedUser.
Record t : Type := Mk { userId : string; sessionId : string }.
End AuthenticatedUser.

(** What the hook does to the request: it answers 401 itself, or attaches the
    user and lets the request through. *)
Inductive AuthOutcome : Type :=
  | Unauthorized (message : string)
  | Authenticated (user : AuthenticatedUser.t).

Definition jwt_error : Exn := JsError "JsonWebTokenError".

Section AuthMiddleware.
Variable config : Env.

(** The body of the [try] block; [Some reply] is an early return. *)
Definition authenticate_body (token : Token) (now : Z) : M AuthOutcome :=
  let* payload := or_throw (verifyAccessToken config token now) jwt_error in
  let sessionKey := session_key (JwtPayload.sessionId payload) in
  let* sessionExists := redis_exists sessionKey now in
  let* early :=
    if negb sessionExists
    then
      let* session := userSession_findUnique (JwtPayload.sessionId payload) in
      match session with
      | None => ret (Some (Unauthorized "Session expired"))
      | Some session =>
          if UserSession.expiresAt session <? now
          then ret (Some (Unauthorized "Session expired"))
          else
            let ttl := (UserSession.expiresAt session - now) / 1000 in
            (if 0 <? ttl
             then redis_set sessionKey (UserSession.userId session) ttl now
             else ret tt) ;;;
            ret None
      end
    else ret None in
  match early with
  | Some reply => ret reply
  | None =>
      ret (Authenticated (AuthenticatedUser.Mk (JwtPayload.userId payload)
                                               (JwtPayload.sessionId payload)))
  end.

(** [authenticate(request, reply)] *)
Definition authenticate (authorization : option AuthHeader) (now : Z)
    : World -> AuthOutcome * World :=
  fun w =>
    match authorization with
    | Some (Bearer token) =>
        match authenticate_body token now w with
        | (inr outcome, w') => (outcome, w')
        | (inl _, w') => (Unauthorized "Invalid or expired token", w')
        end
    | _ => (Unauthorized "Missing or invalid authorization header", w)
    end.

(** The validity check of the design document: does a request carrying this
    access token get through? *)
Definition isValid (accessToken : Token) (now : Z) (w : World) : bool :=
  match fst (authenticate (Some (Bearer accessToken)) now w) with
  | Authenticated _ => true
  | Unauthorized _ => false
  end.
End AuthMiddleware.

(** ** [src/shared/middleware/rate-limit.middleware.ts] *)

Module Request.
Record t : Type := Mk { ip : string; url : string }.
End Request.

Module RateLimitOptions.
Record t : Type := Mk
  { max : Z;
    windowSeconds : Z;
    prefix : option string;
    keyGenerator : option (Request.t -> string) }.
End RateLimitOptions.

(** The headers set on the reply and whether the hook answered 429. *)
Module RateLimitReply.
Record t : Type := Mk
  { limit : Z; remaining : Z; reset : Z; retryAfter : option Z; tooManyRequests : bool }.
End RateLimitReply.

(** Pipelined commands: each yields its reply ([None] for an error reply,
    which a pipeline records instead of throwing) and the store it leaves. *)

Definition in_range (lo hi : Z) (m : string * Z) : bool :=
  (lo <=? snd m) && (snd m <=? hi).

Definition store_zset (key : string) (ms : list (string * Z)) (ttl : option Z)
    (r : Redis) : Redis :=
  match ms with
  | [] => delete key r
  | _ => <[key := MkEntry (RZSet ms) ttl]> r
  end.

Definition zremrangebyscore (key : string) (lo hi now : Z) (r : Redis) : option Z * Redis :=
  match live r key now with
  | Some (MkEntry (RZSet ms) ttl) =>
      let kept := List.filter (fun m => negb (in_range lo hi m)) ms in
      (Some (Z.of_nat (List.length ms - List.length kept)), store_zset key kept ttl r)
  | Some (MkEntry (RString _) _) => (None, r)
  | None => (Some 0, r)
  end.

Definition zcard (key : string) (now : Z) (r : Redis) : option Z * Redis :=
  match live r key now with
  | Some (MkEntry (RZSet ms) _) => (Some (Z.of_nat (List.length ms)), r)
  | Some (MkEntry (RString _) _) => (None, r)
  | None => (Some 0, r)
  end.

Definition zadd (key : string) (score : Z) (member : string) (now : Z) (r : Redis)
    : option Z * Redis :=
  match live r key now with
  | Some (MkEntry (RZSet ms) ttl) =>
      let others := List.filter (fun m => negb (bool_decide (fst m = member))) ms in
      (Some (Z.of_nat (S (List.length others) - List.length ms)),
       <[key := MkEntry (RZSet (others ++ [(member, score)])) ttl]> r)
  | Some (MkEntry (RString _) _) => (None, r)
  | None => (Some 1, <[key := MkEntry (RZSet [(member, score)]) None]> r)
  end.

Definition expire (key : string) (seconds now : Z) (r : Redis) : option Z * Redis :=
  match live r key now with
  | Some e => (Some 1, <[key := MkEntry (rvalue e) (Some (now + seconds * 1000))]> r)
  | None => (Some 0, r)
  end.

Definition ceil_div (a b : Z) : Z := - ((- a) / b).

Section RateLimiter.
Variable options : RateLimitOptions.t.

Definition rate_key (request : Request.t) : string :=
  let identifier :=
    match RateLimitOptions.keyGenerator options with
    | Some keyGenerator => keyGenerator request
    | None => Request.ip request
    end in
  default "rl" (RateLimitOptions.prefix options) ++ ":" ++ Request.url request
    ++ ":" ++ identifier.

(** [rateLimitHandler(request, reply)]; [random] is the text of the number
    drawn by [Math.random()]. The store always answers here: a failed
    connection, the one case in which [pipeline.exec()] rejects and the hook
    lets the request through, is outside the model. *)
Definition rateLimitHandler (request : Request.t) (random : string) (now : Z)
    (r : Redis) : RateLimitReply.t * Redis :=
  let max := RateLimitOptions.max options in
  let windowSeconds := RateLimitOptions.windowSeconds options in
  let key := rate_key request in
  let windowStart := now - windowSeconds * 1000 in
  let '(_, r1) := zremrangebyscore key 0 windowStart now r in
  let '(card, r2) := zcard key now r1 in
  let '(_, r3) := zadd key now (dec now ++ ":" ++ random) now r2 in
  let '(_, r4) := expire key windowSeconds now r3 in
  let currentCount := default 0 card in
  let rejected := max <=? currentCount in
  (RateLimitReply.Mk max (Z.max 0 (max - currentCount - 1))
     (ceil_div (now + windowSeconds * 1000) 1000)
     (if rejected then Some windowSeconds else None) rejected,
   r4).
End RateLimiter.

(** ** The error kinds of the design document, as the service signals them *)

Definition InvalidRefreshToken : Exn := HttpError 401 "Invalid refresh token".
Definition SessionCompromised : Exn :=
  HttpError 401 "Invalid refresh token - all sessions invalidated".
Definition RateLimited : Exn :=
  HttpError 429 "Too many verification attempts. Try again later.".
(** Both failures of code verification carry status 400. *)
Definition InvalidCredential (e : Exn) : Prop := exists message, e = HttpError 400 message.

(** A configuration the server can run with: both lifetimes parse, and the
    refresh lifetime is at least one second (so that the cache TTL is positive). *)
Definition usable (config : Env) : Prop :=
  exists accessMs refreshMs,
    parseDuration (JWT_ACCESS_EXPIRATION config) = Some accessMs /\
    parseDuration (JWT_REFRESH_EXPIRATION config) = Some refreshMs /\
    1000 <= accessMs /\ 1000 <= refreshMs.

Definition is_hex (c : ascii) : bool :=
  let n := N_of_ascii c in
  (((48 <=? n) && (n <=? 57)) || ((97 <=? n) && (n <=? 102)))%N.

Fixpoint all_chars (P : ascii -> bool) (s : string) : bool :=
  match s with
  | EmptyString => true
  | String c rest => P c && all_chars P rest
  end.

(** Sample configuration and worlds used to exercise the definitions. *)
Definition sample_config : Env :=
  MkEnv "access-secret-0123456789-0123456789" "refresh-secret-0123456789-012345678"
        "15m" "30d".

Definition empty_world : World := MkWorld (MkPrisma [] [] 0) ∅.

(** ** Well-formed stores *)

(** Every session id was drawn from the counter and no two rows share one
    (the primary key). *)
Definition drawn (p : Prisma) (id : string) : Prop :=
  exists k, (k < seq p)%N /\ id = cuid k.

Definition store_ok (p : Prisma) : Prop :=
  NoDup (List.map UserSession.id (userSession p)) /\
  Forall (fun s => drawn p (UserSession.id s)) (userSession p).

(** The rows of an account. *)
Definition sessions_of (userId : string) (rows : list UserSession.t) : list UserSession.t :=
  List.filter (fun s => bool_decide (UserSession.userId s = userId)) rows.

(** How many of an account's rows were created at [now] or later. *)
Definition not_older (userId : string) (now : Z) (rows : list UserSession.t) : nat :=
  List.length (List.filter (fun s => now <=? UserSession.createdAt s) (sessions_of userId rows)).

Definition account_exists (userId : string) (w : World) : Prop :=
  exists u, List.find (user_matches (ById userId)) (user (prisma w)) = Some u.

(** ** What a completed [createSession] produces *)

Definition issued (secret userId sessionId : string) (now lifetimeMs : Z) : Token :=
  Jwt secret (JwtPayload.Mk userId sessionId (now / 1000) (now / 1000 + lifetimeMs / 1000)).

(** The row of the new session once its digest has been written. *)
Definition new_session (config : Env) (userId : string) (deviceType : option string)
    (ipAddress : string) (now refreshMs : Z) (p : Prisma) : UserSession.t :=
  UserSession.Mk (cuid (seq p)) userId
    (hashToken (compact (issued (JWT_REFRESH_SECRET config) userId (cuid (seq p)) now refreshMs)))
    (or_null deviceType) ipAddress (now + refreshMs) now.

(** The rows beyond the fifth in the account's newest-first listing. *)
Definition evicted (userId : string) (rows : list UserSession.t) : list UserSession.t :=
  drop 5 (merge_sort newer_or_same (sessions_of userId rows)).

Definition retained (userId : string) (rows : list UserSession.t) : list UserSession.t :=
  take 5 (merge_sort newer_or_same (sessions_of userId rows)).

(** ** Sample worlds *)

Definition sample_user : User.t :=
  User.Mk "c0" (Some "+14155551234") None None None None None None ["PHONE"] 0.

Definition one_user_world : World := MkWorld (MkPrisma [sample_user] [] 1) ∅.



(** ** Sequences of [createSession] calls *)

Module Login.
Record t : Type := Mk
  { userId : string; deviceType : option string; ipAddress : string; at_ : Z }.
End Login.

(** The world after the calls have run one after the other, whatever each
    returned. *)
Definition createSession_all (config : Env) (calls : list Login.t) (w : World) : World :=
  foldl (fun w c =>
           snd (createSession config (Login.userId c) (Login.deviceType c)
                              (Login.ipAddress c) (Login.at_ c) w))
        w calls.

Definition five_logins : list Login.t :=
  List.repeat (Login.Mk "c0" None "10.0.0.1" 2000) 5.

(** A world in which the sample phone has a pending challenge. *)
Definition challenge_world : World :=
  snd (sendVerificationCode "+14155551234" 5 1000 empty_world).

(** A session row still holding the placeholder digest. *)
Definition placeholder_world : World :=
  MkWorld
    (MkPrisma [sample_user] [UserSession.Mk "c1" "c0" "" None "10.0.0.1" 2592001000 1000] 2)
    ∅.

(** Identity-token payloads of one person at two providers. *)
Definition google_claims : IdClaims :=
  MkIdClaims "google-sub-1" (Some "sam@example.com") (Some "Sam") None.

Definition apple_claims : IdClaims :=
  MkIdClaims "apple-sub-1" (Some "sam@example.com") None None.

Definition refresh_of (r : AuthResponse.t) : Token :=
  AuthTokens.refreshToken (AuthResponse.tokens r).

Definition access_of (r : AuthResponse.t) : Token :=
  AuthTokens.accessToken (AuthResponse.tokens r).

(** ** Runs of the rate limiter *)

(** An attempt: the clock reading and the text drawn by [Math.random()]. *)
Definition member (attempt : Z * string) : string :=
  dec (fst attempt) ++ ":" ++ snd attempt.

(** The hook's answers (is the request refused?) to successive attempts of
    one client on one route. *)
Fixpoint rate_decisions (options : RateLimitOptions.t) (request : Request.t)
    (attempts : list (Z * string)) (r : Redis) : list bool :=
  match attempts with
  | [] => []
  | (now, random) :: rest =>
      let '(reply, r') := rateLimitHandler options request random now r in
      RateLimitReply.tooManyRequests reply :: rate_decisions options request rest r'
  end.

(** Fixed-window counting as the design document words it: one counter per
    key, started by the first attempt of a window, refusing once it has
    reached the maximum, and reset only when [windowSeconds] have passed
    since that first attempt. [window] is the start of the current window and
    the count so far. *)
Fixpoint fixed_window_decisions (max windowSeconds : Z) (window : option (Z * Z))
    (times : list Z) : list bool :=
  match times with
  | [] => []
  | now :: rest =>
      let '(start, count) :=
        match window with
        | Some (start, count) =>
            if now <? start + windowSeconds * 1000 then (start, count) else (now, 0)
        | None => (now, 0)
        end in
      (max <=? count) :: fixed_window_decisions max windowSeconds (Some (start, count + 1)) rest
  end.

(** Sliding-window counting: an attempt is refused when the attempts made
    in the [windowSeconds] before it, refused ones included, number [max] or
    more. *)
Definition in_window (windowSeconds now t : Z) : bool := now - windowSeconds * 1000 <? t.

Fixpoint sliding_window_decisions (max windowSeconds : Z) (earlier times : list Z)
    : list bool :=
  match times with
  | [] => []
  | now :: rest =>
      (max <=? Z.of_nat (List.length (List.filter (in_window windowSeconds now) earlier)))
        :: sliding_window_decisions max windowSeconds (earlier ++ [now]) rest
  end.

Definition two_per_ten_seconds : RateLimitOptions.t :=
  RateLimitOptions.Mk 2 10 None None.

Definition sample_request : Request.t := Request.Mk "203.0.113.7" "/auth/phone/verify".

Definition sample_attempts : list (Z * string) :=
  [(0, "0.11"); (9000, "0.22"); (10500, "0.33"); (11000, "0.44")].

(** The sorted set a key holds at [now]: empty when the key is absent or
    dead, undefined when the key holds a string. *)
Definition stored (r : Redis) (key : string) (now : Z) : option (list (string * Z)) :=
  match live r key now with
  | Some (MkEntry (RZSet ms) _) => Some ms
  | Some (MkEntry (RString _) _) => None
  | None => Some []
  end.

(** The store agrees with a log of the attempts made so far: at every instant
    from [since] on, the entries of the key that are still within the window
    are those of the log that are. *)
Definition records (r : Redis) (key : string) (windowSeconds : Z)
    (log : list (string * Z)) (since : Z) : Prop :=
  forall now, since <= now ->
    exists ms, stored r key now = Some ms /\
      List.filter (fun p => in_window windowSeconds now (snd p)) ms
      = List.filter (fun p => in_window windowSeconds now (snd p)) log /\
      incl ms log.

(** ** Runs of the service *)

(** One call of the service or of the authentication hook, with the clock
    reading and the random draw it consumes. *)
Inductive Call : Type :=
  | SendCode (phone : string) (entropy : N) (now : Z)
  | VerifyPhone (phone code : string) (deviceType : option string) (ip : string) (now : Z)
  | Google (idToken : IdToken) (deviceType : option string) (ip : string) (now : Z)
  | Apple (identityToken : IdToken) (fullName : option FullName)
          (deviceType : option string) (ip : string) (now : Z)
  | Refresh (refreshToken : Token) (ip : string) (now : Z)
  | Logout (sessionId : string)
  | Authenticate (authorization : option AuthHeader) (now : Z).

(** The world a call leaves behind, whatever it returned or threw. *)
Definition perform (config : Env) (c : Call) (w : World) : World :=
  match c with
  | SendCode phone entropy now => snd (sendVerificationCode phone entropy now w)
  | VerifyPhone phone code deviceType ip now =>
      snd (verifyPhoneCode config phone code deviceType ip now w)
  | Google idToken deviceType ip now =>
      snd (authenticateWithGoogle config idToken deviceType ip now w)
  | Apple identityToken fullName deviceType ip now =>
      snd (authenticateWithApple config identityToken fullName deviceType ip now w)
  | Refresh refreshToken ip now => snd (refreshTokens config refreshToken ip now w)
  | Logout sessionId => snd (logout sessionId w)
  | Authenticate authorization now => snd (authenticate config authorization now w)
  end.

Definition perform_all (config : Env) (calls : list Call) (w : World) : World :=
  foldl (fun w c => perform config c w) w calls.

(** No refresh token that a call of the run could issue for session
    [sessionId] of account [userId] has the digest [digest]. *)
Definition no_collision (config : Env) (userId sessionId digest : string) (c : Call) : Prop :=
  match c with
  | Refresh _ _ now =>
      forall token, generateRefreshToken config userId sessionId now = Some token ->
                    hashToken (compact token) <> digest
  | _ => True
  end.

(** Session [sessionId] was drawn by the store, belongs to [userId] if it
    exists, and does not hold [digest]. *)
Definition retired (userId sessionId digest : string) (p : Prisma) : Prop :=
  drawn p sessionId /\
  forall s, In s (userSession p) -> UserSession.id s = sessionId ->
            UserSession.userId s = userId /\ UserSession.refreshTokenHash s <> digest.

(** [m] preserves the property [J] of the durable store whatever it returns
    or throws, and a value it returns satisfies [Q]. *)
Definition keeps (J : Prisma -> Prop) {A} (m : M A) (Q : A -> Prop) : Prop :=
  forall w, J (prisma w) ->
            J (prisma (snd (m w))) /\ forall a, fst (m w) = inr a -> Q a.

(** The sample account after one Google login at instant 1000, the refresh
    token that login returned, and what happens afterwards. *)
Definition logged_in_world : World :=
  snd (authenticateWithGoogle sample_config (IdJwt google_claims) None "10.0.0.1" 1000
         empty_world).

Definition first_refresh_token : Token :=
  issued (JWT_REFRESH_SECRET sample_config) "c0" "c1" 1000 2592000000.

Definition first_session : UserSession.t :=
  UserSession.Mk "c1" "c0" (hashToken (compact first_refresh_token)) None "10.0.0.1"
                 2592001000 1000.

Definition later_calls : list Call :=
  [ Refresh (issued (JWT_REFRESH_SECRET sample_config) "c0" "c1" 2500 2592000000)
            "10.0.0.1" 4000;
    Google (IdJwt google_claims) None "10.0.0.2" 5000;
    Authenticate None 6000;
    Logout "c2" ].

(** A world in which the sample phone has already asked for five codes. *)
Definition five_sends_world : World :=
  let send := fun w => snd (sendVerificationCode "+14155551234" 7 1000 w) in
  send (send (send (send (send empty_world)))).

(** ** More of [src/shared/utils/jwt.ts] *)

(** [Number.MAX_SAFE_INTEGER], [2^53 - 1]: up to it every integer is a
    JavaScript number and sums and products of integers are exact. *)
Definition MAX_SAFE_INTEGER : Z := 9007199254740991.

(** [decodeToken(token)]: [jwt.decode] reads the claims of a well-formed
    token without checking its signature or its expiry. *)
Definition decodeToken (token : Token) : option JwtPayload.t :=
  match token with
  | Jwt _ p => Some p
  | NotJwt _ => None
  end.

(** ** More of [src/shared/middleware/auth.middleware.ts] *)

(** [optionalAuth(request, _reply)]: the user the hook attaches to the
    request, if any. The hook never answers the request itself and reads
    neither store. *)
Definition optionalAuth (config : Env) (authorization : option AuthHeader) (now : Z)
    : option AuthenticatedUser.t :=
  match authorization with
  | Some (Bearer token) =>
      match verifyAccessToken config token now with
      | Some payload =>
          Some (AuthenticatedUser.Mk (JwtPayload.userId payload) (JwtPayload.sessionId payload))
      | None => None
      end
  | _ => None
  end.

(** ** More of [src/shared/utils/hash.ts] *)

(** The two lowercase hexadecimal digits of a byte. *)
Definition hex_byte (b : Z) : string :=
  String (hex_digit (b / 16)) (String (hex_digit (b mod 16)) EmptyString).

(** The hexadecimal rendering of a byte sequence, two digits per byte. *)
Definition hex_of_bytes (bytes : list Z) : string :=
  List.fold_right (fun b s => hex_byte b ++ s) EmptyString bytes.

(** [buffer.constants.MAX_STRING_LENGTH], the longest string the engine
    builds (V8 on a 64-bit platform): [2^29 - 24] characters. *)
Definition MAX_STRING_LENGTH : Z := 536870888.

(** [buffer.toString('hex')]: [None] is the thrown ERR_STRING_TOO_LONG, for
    a buffer whose rendering would exceed the longest string. *)
Definition toString_hex (bytes : list Z) : option string :=
  if MAX_STRING_LENGTH <? 2 * Z.of_nat (List.length bytes)
  then None
  else Some (hex_of_bytes bytes).

(** [crypto.randomBytes(size)]: a RangeError ([None]) unless
    [0 <= size <= 2^31 - 1]; the bytes are determined here by the entropy
    consumed. *)
Definition randomBytes (size : Z) (entropy : nat -> Z) : option (list Z) :=
  if (size <? 0) || (2147483647 <? size)
  then None
  else Some (List.map (fun i => entropy i mod 256) (List.seq 0 (Z.to_nat size))).

(** [generateSecureToken(length)], for an integer [length]: [None] is the
    error thrown by either step. *)
Definition generateSecureToken (length : Z) (entropy : nat -> Z) : option string :=
  match randomBytes length entropy with
  | Some buffer => toString_hex buffer
  | None => None
  end.

(** ** [src/modules/auth/auth.schema.ts] *)

(** [/^\+[1-9]\d{9,14}$/] *)
Definition e164 (s : string) : bool :=
  match s with
  | String "+" (String c rest) =>
      is_digit c && negb (Ascii.eqb c "0") && all_chars is_digit rest
      && (9 <=? String.length rest)%nat && (String.length rest <=? 14)%nat
  | _ => false
  end.

(** [z.string().min(10).max(15).regex(/^\+[1-9]\d{9,14}$/)]: does the value
    pass? *)
Definition phone_field (s : string) : bool :=
  (10 <=? String.length s)%nat && (String.length s <=? 15)%nat && e164 s.

(** [z.string().length(6).regex(/^\d{6}$/)] *)
Definition code_field (s : string) : bool :=
  (String.length s =? 6)%nat && all_chars is_digit s.

(** [sendCodeSchema.parse(body)] succeeds. *)
Definition sendCodeSchema (phone : string) : bool := phone_field phone.

(** [verifyCodeSchema.parse(body)] succeeds; the optional [deviceType] is
    any string. *)
Definition verifyCodeSchema (phone code : string) : bool :=
  phone_field phone && code_field code.

(** ** [src/shared/utils/pagination.ts] *)

Definition DEFAULT_LIMIT : Z := 20.
Definition MAX_LIMIT : Z := 100.

Module PaginationParams.
Record t : Type := Mk { cursor : option string; limit : option Z }.
End PaginationParams.

Module CursorArgs.
Record t : Type := Mk { take : Z; skip : Z; cursor : option string }.
End CursorArgs.

Module PaginationMeta.
Record t : Type := Mk { hasMore : bool; nextCursor : option string; total : option Z }.
End PaginationMeta.

(** The value of [Number(query.limit)] when it is an integer, and [NaN]
    (a missing or non-numeric limit). Fractions and infinities are outside
    the model. *)
Inductive JsNumber : Type :=
  | NaN
  | Integer (z : Z).

(** [parsePaginationParams(query)] *)
Definition parsePaginationParams (cursor : option string) (limit : JsNumber)
    : PaginationParams.t :=
  let requested :=
    match limit with
    | Integer z => if z =? 0 then DEFAULT_LIMIT else z
    | NaN => DEFAULT_LIMIT
    end in
  PaginationParams.Mk (or_null cursor) (Some (Z.min (Z.max 1 requested) MAX_LIMIT)).

(** [buildCursorPagination(params)] *)
Definition buildCursorPagination (params : PaginationParams.t) : CursorArgs.t :=
  let take := default DEFAULT_LIMIT (PaginationParams.limit params) in
  if truthy (PaginationParams.cursor params)
  then CursorArgs.Mk (take + 1) 1 (PaginationParams.cursor params)
  else CursorArgs.Mk (take + 1) 0 None.

Section Pagination.
Context {T : Type} (id : T -> string).

(** [items.slice(0, end)] for an integer [end]; a negative one counts from
    the end of the array. *)
Definition slice0 (items : list T) (end_ : Z) : list T :=
  if end_ <? 0
  then take (Z.to_nat (Z.of_nat (List.length items) + end_)) items
  else take (Z.to_nat end_) items.

(** [buildPaginationMeta(items, limit, total)] *)
Definition buildPaginationMeta (items : list T) (limit : Z) (total : option Z)
    : list T * PaginationMeta.t :=
  let hasMore := limit <? Z.of_nat (List.length items) in
  let resultItems := if hasMore then slice0 items limit else items in
  let nextCursor := if hasMore then id <$> last resultItems else None in
  (resultItems, PaginationMeta.Mk hasMore nextCursor total).
End Pagination.

(** ** More of [src/shared/middleware/rate-limit.middleware.ts] *)

Module rateLimiters.
Definition standard : RateLimitOptions.t := RateLimitOptions.Mk 100 60 None None.
Definition auth : RateLimitOptions.t := RateLimitOptions.Mk 10 60 (Some "rl:auth") None.
Definition sms : RateLimitOptions.t := RateLimitOptions.Mk 3 300 (Some "rl:sms") None.
Definition upload : RateLimitOptions.t := RateLimitOptions.Mk 20 60 (Some "rl:upload") None.
End rateLimiters.

(** A string without a colon, as the text of an IPv4 address is. *)
Definition colon_free (s : string) : bool :=
  all_chars (fun c => negb (Ascii.eqb c ":")) s.

(** ** Cache footprints *)

(** [m] leaves every cache key outside [K] as it was, whatever it returns
    or throws. *)
Definition touches_only (K : string -> Prop) {A} (m : M A) : Prop :=
  forall w k, ~ K k -> redis (snd (m w)) !! k = redis w !! k.

Definition is_session_key (k : string) : Prop :=
  exists sessionId, k = session_key sessionId.

(** The cache keys a call may write or delete. *)
Definition footprint (c : Call) (k : string) : Prop :=
  match c with
  | SendCode phone _ _ => k = verification_key phone \/ k = attempts_key phone
  | VerifyPhone phone _ _ _ _ => k = verification_key phone \/ is_session_key k
  | Logout sessionId => k = session_key sessionId
  | _ => is_session_key k
  end.

(** ** Runs of [sendVerificationCode] *)

(** What successive calls for one phone returned or threw; each call has
    its own random draw and clock reading. *)
Fixpoint send_outcomes (phone : string) (sends : list (N * Z)) (w : World)
    : list (Exn + bool) :=
  match sends with
  | [] => []
  | (entropy, now) :: rest =>
      let '(outcome, w') := sendVerificationCode phone entropy now w in
      outcome :: send_outcomes phone rest w'
  end.

(** The world those calls leave behind. *)
Fixpoint after_sends (phone : string) (sends : list (N * Z)) (w : World) : World :=
  match sends with
  | [] => w
  | (entropy, now) :: rest =>
      after_sends phone rest (snd (sendVerificationCode phone entropy now w))
  end.

(** ** Well-formed durable stores *)

(** Every account id was drawn from the counter and no two accounts share
    one (the primary key of the account table). *)
Definition accounts_ok (p : Prisma) : Prop :=
  NoDup (List.map User.id (user p)) /\
  Forall (fun u => drawn p (User.id u)) (user p).

Definition well_formed (p : Prisma) : Prop := store_ok p /\ accounts_ok p.

(** An update of an account row that leaves its id, phone, email and Apple
    subject alone. *)
Definition keeps_identity (data : User.t -> User.t) : Prop :=
  forall u,
    User.id (data u) = User.id u /\
    User.phone (data u) = User.phone u /\
    User.email (data u) = User.email u /\
    User.appleId (data u) = User.appleId u.

(** Account [userId] has a row with this phone, email and Apple subject. *)
Definition account_is (userId : string) (phone email appleId : option string)
    (p : Prisma) : Prop :=
  exists u,
    List.find (user_matches (ById userId)) (user p) = Some u /\
    User.phone u = phone /\ User.email u = email /\ User.appleId u = appleId.

(** * Properties *)

(** ** Digests *)

Lemma string_length_app (a b : string) :
  String.length (a ++ b) = (String.length a + String.length b)%nat.
Proof. induction a as [|c a IH]; simpl; [reflexivity | now rewrite IH]. Qed.

Lemma all_chars_app P (a b : string) :
  all_chars P (a ++ b) = all_chars P a && all_chars P b.
Proof.
  induction a as [|c a IH]; simpl; [reflexivity|].
  rewrite IH. now rewrite andb_assoc.
Qed.

Lemma hex_digit_is_hex n : is_hex (hex_digit n) = true.
Proof.
  destruct n as [|p|p]; try reflexivity.
  do 4 (try (destruct p as [p|p|]; try reflexivity)).
Qed.

Lemma hex32_is_hex x : all_chars is_hex (hex32 x) = true.
Proof.
  unfold hex32, nibble. cbn [all_chars].
  now rewrite !hex_digit_is_hex.
Qed.

Lemma hashToken_length token : String.length (hashToken token) = 64%nat.
Proof.
  unfold hashToken, hex_of_hstate.
  now rewrite !string_length_app.
Qed.

Lemma hashToken_is_hex token : all_chars is_hex (hashToken token) = true.
Proof.
  unfold hashToken, hex_of_hstate.
  now rewrite !all_chars_app, !hex32_is_hex.
Qed.

Lemma hashToken_not_placeholder token : hashToken token <> "".
Proof.
  intros H. pose proof (hashToken_length token) as L.
  rewrite H in L. discriminate L.
Qed.

#[global] Opaque hashToken.
#[global] Arguments compact : simpl never.
#[global] Arguments dec : simpl never.
#[global] Arguments cuid : simpl never.

(** ** Token kinds *)

Lemma refreshTokens_unverified config token ip now w :
  verifyRefreshToken config token now = None ->
  refreshTokens config token ip now w = (inl InvalidRefreshToken, w).
Proof. intros H. unfold refreshTokens. now rewrite H. Qed.

(** C8. When the two secrets differ, a token made by [generateAccessToken] is
    refused by [verifyRefreshToken] at any time, and [refreshTokens] given
    such a token throws "Invalid refresh token" and leaves both stores as they
    were. *)
Theorem access_token_cannot_refresh config userId sessionId issuedAt token :
  JWT_ACCESS_SECRET config <> JWT_REFRESH_SECRET config ->
  generateAccessToken config userId sessionId issuedAt = Some token ->
  (forall now, verifyRefreshToken config token now = None) /\
  (forall ip now w, refreshTokens config token ip now w = (inl InvalidRefreshToken, w)).
Proof.
  intros Hsecrets Hgen.
  assert (Hv : forall now, verifyRefreshToken config token now = None).
  { intros now. unfold generateAccessToken, jwt_sign in Hgen.
    destruct (parseDuration (JWT_ACCESS_EXPIRATION config)); [|discriminate].
    injection Hgen as <-. unfold verifyRefreshToken, jwt_verify.
    now rewrite bool_decide_eq_false_2. }
  split; [exact Hv|].
  intros ip now w. now apply refreshTokens_unverified.
Qed.

Lemma access_token_cannot_refresh_witness :
  let token := Jwt (JWT_ACCESS_SECRET sample_config) (JwtPayload.Mk "c0" "c1" 1 901) in
  (forall now, verifyRefreshToken sample_config token now = None) /\
  (forall ip now w, refreshTokens sample_config token ip now w = (inl InvalidRefreshToken, w)).
Proof.
  apply (access_token_cannot_refresh sample_config "c0" "c1" 1000).
  - vm_compute. discriminate.
  - vm_compute. reflexivity.
Defined.

(** ** Redis commands *)

Lemma dec_parses n :
  exists d, NilZero.int_of_string (dec n) = Some d /\ Z.of_int d = n.
Proof.
  exists (Z.to_int n). split; [|apply DecimalZ.of_to].
  unfold dec. apply NilZero.isi.
  - rewrite <- (DecimalZ.of_to n), DecimalZ.to_of.
    destruct (Z.to_int n) as [u|u]; simpl.
    + intros [= H]. now apply DecimalFacts.unorm_nonnil in H.
    + destruct (Decimal.nzhead u); discriminate.
  - rewrite <- (DecimalZ.of_to n), DecimalZ.to_of.
    destruct (Z.to_int n) as [u|u]; simpl.
    + discriminate.
    + destruct (Decimal.nzhead u) eqn:E; discriminate.
Qed.

Lemma redis_set_run key value seconds now w :
  0 < seconds ->
  redis_set key value seconds now w =
  (inr tt, MkWorld (prisma w)
             (<[key := MkEntry (RString value) (Some (now + seconds * 1000))]> (redis w))).
Proof.
  intros H. unfold redis_set.
  destruct (Z.leb_spec seconds 0); [lia|]. reflexivity.
Qed.

Lemma redis_del_run key w :
  redis_del key w = (inr tt, MkWorld (prisma w) (delete key (redis w))).
Proof. reflexivity. Qed.

(** Stepping through a sequence of calls. *)
Lemma bind_inr {A B} (m : M A) (k : A -> M B) w a w' :
  m w = (inr a, w') -> bind m k w = k a w'.
Proof. intros H. unfold bind. now rewrite H. Qed.

Lemma bind_inl {A B} (m : M A) (k : A -> M B) w e w' :
  m w = (inl e, w') -> bind m k w = (inl e, w').
Proof. intros H. unfold bind. now rewrite H. Qed.

Ltac step_as E :=
  match goal with
  | |- context [bind ?m ?k ?w] =>
      let e := fresh "e" in
      let a := fresh "a" in
      let w' := fresh "w" in
      destruct (m w) as [[e|a] w'] eqn:E;
      [rewrite (bind_inl m k w e w' E) | rewrite (bind_inr m k w a w' E)]
  end.

(** [redis.incr] and [redis.expire] touch the named key only. *)
Lemma redis_incr_frame key now w res w' :
  redis_incr key now w = (res, w') ->
  prisma w' = prisma w /\ forall k, k <> key -> redis w' !! k = redis w !! k.
Proof.
  unfold redis_incr, bind, the_redis, put_redis, ret, throw.
  destruct (live (redis w) key now) as [[[s|ms] ttl]|].
  - destruct (NilZero.int_of_string s); intros [= <- <-]; simpl; split; auto.
    intros k Hk. now rewrite lookup_insert_ne.
  - intros [= <- <-]. split; auto.
  - intros [= <- <-]. simpl. split; auto. intros k Hk. now rewrite lookup_insert_ne.
Qed.

Lemma redis_expire_frame key seconds now w res w' :
  redis_expire key seconds now w = (res, w') ->
  res = inr tt /\ prisma w' = prisma w /\
  forall k, k <> key -> redis w' !! k = redis w !! k.
Proof.
  unfold redis_expire, bind, the_redis, put_redis, ret.
  destruct (live (redis w) key now); intros [= <- <-]; simpl; repeat split; auto.
  intros k Hk. now rewrite lookup_insert_ne.
Qed.

Lemma redis_incr_reads key now w n ttl :
  live (redis w) key now = Some (MkEntry (RString (dec n)) ttl) ->
  redis_incr key now w =
  (inr (n + 1), MkWorld (prisma w) (<[key := MkEntry (RString (dec (n + 1))) ttl]> (redis w))).
Proof.
  intros H. unfold redis_incr, bind, the_redis, put_redis, ret. rewrite H.
  destruct (dec_parses n) as (d & -> & <-). reflexivity.
Qed.

Lemma verification_key_not_attempts_key phone :
  verification_key phone <> attempts_key phone.
Proof.
  unfold verification_key, attempts_key. intros H.
  apply (f_equal String.length) in H.
  rewrite !string_length_app in H. simpl in H. lia.
Qed.

(** ** Sending a verification code *)

(** C9. Whatever [sendVerificationCode] returns or throws, the world it
    leaves holds the newly generated code under the phone's verification key
    with an expiry 300 seconds after the call; and when the attempt counter
    already reads 5 or more, the call throws the 429 error, so that this
    overwrite has happened on the error path too. *)
Theorem sendVerificationCode_overwrites_challenge phone entropy now w :
  redis (snd (sendVerificationCode phone entropy now w)) !! verification_key phone
    = Some (MkEntry (RString (generateVerificationCode entropy)) (Some (now + 300 * 1000)))
  /\ (forall n ttl,
        live (redis w) (attempts_key phone) now = Some (MkEntry (RString (dec n)) ttl) ->
        5 <= n ->
        fst (sendVerificationCode phone entropy now w) = inl RateLimited).
Proof.
  pose proof (verification_key_not_attempts_key phone) as Hkeys.
  unfold sendVerificationCode.
  rewrite (bind_inr _ _ _ _ _ (redis_set_run _ _ 300 now w ltac:(lia))).
  set (code := generateVerificationCode entropy).
  set (w1 := MkWorld _ _).
  assert (Hw1 : redis w1 !! verification_key phone
                = Some (MkEntry (RString code) (Some (now + 300 * 1000)))).
  { apply lookup_insert_eq. }
  split.
  - step_as Hincr;
      apply redis_incr_frame in Hincr as [_ Hframe];
      rewrite <- (Hframe _ Hkeys) in Hw1; [exact Hw1|].
    assert (Hlast : forall w3,
              redis w3 !! verification_key phone = redis w0 !! verification_key phone ->
              redis (snd ((if 5 <? a then throw RateLimited else ret true) w3))
                !! verification_key phone
              = Some (MkEntry (RString code) (Some (now + 300 * 1000)))).
    { intros w3 H3. destruct (5 <? a); simpl; congruence. }
    step_as Hexp.
    + destruct (a =? 1).
      * apply redis_expire_frame in Hexp as (? & _); discriminate.
      * discriminate.
    + apply Hlast. destruct (a =? 1).
      * apply redis_expire_frame in Hexp as (_ & _ & Hf). now apply Hf.
      * now injection Hexp as _ <-.
  - intros n ttl Hn Hge.
    assert (Hlive : live (redis w1) (attempts_key phone) now
                    = Some (MkEntry (RString (dec n)) ttl)).
    { rewrite <- Hn. unfold live, w1. simpl. now rewrite lookup_insert_ne. }
    rewrite (bind_inr _ _ _ _ _ (redis_incr_reads _ _ _ _ _ Hlive)).
    destruct (Z.eqb_spec (n + 1) 1); [lia|].
    unfold bind, ret. simpl.
    destruct (Z.ltb_spec 5 (n + 1)); [reflexivity|lia].
Qed.

(** ** Store commands *)

Lemma or_throw_some {A} (a : A) e w : or_throw (Some a) e w = (inr a, w).
Proof. reflexivity. Qed.

Lemma for_each_del_run (l : list UserSession.t) w :
  for_each l (fun s => redis_del (session_key (UserSession.id s))) w =
  (inr tt, MkWorld (prisma w)
             (foldl (fun r s => delete (session_key (UserSession.id s)) r) (redis w) l)).
Proof.
  revert w. induction l as [|s l IH]; intros w; simpl.
  - now destruct w.
  - rewrite (bind_inr _ _ _ _ _ (redis_del_run _ w)). now rewrite IH.
Qed.

Lemma find_has_id_app_new id (rows : list UserSession.t) s :
  UserSession.id s = id -> exists r, List.find (has_id id) (rows ++ [s]) = Some r.
Proof.
  intros H. destruct (List.find (has_id id) (rows ++ [s])) eqn:E; eauto.
  exfalso.
  assert (Hin : In s (rows ++ [s])) by (apply in_app_iff; right; now left).
  pose proof (find_none _ _ E s Hin) as Hf.
  unfold has_id in Hf. now rewrite bool_decide_eq_true_2 in Hf.
Qed.

Lemma update_keeps_unique_columns u u' rows :
  User.phone u' = User.phone u -> User.email u' = User.email u ->
  User.googleId u' = User.googleId u -> User.appleId u' = User.appleId u ->
  update_violates_unique u u' rows = false.
Proof.
  intros H1 H2 H3 H4. unfold update_violates_unique, changed.
  rewrite H1, H2, H3, H4. now rewrite !bool_decide_eq_true_2.
Qed.

Lemma filter_all_in {A} (P : A -> bool) (l : list A) :
  (forall x, In x l -> P x = true) -> List.filter P l = l.
Proof.
  intros H. induction l as [|x l IH]; simpl; [reflexivity|].
  rewrite H by now left. rewrite IH; [reflexivity|].
  intros y Hy. apply H. now right.
Qed.

Lemma filter_all {A} (P : A -> bool) (l : list A) :
  (forall x, P x = true) -> List.filter P l = l.
Proof. intros H. apply filter_all_in. auto. Qed.

Lemma filter_none_excluded (rows : list UserSession.t) :
  List.filter (fun s => negb (bool_decide (UserSession.id s ∈ List.map UserSession.id []))) rows
  = rows.
Proof.
  apply filter_all. intros s.
  rewrite bool_decide_eq_false_2; [reflexivity|]. simpl. apply not_elem_of_nil.
Qed.

Lemma userSession_create_run userId hash deviceType ip expiresAt now w :
  userSession_create userId hash deviceType ip expiresAt now w =
  (inr (UserSession.Mk (cuid (seq (prisma w))) userId hash deviceType ip expiresAt now),
   MkWorld (MkPrisma (user (prisma w))
              (userSession (prisma w)
                 ++ [UserSession.Mk (cuid (seq (prisma w))) userId hash deviceType ip
                                    expiresAt now])
              (N.succ (seq (prisma w))))
           (redis w)).
Proof. reflexivity. Qed.

Lemma userSession_update_run id data us ss sq r s :
  List.find (has_id id) ss = Some s ->
  userSession_update id data (MkWorld (MkPrisma us ss sq) r) =
  (inr (data s),
   MkWorld (MkPrisma us (List.map (fun r => if has_id id r then data r else r) ss) sq) r).
Proof.
  intros H. unfold userSession_update, bind, the_prisma, put_prisma, ret.
  cbn [prisma userSession user seq redis]. now rewrite H.
Qed.

Lemma user_update_run id data us ss sq r u :
  List.find (user_matches (ById id)) us = Some u ->
  update_violates_unique u (data u) us = false ->
  user_update id data (MkWorld (MkPrisma us ss sq) r) =
  (inr (data u), MkWorld (MkPrisma (replace_user (data u) us) ss sq) r).
Proof.
  intros H Hu. unfold user_update, bind, the_prisma, put_prisma, ret.
  cbn [prisma userSession user seq redis]. now rewrite H, Hu.
Qed.

Lemma userSession_findMany_desc_run userId w :
  userSession_findMany_desc userId w =
  (inr (merge_sort newer_or_same
          (List.filter (fun s => bool_decide (UserSession.userId s = userId))
                       (userSession (prisma w)))), w).
Proof. reflexivity. Qed.

Lemma userSession_findFirst_run where_ w :
  userSession_findFirst where_ w = (inr (List.find where_ (userSession (prisma w))), w).
Proof. reflexivity. Qed.

Lemma userSession_findMany_run userId w :
  userSession_findMany userId w =
  (inr (List.filter (fun s => bool_decide (UserSession.userId s = userId))
                    (userSession (prisma w))), w).
Proof. reflexivity. Qed.

Lemma userSession_deleteMany_run where_ w :
  userSession_deleteMany where_ w =
  (inr tt,
   MkWorld (MkPrisma (user (prisma w))
              (List.filter (fun s => negb (where_ s)) (userSession (prisma w)))
              (seq (prisma w)))
           (redis w)).
Proof. reflexivity. Qed.

Section CreateSession.
Variables (config : Env) (userId : string) (deviceType : option string)
          (ipAddress : string) (now : Z) (w : World).
Variables (accessMs refreshMs : Z) (u : User.t).
Hypothesis Haccess : parseDuration (JWT_ACCESS_EXPIRATION config) = Some accessMs.
Hypothesis Hrefresh : parseDuration (JWT_REFRESH_EXPIRATION config) = Some refreshMs.
Hypothesis Hlong : 1000 <= refreshMs.
Hypothesis Huser : List.find (user_matches (ById userId)) (user (prisma w)) = Some u.

Let sid := cuid (seq (prisma w)).
Let access :=
  Jwt (JWT_ACCESS_SECRET config)
      (JwtPayload.Mk userId sid (now / 1000) (now / 1000 + accessMs / 1000)).
Let refresh :=
  Jwt (JWT_REFRESH_SECRET config)
      (JwtPayload.Mk userId sid (now / 1000) (now / 1000 + refreshMs / 1000)).
Let placeholder :=
  UserSession.Mk sid userId "" (or_null deviceType) ipAddress (now + refreshMs) now.
Let rows :=
  List.map (fun r => if has_id sid r then with_hash (hashToken (compact refresh)) r else r)
           (userSession (prisma w) ++ [placeholder]).
Let gone :=
  drop 5 (merge_sort newer_or_same
            (List.filter (fun s => bool_decide (UserSession.userId s = userId)) rows)).

(** What a call of [createSession] that runs to its end returns and leaves
    behind. *)
Lemma createSession_run :
  createSession config userId deviceType ipAddress now w =
  (inr (AuthTokens.Mk access refresh 900),
   MkWorld
     (MkPrisma (replace_user (with_lastActiveAt now u) (user (prisma w)))
               (List.filter
                  (fun s => negb (bool_decide
                                    (UserSession.id s ∈ List.map UserSession.id gone)))
                  rows)
               (N.succ (seq (prisma w))))
     (foldl (fun r s => delete (session_key (UserSession.id s)) r)
            (<[session_key sid :=
                 MkEntry (RString userId) (Some (now + refreshMs / 1000 * 1000))]> (redis w))
            gone)).
Proof.
  unfold createSession.
  rewrite Hrefresh, (bind_inr _ _ _ _ _ (or_throw_some _ _ _)).
  rewrite (bind_inr _ _ _ _ _ (userSession_create_run _ _ _ _ _ _ _)).
  unfold generateAccessToken, generateRefreshToken, jwt_sign.
  rewrite Haccess, Hrefresh.
  rewrite (bind_inr _ _ _ _ _ (or_throw_some _ _ _)).
  rewrite (bind_inr _ _ _ _ _ (or_throw_some _ _ _)).
  cbn [UserSession.id].
  fold sid. fold placeholder. fold refresh. fold access.
  destruct (find_has_id_app_new sid (userSession (prisma w)) placeholder eq_refl)
    as [found Hfound].
  rewrite (bind_inr _ _ _ _ _ (userSession_update_run _ _ _ _ _ _ _ Hfound)).
  cbn [prisma redis user userSession seq]. fold rows.
  assert (Httl : 0 < refreshMs / 1000) by (apply Z.div_str_pos; lia).
  rewrite (bind_inr _ _ _ _ _ (redis_set_run _ _ _ _ _ Httl)).
  cbn [prisma redis].
  rewrite (bind_inr _ _ _ _ _
             (user_update_run userId (with_lastActiveAt now) _ _ _ _ _ Huser
                (update_keeps_unique_columns _ _ _ eq_refl eq_refl eq_refl eq_refl))).
  rewrite (bind_inr _ _ _ _ _ (userSession_findMany_desc_run _ _)).
  cbn [prisma redis user userSession seq].
  set (active := merge_sort newer_or_same _).
  destruct (5 <? List.length active)%nat eqn:Hmany.
  - unfold bind at 1.
    rewrite (bind_inr _ _ _ _ _ (userSession_deleteMany_run _ _)).
    rewrite for_each_del_run. reflexivity.
  - apply Nat.ltb_ge in Hmany.
    assert (Hnone : gone = []) by (apply drop_ge; exact Hmany).
    rewrite Hnone, filter_none_excluded. reflexivity.
Qed.
End CreateSession.

(** ** Identifiers and keys *)

Lemma cuid_inj a b : cuid a = cuid b -> a = b.
Proof.
  unfold cuid. intros H. apply (inj (String.append "c")) in H.
  assert (Hnil : forall n, N.to_uint n <> Decimal.Nil).
  { intros [|p]; [discriminate|apply DecimalPos.Unsigned.to_uint_nonnil]. }
  apply (f_equal NilZero.uint_of_string) in H.
  rewrite !NilZero.usu in H by apply Hnil.
  injection H as H. now apply DecimalN.Unsigned.to_uint_inj.
Qed.

Lemma drawn_not_next p id : drawn p id -> id <> cuid (seq p).
Proof. intros (k & Hk & ->) H. apply cuid_inj in H. lia. Qed.

(** The update that follows a creation reaches the new row only. *)
Lemma update_new_row_only p (f : UserSession.t -> UserSession.t) s0 :
  Forall (fun s => drawn p (UserSession.id s)) (userSession p) ->
  UserSession.id s0 = cuid (seq p) ->
  List.map (fun r => if has_id (cuid (seq p)) r then f r else r) (userSession p ++ [s0])%list
  = (userSession p ++ [f s0])%list.
Proof.
  intros Hdrawn Hid. rewrite List.map_app. f_equal.
  - rewrite <- (List.map_id (userSession p)) at 2.
    apply List.map_ext_in. intros r Hr.
    rewrite Forall_forall in Hdrawn.
    apply list_elem_of_In, Hdrawn, drawn_not_next in Hr.
    unfold has_id. now rewrite bool_decide_eq_false_2.
  - simpl. unfold has_id. now rewrite bool_decide_eq_true_2.
Qed.

(** ** The validity check *)

Section Validity.
Variables (config : Env) (token : Token) (now : Z) (w : World) (payload : JwtPayload.t).
Hypothesis Hverified : verifyAccessToken config token now = Some payload.

Let sessionKey := session_key (JwtPayload.sessionId payload).
Let granted :=
  Authenticated (AuthenticatedUser.Mk (JwtPayload.userId payload)
                                      (JwtPayload.sessionId payload)).

(** A live cache entry is enough; the durable store is not consulted and
    nothing is written. *)
Lemma authenticate_cache_hit e :
  live (redis w) sessionKey now = Some e ->
  authenticate config (Some (Bearer token)) now w = (granted, w).
Proof.
  intros Hlive. unfold authenticate, authenticate_body.
  rewrite Hverified, (bind_inr _ _ _ _ _ (or_throw_some _ _ _)).
  unfold redis_exists, bind, the_redis, ret. fold sessionKey. now rewrite Hlive.
Qed.

(** On a miss the durable row decides. *)
Lemma authenticate_cache_miss :
  live (redis w) sessionKey now = None ->
  authenticate config (Some (Bearer token)) now w =
  match List.find (has_id (JwtPayload.sessionId payload)) (userSession (prisma w)) with
  | Some session =>
      if UserSession.expiresAt session <? now
      then (Unauthorized "Session expired", w)
      else
        let ttl := (UserSession.expiresAt session - now) / 1000 in
        (granted,
         if 0 <? ttl
         then MkWorld (prisma w)
                (<[sessionKey := MkEntry (RString (UserSession.userId session))
                                         (Some (now + ttl * 1000))]> (redis w))
         else w)
  | None => (Unauthorized "Session expired", w)
  end.
Proof.
  intros Hlive. unfold authenticate, authenticate_body.
  rewrite Hverified, (bind_inr _ _ _ _ _ (or_throw_some _ _ _)).
  unfold redis_exists, userSession_findUnique, bind, the_redis, the_prisma, ret.
  fold sessionKey. rewrite Hlive. cbn [negb].
  destruct (List.find _ _) as [session|]; [|reflexivity].
  destruct (UserSession.expiresAt session <? now); [reflexivity|].
  destruct (Z.ltb_spec 0 ((UserSession.expiresAt session - now) / 1000)) as [Hpos|Hle].
  - now rewrite (redis_set_run _ _ _ _ _ Hpos).
  - reflexivity.
Qed.
End Validity.

Lemma isValid_unverified config token now w :
  verifyAccessToken config token now = None -> isValid config token now w = false.
Proof.
  intros H. unfold isValid, authenticate, authenticate_body.
  rewrite H. reflexivity.
Qed.

Lemma logout_run sessionId w :
  logout sessionId w =
  (inr tt,
   MkWorld (MkPrisma (user (prisma w))
              (List.filter (fun s => negb (has_id sessionId s)) (userSession (prisma w)))
              (seq (prisma w)))
           (delete (session_key sessionId) (redis w))).
Proof.
  unfold logout, swallow, userSession_delete, bind, the_prisma, put_prisma, ret, throw,
    redis_del, the_redis, put_redis.
  destruct (List.find (has_id sessionId) (userSession (prisma w))) eqn:E; cbn.
  - reflexivity.
  - rewrite filter_all_in; [now destruct w as [[? ? ?] ?]|].
    intros s Hs. now rewrite (find_none _ _ E s Hs).
Qed.

(** ** Newest-first order and eviction *)

#[global] Instance newer_or_same_trans : Transitive newer_or_same.
Proof. unfold newer_or_same. intros a b c ? ?. lia. Qed.

#[global] Instance newer_or_same_total : Total newer_or_same.
Proof. unfold newer_or_same. intros a b. lia. Qed.

Lemma filter_perm {A} (f : A -> bool) (l l' : list A) :
  l ≡ₚ l' -> List.filter f l ≡ₚ List.filter f l'.
Proof.
  induction 1 as [|x l l' _ IH|x y l|l l' l'' _ IH1 _ IH2]; simpl.
  - reflexivity.
  - destruct (f x); [now constructor|exact IH].
  - destruct (f x), (f y); try reflexivity. constructor.
  - now transitivity (List.filter f l').
Qed.

Lemma sessions_of_app userId (a b : list UserSession.t) :
  sessions_of userId (a ++ b) = (sessions_of userId a ++ sessions_of userId b)%list.
Proof. apply List.filter_app. Qed.

(** A row created at [now] is within the first five of the newest-first
    listing unless five other rows of the account are at least as recent. *)
Lemma newest_not_evicted userId now (old : list UserSession.t) s :
  UserSession.userId s = userId ->
  UserSession.createdAt s = now ->
  (not_older userId now old < 5)%nat ->
  s ∉ drop 5 (merge_sort newer_or_same (sessions_of userId (old ++ [s]))).
Proof.
  intros Huser Hcreated Hfew Hin.
  set (mine := sessions_of userId (old ++ [s])) in *.
  set (sorted := merge_sort newer_or_same mine) in *.
  set (recent := fun r => now <=? UserSession.createdAt r).
  assert (Hsorted : StronglySorted newer_or_same (take 5 sorted ++ drop 5 sorted)).
  { rewrite take_drop. apply StronglySorted_merge_sort; apply _. }
  assert (Hfirst : List.filter recent (take 5 sorted) = take 5 sorted).
  { apply filter_all_in. intros r Hr. apply list_elem_of_In in Hr.
    pose proof (StronglySorted_app_1_elem_of _ _ _ _ _ Hsorted Hr Hin) as Hle.
    unfold newer_or_same in Hle. unfold recent. apply Z.leb_le. lia. }
  assert (Hfull : (5 <= List.length (take 5 sorted))%nat).
  { rewrite length_take. apply list_elem_of_In in Hin.
    assert (List.length (drop 5 sorted) <> 0%nat) by (destruct (drop 5 sorted); [easy|discriminate]).
    rewrite length_drop in H. lia. }
  assert (Hrest : (1 <= List.length (List.filter recent (drop 5 sorted)))%nat).
  { assert (In s (List.filter recent (drop 5 sorted))).
    { apply List.filter_In. split; [now apply list_elem_of_In|].
      unfold recent. apply Z.leb_le. lia. }
    destruct (List.filter recent (drop 5 sorted)); [easy|simpl; lia]. }
  assert (Hcount : List.length (List.filter recent sorted)
                   = S (not_older userId now old)).
  { transitivity (List.length (List.filter recent mine)).
    { apply Permutation_length, filter_perm, merge_sort_Permutation. }
    unfold mine. rewrite sessions_of_app, List.filter_app, List.length_app.
    unfold not_older. fold recent.
    unfold sessions_of at 2. simpl. rewrite bool_decide_eq_true_2 by exact Huser.
    simpl. unfold recent at 2. rewrite Hcreated, Z.leb_refl. simpl. lia. }
  rewrite <- (take_drop 5 sorted), List.filter_app, List.length_app, Hfirst in Hcount.
  lia.
Qed.


Lemma drawn_rows_lack_next p :
  Forall (fun s => drawn p (UserSession.id s)) (userSession p) ->
  forall r, In r (userSession p) -> has_id (cuid (seq p)) r = false.
Proof.
  intros Hdrawn r Hr. rewrite Forall_forall in Hdrawn.
  apply list_elem_of_In, Hdrawn, drawn_not_next in Hr.
  unfold has_id. now rewrite bool_decide_eq_false_2.
Qed.

(** The id of the row just created is not among the ids evicted, provided
    the row itself is not evicted. *)
Lemma new_id_not_evicted p (s : UserSession.t) (gone : list UserSession.t) :
  Forall (fun r => drawn p (UserSession.id r)) (userSession p) ->
  UserSession.id s = cuid (seq p) ->
  (forall g, g ∈ gone -> g ∈ (userSession p ++ [s])%list) ->
  s ∉ gone ->
  UserSession.id s ∉ List.map UserSession.id gone.
Proof.
  intros Hdrawn Hid Hsub Hnot Hin.
  apply list_elem_of_In, List.in_map_iff in Hin as (g & Hg & Hgin).
  apply list_elem_of_In in Hgin. pose proof (Hsub g Hgin) as Hrows.
  apply elem_of_app in Hrows as [Hold|Hnew].
  - apply list_elem_of_In in Hold. apply (drawn_rows_lack_next p Hdrawn) in Hold.
    unfold has_id in Hold. rewrite <- Hid, bool_decide_eq_true_2 in Hold; [discriminate|exact Hg].
  - apply list_elem_of_singleton in Hnew. subst g. contradiction.
Qed.

Lemma evicted_among_rows userId (rows : list UserSession.t) g :
  g ∈ drop 5 (merge_sort newer_or_same (sessions_of userId rows)) -> g ∈ rows.
Proof.
  intros Hg.
  assert (g ∈ merge_sort newer_or_same (sessions_of userId rows)) as Hs.
  { exact (subseteq_drop 5 _ g Hg). }
  rewrite merge_sort_Permutation in Hs.
  apply list_elem_of_In, List.filter_In in Hs as [Hs _]. now apply list_elem_of_In.
Qed.

(** [createSession] on a well-formed store, for an existing account. *)
Lemma createSession_ok config userId deviceType ip now w accessMs refreshMs u :
  parseDuration (JWT_ACCESS_EXPIRATION config) = Some accessMs ->
  parseDuration (JWT_REFRESH_EXPIRATION config) = Some refreshMs ->
  1000 <= refreshMs ->
  List.find (user_matches (ById userId)) (user (prisma w)) = Some u ->
  Forall (fun s => drawn (prisma w) (UserSession.id s)) (userSession (prisma w)) ->
  let sid := cuid (seq (prisma w)) in
  let rows := (userSession (prisma w)
                 ++ [new_session config userId deviceType ip now refreshMs (prisma w)])%list in
  createSession config userId deviceType ip now w =
  (inr (AuthTokens.Mk (issued (JWT_ACCESS_SECRET config) userId sid now accessMs)
                      (issued (JWT_REFRESH_SECRET config) userId sid now refreshMs) 900),
   MkWorld
     (MkPrisma (replace_user (with_lastActiveAt now u) (user (prisma w)))
        (List.filter
           (fun s => negb (bool_decide
                             (UserSession.id s ∈ List.map UserSession.id (evicted userId rows))))
           rows)
        (N.succ (seq (prisma w))))
     (foldl (fun r s => delete (session_key (UserSession.id s)) r)
        (<[session_key sid := MkEntry (RString userId) (Some (now + refreshMs / 1000 * 1000))]>
           (redis w))
        (evicted userId rows))).
Proof.
  intros Ha Hr Hlong Hu Hdrawn sid rows.
  rewrite (createSession_run config userId deviceType ip now w accessMs refreshMs u Ha Hr Hlong Hu).
  cbv zeta.
  rewrite (update_new_row_only (prisma w) _
             (UserSession.Mk (cuid (seq (prisma w))) userId "" (or_null deviceType) ip
                             (now + refreshMs) now) Hdrawn eq_refl).
  reflexivity.
Qed.

(** ** Validity after login and after logout *)





(** ** The session cap *)

Lemma NoDup_map_eq {A B} (f : A -> B) (l : list A) x y :
  NoDup (List.map f l) -> In x l -> In y l -> f x = f y -> x = y.
Proof.
  induction l as [|a l IH]; simpl; [easy|].
  intros Hnd Hx Hy Hf. apply NoDup_cons in Hnd as [Hnot Hnd].
  destruct Hx as [->|Hx], Hy as [->|Hy]; auto.
  - exfalso. apply Hnot. rewrite Hf. apply list_elem_of_In, List.in_map, Hy.
  - exfalso. apply Hnot. rewrite <- Hf. apply list_elem_of_In, List.in_map, Hx.
Qed.

Lemma filter_comm {A} (f g : A -> bool) (l : list A) :
  List.filter f (List.filter g l) = List.filter g (List.filter f l).
Proof.
  induction l as [|a l IH]; simpl; [reflexivity|].
  destruct (f a) eqn:Ef, (g a) eqn:Eg; simpl; rewrite ?Ef, ?Eg, IH; reflexivity.
Qed.

Lemma filter_nothing_in {A} (P : A -> bool) (l : list A) :
  (forall x, In x l -> P x = false) -> List.filter P l = [].
Proof.
  intros H. induction l as [|x l IH]; simpl; [reflexivity|].
  rewrite H by now left. apply IH. intros y Hy. apply H. now right.
Qed.

Lemma deleted_keys_stay_deleted (l : list UserSession.t) (m : Redis) k :
  m !! k = None ->
  foldl (fun r s => delete (session_key (UserSession.id s)) r) m l !! k = None.
Proof.
  revert m. induction l as [|s l IH]; intros m Hm; simpl; [exact Hm|].
  apply IH. rewrite lookup_delete. by case_decide.
Qed.

Lemma evicted_keys_deleted (l : list UserSession.t) (m : Redis) e :
  e ∈ l ->
  foldl (fun r s => delete (session_key (UserSession.id s)) r) m l
    !! session_key (UserSession.id e) = None.
Proof.
  revert m. induction l as [|s l IH]; intros m He; [by apply elem_of_nil in He|].
  simpl. apply elem_of_cons in He as [->|He].
  - apply deleted_keys_stay_deleted, lookup_delete_eq.
  - now apply IH.
Qed.

Section Eviction.
Variables (userId : string) (rows : list UserSession.t).
Hypothesis Hkey : NoDup (List.map UserSession.id rows).

Let stays (s : UserSession.t) : bool :=
  negb (bool_decide (UserSession.id s ∈ List.map UserSession.id (evicted userId rows))).
Let sorted := merge_sort newer_or_same (sessions_of userId rows).

Lemma sorted_among_rows r : r ∈ sorted -> r ∈ rows /\ UserSession.userId r = userId.
Proof.
  unfold sorted. rewrite merge_sort_Permutation. intros Hr.
  apply list_elem_of_In, List.filter_In in Hr as [Hr Hu].
  split; [now apply list_elem_of_In|]. now apply bool_decide_eq_true_1 in Hu.
Qed.

Lemma sorted_NoDup : NoDup sorted.
Proof.
  unfold sorted. rewrite merge_sort_Permutation. unfold sessions_of.
  apply NoDup_ListNoDup, List.NoDup_filter.
  apply NoDup_ListNoDup in Hkey. now apply NoDup_map_inv in Hkey.
Qed.

Lemma stays_iff r : r ∈ rows -> stays r = true <-> r ∉ evicted userId rows.
Proof.
  intros Hr. unfold stays. rewrite negb_true_iff, bool_decide_eq_false. split.
  - intros Hnot He. apply Hnot, list_elem_of_In, List.in_map, list_elem_of_In, He.
  - intros Hnot Hid. apply Hnot.
    apply list_elem_of_In, List.in_map_iff in Hid as (g & Hg & Hgin).
    apply list_elem_of_In in Hgin.
    assert (g = r) as ->; [|exact Hgin].
    apply (NoDup_map_eq UserSession.id rows); auto.
    + apply list_elem_of_In. apply sorted_among_rows. exact (subseteq_drop 5 _ g Hgin).
    + now apply list_elem_of_In.
Qed.

Lemma retained_stay r : r ∈ retained userId rows -> stays r = true.
Proof.
  intros Hr. apply stays_iff.
  - apply sorted_among_rows. exact (subseteq_take 5 _ r Hr).
  - intros He. pose proof sorted_NoDup as Hnd.
    rewrite <- (take_drop 5 sorted) in Hnd.
    apply NoDup_app in Hnd as (_ & Hdisj & _). exact (Hdisj r Hr He).
Qed.

Lemma evicted_go r : r ∈ evicted userId rows -> stays r = false.
Proof.
  intros Hr. unfold stays. rewrite negb_false_iff, bool_decide_eq_true.
  apply list_elem_of_In, List.in_map, list_elem_of_In, Hr.
Qed.

(** After the deletion the account is left with the first five rows of its
    newest-first listing. *)
Lemma after_eviction :
  sessions_of userId (List.filter stays rows) ≡ₚ retained userId rows.
Proof.
  unfold sessions_of. rewrite filter_comm. fold (sessions_of userId rows).
  rewrite (filter_perm stays _ sorted) by (symmetry; apply merge_sort_Permutation).
  rewrite <- (take_drop 5 sorted) at 1. rewrite List.filter_app.
  rewrite (filter_all_in stays (take 5 sorted)).
  - rewrite (filter_nothing_in stays (drop 5 sorted)).
    + now rewrite app_nil_r.
    + intros r Hr. apply evicted_go. now apply list_elem_of_In.
  - intros r Hr. apply retained_stay. now apply list_elem_of_In.
Qed.

Lemma other_accounts_untouched other :
  other <> userId ->
  sessions_of other (List.filter stays rows) = sessions_of other rows.
Proof.
  intros Hother. unfold sessions_of. rewrite filter_comm.
  apply filter_all_in. intros r Hr. apply List.filter_In in Hr as [Hr Hu].
  apply bool_decide_eq_true_1 in Hu.
  apply stays_iff; [now apply list_elem_of_In|].
  intros He. apply (subseteq_drop 5) in He. apply sorted_among_rows in He as [_ He].
  congruence.
Qed.

Lemma evicted_not_newer e r :
  e ∈ evicted userId rows -> r ∈ retained userId rows ->
  UserSession.createdAt e <= UserSession.createdAt r.
Proof.
  intros He Hr.
  assert (Hs : StronglySorted newer_or_same (take 5 sorted ++ drop 5 sorted)).
  { rewrite take_drop. apply StronglySorted_merge_sort; apply _. }
  exact (StronglySorted_app_1_elem_of _ _ _ _ _ Hs Hr He).
Qed.
End Eviction.

Lemma NoDup_map_filter {A B} (f : A -> B) (P : A -> bool) (l : list A) :
  NoDup (List.map f l) -> NoDup (List.map f (List.filter P l)).
Proof.
  induction l as [|a l IH]; simpl; [auto|].
  intros Hnd. apply NoDup_cons in Hnd as [Hnot Hnd].
  destruct (P a); simpl; [|auto].
  apply NoDup_cons. split; [|auto].
  intros Hin. apply Hnot.
  apply list_elem_of_In, List.in_map_iff in Hin as (x & Hx & Hin).
  apply List.filter_In in Hin as [Hin _].
  rewrite <- Hx. apply list_elem_of_In, List.in_map, Hin.
Qed.

Lemma rows_keyed p s :
  store_ok p -> UserSession.id s = cuid (seq p) ->
  NoDup (List.map UserSession.id (userSession p ++ [s])).
Proof.
  intros [Hnd Hdrawn] Hid. rewrite List.map_app. apply NoDup_app. split; [exact Hnd|].
  split; [|apply NoDup_singleton].
  intros id Hin Hnew. simpl in Hnew. apply list_elem_of_singleton in Hnew. subst id.
  apply list_elem_of_In, List.in_map_iff in Hin as (r & Hr & Hin).
  apply (drawn_rows_lack_next p Hdrawn) in Hin.
  unfold has_id in Hin. rewrite <- Hid, bool_decide_eq_true_2 in Hin; [discriminate|exact Hr].
Qed.

Lemma find_user_after_update v (f : User.t -> User.t) (users : list User.t) u :
  (forall x, User.id (f x) = User.id x) ->
  List.find (user_matches (ById v)) users = Some u ->
  List.find (user_matches (ById v)) (List.map f users) = Some (f u).
Proof.
  intros Hid. induction users as [|x users IH]; simpl; [discriminate|].
  rewrite Hid. destruct (bool_decide (User.id x = v)); [now intros [= ->]|exact IH].
Qed.

Lemma replace_user_keeps_id u' x :
  User.id (if bool_decide (User.id x = User.id u') then u' else x) = User.id x.
Proof. case_bool_decide; congruence. Qed.

Lemma account_exists_replace v u' users sessions counter cache :
  account_exists v (MkWorld (MkPrisma users sessions counter) cache) ->
  account_exists v (MkWorld (MkPrisma (replace_user u' users) sessions counter) cache).
Proof.
  intros [x Hx]. cbn [prisma user] in Hx.
  exists (if bool_decide (User.id x = User.id u') then u' else x).
  cbn [prisma user]. unfold replace_user.
  apply (find_user_after_update v
           (fun y => if bool_decide (User.id y = User.id u') then u' else y) _ x);
    [|exact Hx].
  intros y. apply replace_user_keeps_id.
Qed.

(** A completed call leaves the store well formed and deletes no account. *)
Lemma createSession_step_ok config userId deviceType ip now w :
  usable config -> store_ok (prisma w) -> account_exists userId w ->
  store_ok (prisma (snd (createSession config userId deviceType ip now w))) /\
  forall v, account_exists v w ->
            account_exists v (snd (createSession config userId deviceType ip now w)).
Proof.
  intros (accessMs & refreshMs & Ha & Hr & _ & Hlong) Hok [u Hu].
  rewrite (createSession_ok config userId deviceType ip now w accessMs refreshMs u
             Ha Hr Hlong Hu (proj2 Hok)).
  cbn [snd prisma user userSession seq]. split.
  - pose proof (rows_keyed (prisma w)
                  (new_session config userId deviceType ip now refreshMs (prisma w))
                  Hok eq_refl) as Hkey.
    split.
    + now apply NoDup_map_filter.
    + cbn [userSession seq]. apply Forall_forall. intros r Hr'.
      apply list_elem_of_In, List.filter_In in Hr' as [Hr' _].
      apply List.in_app_iff in Hr' as [Hold|[<-|[]]].
      * destruct Hok as [_ Hdrawn]. rewrite Forall_forall in Hdrawn.
        apply list_elem_of_In, Hdrawn in Hold as (k & Hk & ->).
        exists k. cbn [seq]. split; [lia|reflexivity].
      * exists (seq (prisma w)). cbn [seq]. split; [lia|reflexivity].
  - intros v [x Hx]. exists (if bool_decide (User.id x = User.id (with_lastActiveAt now u))
                             then with_lastActiveAt now u else x).
    cbn [prisma user]. unfold replace_user.
    apply (find_user_after_update v
             (fun y => if bool_decide (User.id y = User.id (with_lastActiveAt now u))
                       then with_lastActiveAt now u else y) _ x); [|exact Hx].
    intros y. apply replace_user_keeps_id.
Qed.

Lemma createSession_all_ok config calls w0 :
  usable config -> store_ok (prisma w0) ->
  Forall (fun c => account_exists (Login.userId c) w0) calls ->
  store_ok (prisma (createSession_all config calls w0)) /\
  forall v, account_exists v w0 -> account_exists v (createSession_all config calls w0).
Proof.
  intros Hconfig. revert w0.
  induction calls as [|c calls IH]; intros w0 Hok Hcalls; [now split|].
  apply Forall_cons in Hcalls as [Hc Hcalls].
  destruct (createSession_step_ok config (Login.userId c) (Login.deviceType c)
              (Login.ipAddress c) (Login.at_ c) w0 Hconfig Hok Hc) as [Hok' Hkeep].
  unfold createSession_all. cbn [foldl]. fold (createSession_all config calls).
  destruct (IH _ Hok') as [Hfinal Hexists].
  - eapply Forall_impl; [exact Hcalls|]. intros c' Hc'. now apply Hkeep.
  - split; [exact Hfinal|]. intros v Hv. apply Hexists, Hkeep, Hv.
Qed.

(** C4. On a well-formed store and with a usable configuration, after any
    sequence of [createSession] calls for existing accounts, one more call
    completes and leaves the account with at most five durable sessions:
    the first five of the newest-first listing of its sessions including the
    new one. Every session beyond those is gone from the durable store and
    from the cache, and none of them is newer than a retained one; the
    sessions of other accounts are untouched. *)
Theorem createSession_keeps_five_newest config w0 calls userId deviceType ip now :
  usable config -> store_ok (prisma w0) ->
  Forall (fun c => account_exists (Login.userId c) w0) calls ->
  account_exists userId w0 ->
  let w := createSession_all config calls w0 in
  exists tokens w' refreshMs,
    createSession config userId deviceType ip now w = (inr tokens, w') /\
    parseDuration (JWT_REFRESH_EXPIRATION config) = Some refreshMs /\
    let rows := (userSession (prisma w)
                   ++ [new_session config userId deviceType ip now refreshMs (prisma w)])%list in
    let kept := sessions_of userId (userSession (prisma w')) in
    (List.length kept <= 5)%nat /\
    kept ≡ₚ retained userId rows /\
    (forall e, e ∈ evicted userId rows ->
               (e ∉ userSession (prisma w')) /\
               redis w' !! session_key (UserSession.id e) = None /\
               forall r, r ∈ kept -> UserSession.createdAt e <= UserSession.createdAt r) /\
    (forall other, other <> userId ->
                   sessions_of other (userSession (prisma w'))
                   = sessions_of other (userSession (prisma w))).
Proof.
  intros Hconfig Hok0 Hcalls Hexists0 w.
  destruct (createSession_all_ok config calls w0 Hconfig Hok0 Hcalls) as [Hok Hkeep].
  fold w in Hok. destruct (Hkeep userId Hexists0) as [u Hu]. fold w in Hu.
  destruct Hconfig as (accessMs & refreshMs & Ha & Hr & _ & Hlong).
  eexists _, _, refreshMs. split; [|split; [exact Hr|]].
  { apply (createSession_ok config userId deviceType ip now w accessMs refreshMs u
             Ha Hr Hlong Hu (proj2 Hok)). }
  cbn [prisma redis userSession].
  set (s := new_session config userId deviceType ip now refreshMs (prisma w)).
  set (rows := (userSession (prisma w) ++ [s])%list).
  pose proof (rows_keyed (prisma w) s Hok eq_refl) as Hkey. fold rows in Hkey.
  pose proof (after_eviction userId rows Hkey) as Hkept.
  split; [|split; [exact Hkept|split]].
  - rewrite Hkept. unfold retained. rewrite length_take. lia.
  - intros e He. split; [|split].
    + intros Hin. apply list_elem_of_In, List.filter_In in Hin as [_ Hstays].
      now rewrite (evicted_go userId rows e He) in Hstays.
    + now apply evicted_keys_deleted.
    + intros r Hr'. rewrite Hkept in Hr'. now apply (evicted_not_newer userId rows).
  - intros other Hother.
    rewrite (other_accounts_untouched userId rows Hkey other Hother).
    unfold rows. rewrite sessions_of_app.
    assert (sessions_of other [s] = []) as ->; [|now rewrite app_nil_r].
    unfold sessions_of. simpl. rewrite bool_decide_eq_false_2; [reflexivity|congruence].
Qed.

Lemma sample_config_usable : usable sample_config.
Proof. exists 900000, 2592000000. repeat split; try reflexivity; lia. Qed.

Lemma createSession_keeps_five_newest_witness :
  exists tokens w',
    createSession sample_config "c0" None "10.0.0.1" 3000
      (createSession_all sample_config five_logins one_user_world) = (inr tokens, w') /\
    (List.length (sessions_of "c0" (userSession (prisma w'))) <= 5)%nat.
Proof.
  destruct (createSession_keeps_five_newest sample_config one_user_world five_logins
              "c0" None "10.0.0.1" 3000)
    as (tokens & w' & refreshMs & Hrun & _ & Hcap & _).
  - exact sample_config_usable.
  - split; constructor.
  - repeat constructor; exists sample_user; reflexivity.
  - exists sample_user. reflexivity.
  - exists tokens, w'. split; [exact Hrun|exact Hcap].
Defined.

(** ** Frame: what [createSession] leaves alone in the cache *)

Lemma other_keys_survive_deletion (l : list UserSession.t) (m : Redis) k :
  (forall sid, k <> session_key sid) ->
  foldl (fun r s => delete (session_key (UserSession.id s)) r) m l !! k = m !! k.
Proof.
  intros Hk. revert m. induction l as [|s l IH]; intros m; simpl; [reflexivity|].
  rewrite IH. apply lookup_delete_ne. intros H. now apply (Hk (UserSession.id s)).
Qed.

Lemma createSession_completes config userId deviceType ip now w :
  usable config -> account_exists userId w ->
  exists tokens w',
    createSession config userId deviceType ip now w = (inr tokens, w') /\
    forall k, (forall sid, k <> session_key sid) -> redis w' !! k = redis w !! k.
Proof.
  intros (accessMs & refreshMs & Ha & Hr & _ & Hlong) [u Hu].
  eexists _, _. split.
  { apply (createSession_run config userId deviceType ip now w accessMs refreshMs u);
      assumption. }
  intros k Hk. cbn [redis].
  rewrite other_keys_survive_deletion by exact Hk.
  apply lookup_insert_ne. intros H. now apply (Hk (cuid (seq (prisma w)))).
Qed.

Lemma verification_key_not_session_key phone sid :
  verification_key phone <> session_key sid.
Proof. unfold verification_key, session_key. simpl. discriminate. Qed.

Lemma find_exists {A} (P : A -> bool) (l : list A) x :
  In x l -> P x = true -> exists y, List.find P l = Some y.
Proof.
  intros Hin HP. destruct (List.find P l) eqn:E; [eauto|].
  rewrite (find_none _ _ E x Hin) in HP. discriminate.
Qed.

Lemma find_none_existsb {A} (P : A -> bool) (l : list A) :
  List.find P l = None -> existsb P l = false.
Proof.
  induction l as [|x l IH]; simpl; [reflexivity|].
  destruct (P x); [discriminate|exact IH].
Qed.

Lemma user_findUnique_run q w :
  user_findUnique q w = (inr (List.find (user_matches q) (user (prisma w))), w).
Proof. reflexivity. Qed.

Lemma user_create_run phone email googleId appleId displayName avatarUrl badges now w :
  let u := User.Mk (cuid (seq (prisma w))) phone email googleId appleId displayName None
                   avatarUrl badges now in
  violates_unique u (user (prisma w)) = false ->
  user_create phone email googleId appleId displayName avatarUrl badges now w =
  (inr u, MkWorld (MkPrisma (user (prisma w) ++ [u]) (userSession (prisma w))
                            (N.succ (seq (prisma w))))
                  (redis w)).
Proof.
  intros u Hu. unfold user_create, bind, the_prisma, put_prisma, ret.
  fold u. now rewrite Hu.
Qed.

Lemma account_exists_intro (u : User.t) w :
  In u (user (prisma w)) -> account_exists (User.id u) w.
Proof.
  intros Hin. apply (find_exists _ _ u Hin).
  unfold user_matches. now rewrite bool_decide_eq_true_2.
Qed.

(** ** Verifying a code *)

Lemma redis_get_run key now w :
  redis_get key now w =
  (match live (redis w) key now with
   | Some (MkEntry (RString s) _) => inr (Some s)
   | Some (MkEntry (RZSet _) _) =>
       inl (RedisError "WRONGTYPE Operation against a key holding the wrong kind of value")
   | None => inr None
   end, w).
Proof.
  unfold redis_get, bind, the_redis, ret, throw.
  now destruct (live (redis w) key now) as [[[s|ms] ttl]|].
Qed.

Lemma live_absent (r : Redis) key now : r !! key = None -> live r key now = None.
Proof. intros H. unfold live. now rewrite H. Qed.

Lemma verifyPhoneCode_without_challenge config phone code deviceType ip now w :
  live (redis w) (verification_key phone) now = None ->
  verifyPhoneCode config phone code deviceType ip now w =
  (inl (HttpError 400 "Verification code expired or not found"), w).
Proof.
  intros H. unfold verifyPhoneCode.
  erewrite bind_inr; [|rewrite redis_get_run, H; reflexivity]. reflexivity.
Qed.

Lemma verifyPhoneCode_wrong_code config phone code deviceType ip now w stored ttl :
  live (redis w) (verification_key phone) now = Some (MkEntry (RString stored) ttl) ->
  stored <> code ->
  exists e, verifyPhoneCode config phone code deviceType ip now w = (inl e, w)
            /\ InvalidCredential e.
Proof.
  intros H Hne. unfold verifyPhoneCode.
  erewrite bind_inr; [|rewrite redis_get_run, H; reflexivity].
  destruct (truthy (Some stored)); cbn [negb].
  - rewrite bool_decide_eq_false_2 by congruence. cbn [negb].
    eexists. split; [reflexivity|]. now eexists.
  - eexists. split; [reflexivity|]. now eexists.
Qed.

(** C5. With a usable configuration: when the phone's live challenge holds
    the presented (non-empty) code, [verifyPhoneCode] returns a response and
    leaves no challenge for that phone, so that presenting the same code
    again, at any time, throws a status-400 error; and it throws a status-400
    error, changing nothing, when the phone has no live challenge or when the
    stored code differs from the presented one. *)
Theorem verifyPhoneCode_single_use config :
  usable config ->
  (forall w phone code deviceType ip now ttl,
      code <> "" ->
      live (redis w) (verification_key phone) now = Some (MkEntry (RString code) ttl) ->
      exists response w',
        verifyPhoneCode config phone code deviceType ip now w = (inr response, w') /\
        redis w' !! verification_key phone = None /\
        forall deviceType' ip' now',
        exists e, verifyPhoneCode config phone code deviceType' ip' now' w' = (inl e, w')
                  /\ InvalidCredential e)
  /\ (forall w phone code deviceType ip now,
        live (redis w) (verification_key phone) now = None ->
        exists e, verifyPhoneCode config phone code deviceType ip now w = (inl e, w)
                  /\ InvalidCredential e)
  /\ (forall w phone code deviceType ip now stored ttl,
        live (redis w) (verification_key phone) now = Some (MkEntry (RString stored) ttl) ->
        stored <> code ->
        exists e, verifyPhoneCode config phone code deviceType ip now w = (inl e, w)
                  /\ InvalidCredential e).
Proof.
  intros Hconfig. split; [|split].
  - intros [[users sessions counter] cache] phone code deviceType ip now ttl Hcode Hlive.
    cbn [redis] in Hlive.
    assert (Hend : forall user isNew w1,
               account_exists (User.id user) w1 ->
               redis w1 !! verification_key phone = None ->
               exists response w',
                 (let* tokens := createSession config (User.id user) deviceType ip now in
                  ret (AuthResponse.Mk (summary user isNew) tokens)) w1 = (inr response, w') /\
                 redis w' !! verification_key phone = None /\
                 forall deviceType' ip' now',
                 exists e, verifyPhoneCode config phone code deviceType' ip' now' w' = (inl e, w')
                           /\ InvalidCredential e).
    { intros user isNew w1 Hexists Hgone.
      destruct (createSession_completes config (User.id user) deviceType ip now w1
                  Hconfig Hexists) as (tokens & w' & Hrun & Hframe).
      rewrite (bind_inr _ _ _ _ _ Hrun). eexists _, _. split; [reflexivity|].
      assert (Hgone' : redis w' !! verification_key phone = None).
      { rewrite Hframe; [exact Hgone|]. intros sid. apply verification_key_not_session_key. }
      split; [exact Hgone'|].
      intros deviceType' ip' now'. eexists. split.
      - apply verifyPhoneCode_without_challenge, live_absent, Hgone'.
      - now eexists. }
    unfold verifyPhoneCode.
    erewrite bind_inr; [|rewrite redis_get_run; cbn [redis]; rewrite Hlive; reflexivity].
    assert (truthy (Some code) = true) as -> by (destruct code; [contradiction|reflexivity]).
    rewrite bool_decide_eq_true_2 by reflexivity. cbn [negb].
    rewrite (bind_inr _ _ _ _ _ (redis_del_run _ _)).
    rewrite (bind_inr _ _ _ _ _ (user_findUnique_run _ _)).
    cbn [prisma redis user].
    destruct (List.find (user_matches (ByPhone phone)) users) as [u|] eqn:Hfind.
    + apply List.find_some in Hfind as [Hin _].
      destruct (includes "PHONE" (User.verifiedBadges u)); cbn [negb].
      * rewrite (bind_inr _ _ _ u _ eq_refl).
        apply Hend; [now apply account_exists_intro|apply lookup_delete_eq].
      * destruct (find_exists (user_matches (ById (User.id u))) users u Hin) as [u0 Hu0].
        { unfold user_matches. now rewrite bool_decide_eq_true_2. }
        rewrite (bind_inr _ _ _ _ _
                   (user_update_run (User.id u)
                      (fun r => with_badges (User.verifiedBadges r ++ ["PHONE"]) r)
                      _ _ _ _ u0 Hu0
                      (update_keeps_unique_columns _ _ _ eq_refl eq_refl eq_refl eq_refl))).
        apply Hend; [|apply lookup_delete_eq].
        apply account_exists_replace. cbn [User.id with_badges].
        exists u0. cbn [prisma user].
        pose proof (List.find_some _ _ Hu0) as [_ Hid0].
        unfold user_matches in Hid0. apply bool_decide_eq_true_1 in Hid0.
        now rewrite Hid0.
    + assert (Hfree : violates_unique
                        (User.Mk (cuid counter) (Some phone) None None None None None None
                                 ["PHONE"] now) users = false).
      { unfold violates_unique. cbn [User.phone User.email User.googleId User.appleId fmap
                                     option_fmap option_map taken].
        now rewrite (find_none_existsb _ _ Hfind). }
      rewrite (bind_inr _ _ _ _ _
                 (user_create_run (Some phone) None None None None None ["PHONE"] now
                    (MkWorld (MkPrisma users sessions counter) (delete (verification_key phone) cache))
                    Hfree)).
      apply Hend; [|apply lookup_delete_eq].
      apply (account_exists_intro
               (User.Mk (cuid counter) (Some phone) None None None None None None ["PHONE"] now)).
      cbn [prisma user]. apply List.in_app_iff. right. now left.
  - intros w phone code deviceType ip now Hlive. eexists. split.
    + now apply verifyPhoneCode_without_challenge.
    + now eexists.
  - intros w phone code deviceType ip now stored ttl.
    apply verifyPhoneCode_wrong_code.
Qed.

Lemma verifyPhoneCode_single_use_witness :
  exists response w',
    verifyPhoneCode sample_config "+14155551234" "100005" None "10.0.0.1" 2000 challenge_world
    = (inr response, w') /\
    redis w' !! verification_key "+14155551234" = None.
Proof.
  destruct (verifyPhoneCode_single_use sample_config sample_config_usable) as (Hok & _).
  destruct (Hok challenge_world "+14155551234" "100005" None "10.0.0.1" 2000 (Some 301000))
    as (response & w' & Hrun & Hgone & _).
  - discriminate.
  - vm_compute. reflexivity.
  - exists response, w'. split; [exact Hrun|exact Hgone].
Defined.

(** ** Rotation: the reuse branch *)

Lemma sessions_of_none_left userId (rows : list UserSession.t) :
  sessions_of userId
    (List.filter (fun s => negb (bool_decide (UserSession.userId s = userId))) rows) = [].
Proof.
  unfold sessions_of. apply filter_nothing_in. intros s Hs.
  apply List.filter_In in Hs as [_ Hs]. now apply negb_true_iff in Hs.
Qed.

(** When no row matches the token's session id, digest and expiry, the
    account's durable sessions are deleted, the subsequent lookup of the
    account's sessions finds none, and the cache is left exactly as it was. *)
Lemma refreshTokens_reuse_branch config token ip now w payload :
  verifyRefreshToken config token now = Some payload ->
  List.find (fun s => bool_decide (UserSession.id s = JwtPayload.sessionId payload)
                      && bool_decide (UserSession.refreshTokenHash s = hashToken (compact token))
                      && (now <? UserSession.expiresAt s))
            (userSession (prisma w)) = None ->
  refreshTokens config token ip now w =
  (inl SessionCompromised,
   MkWorld (MkPrisma (user (prisma w))
              (List.filter
                 (fun s => negb (bool_decide (UserSession.userId s = JwtPayload.userId payload)))
                 (userSession (prisma w)))
              (seq (prisma w)))
           (redis w)).
Proof.
  intros Hverified Hnone. unfold refreshTokens. rewrite Hverified.
  rewrite (bind_inr _ _ _ _ _ (userSession_findFirst_run _ _)).
  rewrite Hnone.
  rewrite (bind_inr _ _ _ _ _ (userSession_deleteMany_run _ _)).
  unfold invalidateUserSessions.
  unfold bind at 1.
  rewrite (bind_inr _ _ _ _ _ (userSession_findMany_run _ _)).
  cbn [prisma userSession].
  fold (sessions_of (JwtPayload.userId payload)
          (List.filter
             (fun s => negb (bool_decide (UserSession.userId s = JwtPayload.userId payload)))
             (userSession (prisma w)))).
  rewrite sessions_of_none_left. reflexivity.
Qed.

(** C10. [hashToken] always returns 64 lowercase hexadecimal characters, so
    never the empty placeholder; hence a verified refresh token whose session
    rows all still hold the placeholder takes the reuse branch: the call
    throws the "all sessions invalidated" error and the account is left with
    no durable session. *)
Theorem placeholder_hash_never_matches config :
  (forall token,
      String.length (hashToken token) = 64%nat /\
      all_chars is_hex (hashToken token) = true /\
      hashToken token <> "")
  /\ (forall w token ip now payload,
        verifyRefreshToken config token now = Some payload ->
        (forall s, In s (userSession (prisma w)) ->
                   UserSession.id s = JwtPayload.sessionId payload ->
                   UserSession.refreshTokenHash s = "") ->
        exists w',
          refreshTokens config token ip now w = (inl SessionCompromised, w') /\
          sessions_of (JwtPayload.userId payload) (userSession (prisma w')) = []).
Proof.
  split.
  - intros token. split; [apply hashToken_length|].
    split; [apply hashToken_is_hex|apply hashToken_not_placeholder].
  - intros w token ip now payload Hverified Hplaceholder.
    eexists. split.
    + apply (refreshTokens_reuse_branch config token ip now w payload Hverified).
      destruct (List.find _ _) as [s|] eqn:Hfound; [|reflexivity].
      apply List.find_some in Hfound as [Hin Hmatch].
      apply andb_true_iff in Hmatch as [Hmatch _].
      apply andb_true_iff in Hmatch as [Hid Hhash].
      apply bool_decide_eq_true_1 in Hid. apply bool_decide_eq_true_1 in Hhash.
      rewrite (Hplaceholder s Hin Hid) in Hhash.
      symmetry in Hhash. now apply hashToken_not_placeholder in Hhash.
    + cbn [prisma userSession]. apply sessions_of_none_left.
Qed.

Lemma placeholder_hash_never_matches_witness :
  exists w',
    refreshTokens sample_config
      (issued (JWT_REFRESH_SECRET sample_config) "c0" "c1" 1000 2592000000)
      "10.0.0.1" 1000 placeholder_world
    = (inl SessionCompromised, w') /\
    sessions_of "c0" (userSession (prisma w')) = [].
Proof.
  destruct (placeholder_hash_never_matches sample_config) as [_ Hreuse].
  apply (Hreuse placeholder_world _ "10.0.0.1" 1000
           (JwtPayload.Mk "c0" "c1" 1 2592001)).
  - reflexivity.
  - intros s [<-|[]] _. reflexivity.
Defined.

(** C1 (the code departs from it). One account logs in twice (sessions on two
    devices), the first session rotates its refresh token, and the rotated-away
    token is then presented again. The call throws the "all sessions
    invalidated" error and the durable sessions are gone, but the cache is
    left untouched ([invalidateUserSessions] lists the account's sessions
    after they have been deleted), so the access tokens of both sessions
    still pass the validity check. *)
Theorem reuse_detection_leaves_cache_entries :
  exists first w1 second w2 rotated w3 w4,
    authenticateWithGoogle sample_config (IdJwt google_claims) None "10.0.0.1" 1000 empty_world
      = (inr first, w1) /\
    authenticateWithGoogle sample_config (IdJwt google_claims) None "10.0.0.2" 1200 w1
      = (inr second, w2) /\
    refreshTokens sample_config (refresh_of first) "10.0.0.1" 2500 w2 = (inr rotated, w3) /\
    refreshTokens sample_config (refresh_of first) "10.0.0.9" 3500 w3
      = (inl SessionCompromised, w4) /\
    userSession (prisma w4) = [] /\
    redis w4 = redis w3 /\
    isValid sample_config (AuthTokens.accessToken rotated) 3500 w4 = true /\
    isValid sample_config (access_of second) 3500 w4 = true.
Proof.
  eexists _, _, _, _, _, _, _.
  split; [vm_compute; reflexivity|].
  split; [vm_compute; reflexivity|].
  split; [vm_compute; reflexivity|].
  split; [vm_compute; reflexivity|].
  repeat split; vm_compute; reflexivity.
Qed.

(** ** Federated logins sharing an email *)

(** C2 (the code departs from it). Google first, then Apple with the same
    email: the Apple login looks the account up by Apple subject only, then
    tries to create a second account with the same email, which the store
    refuses (P2002); nothing is linked and no result is returned. In the
    other order the Google login does link (same account, Google subject and
    badge added), yet its result says [isNewUser] true, the flag having been
    computed from the lookup by Google subject before the link was made. *)
Theorem apple_login_does_not_link_by_email :
  (exists first w1 w2,
      authenticateWithGoogle sample_config (IdJwt google_claims) None "10.0.0.1" 1000 empty_world
        = (inr first, w1) /\
      AuthUser.isNewUser (AuthResponse.user first) = true /\
      authenticateWithApple sample_config (IdJwt apple_claims) None None "10.0.0.1" 2000 w1
        = (inl (PrismaError "P2002"), w2) /\
      user (prisma w2) = user (prisma w1) /\
      List.map User.appleId (user (prisma w2)) = [None])
  /\ (exists first w1 second w2,
        authenticateWithApple sample_config (IdJwt apple_claims) None None "10.0.0.1" 1000
          empty_world = (inr first, w1) /\
        authenticateWithGoogle sample_config (IdJwt google_claims) None "10.0.0.1" 2000 w1
          = (inr second, w2) /\
        AuthUser.isNewUser (AuthResponse.user second) = true /\
        AuthUser.id (AuthResponse.user second) = AuthUser.id (AuthResponse.user first) /\
        List.map (fun u => (User.appleId u, User.googleId u, User.verifiedBadges u))
                 (user (prisma w2))
        = [(Some "apple-sub-1", Some "google-sub-1", ["APPLE"; "GOOGLE"])]).
Proof.
  split.
  - eexists _, _, _.
    split; [vm_compute; reflexivity|].
    split; [vm_compute; reflexivity|].
    split; [vm_compute; reflexivity|].
    split; vm_compute; reflexivity.
  - eexists _, _, _, _.
    split; [vm_compute; reflexivity|].
    split; [vm_compute; reflexivity|].
    repeat split; vm_compute; reflexivity.
Qed.

(** ** The rate limiter *)

(** C7, as stated, fails: with at most 2 requests per 10 seconds and attempts
    at 0 s, 9 s, 10.5 s and 11 s, a counter reset 10 s after the first attempt
    admits all four, whereas the hook refuses the fourth, the attempts at 9 s
    and 10.5 s both lying within the 10 s before it. *)
Lemma rate_limiter_is_not_fixed_window :
  rate_decisions two_per_ten_seconds sample_request sample_attempts ∅
    = [false; false; false; true]
  /\ fixed_window_decisions 2 10 None (List.map fst sample_attempts)
    = [false; false; false; false].
Proof. split; vm_compute; reflexivity. Qed.

Lemma live_insert_eq (r : Redis) k e now :
  live (<[k := e]> r) k now = if expired e now then None else Some e.
Proof. unfold live. now rewrite lookup_insert_eq. Qed.

Lemma live_delete_eq (r : Redis) k now : live (delete k r) k now = None.
Proof. unfold live. now rewrite lookup_delete_eq. Qed.

Lemma live_not_expired (r : Redis) k now v ttl :
  live r k now = Some (MkEntry v ttl) -> forall v', expired (MkEntry v' ttl) now = false.
Proof.
  unfold live. destruct (r !! k) as [e|]; [|discriminate].
  destruct (expired e now) eqn:E; [discriminate|].
  intros [= ->] v'. exact E.
Qed.

Lemma filter_members_other (m : string) (ms : list (string * Z)) :
  m ∉ List.map fst ms ->
  List.filter (fun p => negb (bool_decide (fst p = m))) ms = ms.
Proof.
  intros Hm. apply filter_all_in. intros p Hp.
  rewrite bool_decide_eq_false_2; [reflexivity|].
  intros <-. apply Hm, list_elem_of_In, List.in_map, Hp.
Qed.

Section SlidingWindow.
Variables (options : RateLimitOptions.t) (request : Request.t).
Let key := rate_key options request.
Let max := RateLimitOptions.max options.
Let windowSeconds := RateLimitOptions.windowSeconds options.

(** One call of the hook, in terms of the sorted set the key holds. *)
Lemma rateLimitHandler_effect r random now ms :
  stored r key now = Some ms ->
  dec now ++ ":" ++ random ∉ List.map fst ms ->
  let kept := List.filter (fun p => negb (in_range 0 (now - windowSeconds * 1000) p)) ms in
  exists reply r',
    rateLimitHandler options request random now r = (reply, r') /\
    RateLimitReply.tooManyRequests reply = (max <=? Z.of_nat (List.length kept)) /\
    r' !! key = Some (MkEntry (RZSet (kept ++ [(dec now ++ ":" ++ random, now)]))
                              (Some (now + windowSeconds * 1000))).
Proof.
  intros Hstored Hfresh kept.
  unfold rateLimitHandler. fold key. fold windowSeconds. fold max.
  unfold stored in Hstored.
  destruct (live r key now) as [[[s|ms'] ttl]|] eqn:Hlive; [discriminate| |].
  - injection Hstored as ->.
    unfold zremrangebyscore. rewrite Hlive. fold kept.
    assert (Hkept : dec now ++ ":" ++ random ∉ List.map fst kept).
    { intros Hin. apply Hfresh.
      apply list_elem_of_In, List.in_map_iff in Hin as (p & Hp & Hin).
      apply List.filter_In in Hin as [Hin _].
      rewrite <- Hp. apply list_elem_of_In, List.in_map, Hin. }
    destruct kept as [|p ps] eqn:Ekept.
    + cbn [store_zset]. unfold zcard. rewrite live_delete_eq.
      unfold zadd. rewrite live_delete_eq.
      unfold expire. rewrite live_insert_eq. cbn [expired expireAt rvalue].
      eexists _, _. split; [reflexivity|]. split; [reflexivity|].
      now rewrite lookup_insert_eq.
    + cbn [store_zset]. unfold zcard. rewrite live_insert_eq.
      rewrite (live_not_expired r key now _ ttl Hlive).
      unfold zadd. rewrite live_insert_eq.
      rewrite (live_not_expired r key now _ ttl Hlive).
      rewrite (filter_members_other _ _ Hkept).
      unfold expire. rewrite live_insert_eq.
      rewrite (live_not_expired r key now _ ttl Hlive). cbn [rvalue].
      eexists _, _. split; [reflexivity|]. split; [reflexivity|].
      now rewrite lookup_insert_eq.
  - injection Hstored as <-. subst kept. cbn [List.filter].
    unfold zremrangebyscore. rewrite Hlive.
    unfold zcard. rewrite Hlive.
    unfold zadd. rewrite Hlive.
    unfold expire. rewrite live_insert_eq. cbn [expired expireAt rvalue].
    eexists _, _. split; [reflexivity|]. split; [reflexivity|].
    now rewrite lookup_insert_eq.
Qed.
End SlidingWindow.

Lemma filter_filter_weaker {A} (P Q : A -> bool) (l : list A) :
  (forall x, P x = true -> Q x = true) ->
  List.filter P (List.filter Q l) = List.filter P l.
Proof.
  intros H. induction l as [|x l IH]; simpl; [reflexivity|].
  destruct (Q x) eqn:EQ; simpl.
  - now rewrite IH.
  - destruct (P x) eqn:EP; [|exact IH].
    apply H in EP. congruence.
Qed.

Lemma filter_map_length {A B} (f : A -> B) (P : B -> bool) (l : list A) :
  List.length (List.filter P (List.map f l))
  = List.length (List.filter (fun x => P (f x)) l).
Proof.
  induction l as [|x l IH]; simpl; [reflexivity|].
  destruct (P (f x)); simpl; now rewrite IH.
Qed.

(** One call of the hook against a store that agrees with the log. *)
Lemma records_step options request r log since now random :
  let key := rate_key options request in
  let windowSeconds := RateLimitOptions.windowSeconds options in
  0 < windowSeconds ->
  records r key windowSeconds log since ->
  since <= now ->
  Forall (fun p => 0 <= snd p <= since) log ->
  member (now, random) ∉ List.map fst log ->
  exists reply r',
    rateLimitHandler options request random now r = (reply, r') /\
    RateLimitReply.tooManyRequests reply
    = (RateLimitOptions.max options
         <=? Z.of_nat (List.length (List.filter (in_window windowSeconds now)
                                                (List.map snd log)))) /\
    records r' key windowSeconds (log ++ [(member (now, random), now)]) now.
Proof.
  intros key windowSeconds Hwindow Hrecords Hle Hlog Hfresh.
  destruct (Hrecords now Hle) as (ms & Hstored & Hsame & Hincl).
  rewrite Forall_forall in Hlog.
  assert (Hfresh' : dec now ++ ":" ++ random ∉ List.map fst ms).
  { intros Hin. apply Hfresh.
    apply list_elem_of_In, List.in_map_iff in Hin as (p & Hp & Hin).
    unfold member. cbn [fst snd]. rewrite <- Hp.
    apply list_elem_of_In, List.in_map, Hincl, Hin. }
  destruct (rateLimitHandler_effect options request r random now ms Hstored Hfresh')
    as (reply & r' & Hrun & Hdecision & Hkey).
  fold key in Hkey. fold windowSeconds in Hdecision, Hkey.
  set (kept := List.filter
                 (fun p => negb (in_range 0 (now - windowSeconds * 1000) p)) ms) in *.
  assert (Hkept : kept = List.filter (fun p => in_window windowSeconds now (snd p)) log).
  { rewrite <- Hsame. unfold kept. apply List.filter_ext_in. intros p Hp.
    apply Hincl, list_elem_of_In, Hlog in Hp.
    unfold in_range, in_window.
    destruct (Z.leb_spec 0 (snd p)); [|lia]. cbn [andb].
    destruct (Z.leb_spec (snd p) (now - windowSeconds * 1000)),
             (Z.ltb_spec (now - windowSeconds * 1000) (snd p)); try reflexivity; lia. }
  exists reply, r'. split; [exact Hrun|]. split.
  - rewrite Hdecision, Hkept, filter_map_length. reflexivity.
  - intros now' Hle'. unfold stored, live. rewrite Hkey. cbn [expired expireAt].
    destruct (Z.leb_spec (now + windowSeconds * 1000) now') as [Hdead|Hlive].
    + exists []. split; [reflexivity|]. split; [|apply incl_nil_l].
      cbn [List.filter]. symmetry. apply filter_nothing_in. intros p Hp.
      unfold in_window. apply Z.ltb_ge.
      apply List.in_app_iff in Hp as [Hp|[<-|[]]]; cbn [snd]; [|lia].
      apply list_elem_of_In, Hlog in Hp. lia.
    + exists (kept ++ [(member (now, random), now)])%list.
      split; [reflexivity|]. split.
      * unfold member. cbn [fst snd]. rewrite !List.filter_app. f_equal.
        rewrite Hkept. apply filter_filter_weaker. intros p.
        unfold in_window. rewrite !Z.ltb_lt. lia.
      * unfold member. cbn [fst snd]. apply incl_app; [|apply incl_appr, incl_refl].
        apply incl_appl. rewrite Hkept. intros p Hp.
        now apply List.filter_In in Hp as [Hp _].
Qed.

Lemma rate_decisions_from options request attempts :
  forall r log since,
    0 < RateLimitOptions.windowSeconds options ->
    records r (rate_key options request) (RateLimitOptions.windowSeconds options) log since ->
    0 <= since ->
    Forall (fun p => 0 <= snd p <= since) log ->
    StronglySorted Z.le (since :: List.map fst attempts) ->
    NoDup (List.map fst log ++ List.map member attempts) ->
    rate_decisions options request attempts r
    = sliding_window_decisions (RateLimitOptions.max options)
        (RateLimitOptions.windowSeconds options) (List.map snd log) (List.map fst attempts).
Proof.
  induction attempts as [|[now random] rest IH];
    intros r log since Hwindow Hrecords Hsince Hlog Hsorted Hdistinct; [reflexivity|].
  cbn [List.map fst] in Hsorted, Hdistinct.
  apply StronglySorted_cons in Hsorted as [Hfirst Hsorted].
  pose proof (Forall_inv Hfirst) as Hle.
  assert (Hfresh : member (now, random) ∉ List.map fst log).
  { apply NoDup_app in Hdistinct as (_ & Hdisjoint & _).
    intros Hin. apply (Hdisjoint _ Hin). left. }
  destruct (records_step options request r log since now random
              Hwindow Hrecords Hle Hlog Hfresh) as (reply & r' & Hrun & Hdecision & Hrecords').
  cbn [rate_decisions sliding_window_decisions List.map fst].
  rewrite Hrun, Hdecision. f_equal.
  rewrite (IH r' (log ++ [(member (now, random), now)])%list now); try assumption.
  - now rewrite List.map_app.
  - lia.
  - apply Forall_app. split.
    + eapply Forall_impl; [exact Hlog|]. cbn. intros p ?. lia.
    + constructor; [cbn; lia|constructor].
  - rewrite List.map_app, <- List.app_assoc. exact Hdistinct.
Qed.

(** C7 (amended). From a store with no entry for the key, for attempts at
    non-negative, non-decreasing instants whose sorted-set members are
    pairwise distinct, and a positive window: the hook refuses an attempt
    exactly when the attempts made within the [windowSeconds] before it,
    refused ones included, number [max] or more. The window slides with every
    attempt; it is not anchored at the first attempt of a period. *)
Theorem rateLimitHandler_is_sliding_window options request attempts r :
  0 < RateLimitOptions.windowSeconds options ->
  r !! rate_key options request = None ->
  Forall (fun a => 0 <= fst a) attempts ->
  StronglySorted Z.le (List.map fst attempts) ->
  NoDup (List.map member attempts) ->
  rate_decisions options request attempts r
  = sliding_window_decisions (RateLimitOptions.max options)
      (RateLimitOptions.windowSeconds options) [] (List.map fst attempts).
Proof.
  intros Hwindow Hnone Hnonneg Hsorted Hdistinct.
  apply (rate_decisions_from options request attempts r [] 0); auto.
  - intros now _. exists []. unfold stored. rewrite (live_absent _ _ _ Hnone).
    repeat split. apply incl_refl.
  - lia.
  - apply StronglySorted_cons. split; [|exact Hsorted].
    apply Forall_forall. intros t Ht.
    apply list_elem_of_In, List.in_map_iff in Ht as (a & <- & Ha).
    rewrite Forall_forall in Hnonneg. apply Hnonneg, list_elem_of_In, Ha.
Qed.

Lemma rateLimitHandler_is_sliding_window_witness :
  rate_decisions two_per_ten_seconds sample_request sample_attempts ∅
  = sliding_window_decisions 2 10 [] [0; 9000; 10500; 11000].
Proof.
  apply (rateLimitHandler_is_sliding_window two_per_ten_seconds sample_request
           sample_attempts ∅).
  - reflexivity.
  - reflexivity.
  - repeat constructor; cbn; lia.
  - repeat constructor; cbn; lia.
  - apply (bool_decide_unpack _). vm_compute. exact I.
Defined.

(** ** A small logic for properties of the durable store *)

Section Keeps.
Variable J : Prisma -> Prop.

Lemma keeps_ret {A} (a : A) (Q : A -> Prop) : Q a -> keeps J (ret a) Q.
Proof. intros HQ w HJ. split; [exact HJ|]. now intros a' [= <-]. Qed.

Lemma keeps_throw {A} (e : Exn) (Q : A -> Prop) : keeps J (throw e) Q.
Proof. intros w HJ. split; [exact HJ|]. intros a H. discriminate H. Qed.

Lemma keeps_bind {A B} (m : M A) (k : A -> M B) (Q : A -> Prop) (R : B -> Prop) :
  keeps J m Q -> (forall a, Q a -> keeps J (k a) R) -> keeps J (bind m k) R.
Proof.
  intros Hm Hk w HJ. destruct (Hm w HJ) as [HJ1 HQ]. unfold bind.
  destruct (m w) as [[e|a] w1]; cbn [fst snd] in *.
  - split; [exact HJ1|]. intros b H. discriminate H.
  - exact (Hk a (HQ a eq_refl) w1 HJ1).
Qed.

Lemma keeps_or_throw {A} (o : option A) e : keeps J (or_throw o e) (fun a => o = Some a).
Proof. destruct o; [now apply keeps_ret|apply keeps_throw]. Qed.

Lemma keeps_swallow (m : M unit) (Q : unit -> Prop) :
  keeps J m Q -> keeps J (swallow m) (fun _ => True).
Proof.
  intros Hm w HJ. destruct (Hm w HJ) as [HJ1 _]. unfold swallow.
  destruct (m w) as [res w1]. now split.
Qed.

Lemma keeps_for_each {A} (l : list A) (body : A -> M unit) :
  (forall x, keeps J (body x) (fun _ => True)) ->
  keeps J (for_each l body) (fun _ => True).
Proof.
  intros Hbody. induction l as [|x l IH]; cbn [for_each].
  - now apply keeps_ret.
  - eapply keeps_bind; [apply Hbody|]. intros _ _. exact IH.
Qed.

(** A command that leaves the durable store alone. *)
Lemma keeps_cache_only {A} (m : M A) :
  (forall w, prisma (snd (m w)) = prisma w) -> keeps J m (fun _ => True).
Proof. intros Hm w HJ. rewrite Hm. now split. Qed.

Lemma redis_set_keeps key value seconds now :
  keeps J (redis_set key value seconds now) (fun _ => True).
Proof.
  apply keeps_cache_only. intros w. unfold redis_set.
  now destruct (seconds <=? 0).
Qed.

Lemma redis_get_keeps key now : keeps J (redis_get key now) (fun _ => True).
Proof. apply keeps_cache_only. intros w. now rewrite redis_get_run. Qed.

Lemma redis_del_keeps key : keeps J (redis_del key) (fun _ => True).
Proof. now apply keeps_cache_only. Qed.

Lemma redis_exists_keeps key now : keeps J (redis_exists key now) (fun _ => True).
Proof. now apply keeps_cache_only. Qed.

Lemma redis_incr_keeps key now : keeps J (redis_incr key now) (fun _ => True).
Proof.
  apply keeps_cache_only. intros w.
  destruct (redis_incr key now w) as [res w'] eqn:E. cbn [snd].
  now apply redis_incr_frame in E as [-> _].
Qed.

Lemma redis_expire_keeps key seconds now :
  keeps J (redis_expire key seconds now) (fun _ => True).
Proof.
  apply keeps_cache_only. intros w.
  destruct (redis_expire key seconds now w) as [res w'] eqn:E. cbn [snd].
  now apply redis_expire_frame in E as (_ & -> & _).
Qed.
End Keeps.

(** ** A retired digest stays retired *)

Section Retired.
Variables (config : Env) (owner sid digest : string).
Let J := retired owner sid digest.

Lemma retired_grows users users' sessions counter counter' :
  (counter <= counter')%N ->
  J (MkPrisma users sessions counter) -> J (MkPrisma users' sessions counter').
Proof.
  intros Hle [(k & Hk & ->) Hrows]. split; [|exact Hrows].
  exists k. cbn [seq] in *. split; [lia|reflexivity].
Qed.

Lemma retired_filter users sessions counter (P : UserSession.t -> bool) :
  J (MkPrisma users sessions counter) ->
  J (MkPrisma users (List.filter P sessions) counter).
Proof.
  intros [Hdrawn Hrows]. split; [exact Hdrawn|].
  intros s Hs. apply List.filter_In in Hs as [Hs _]. now apply Hrows.
Qed.

Lemma user_findUnique_keeps q : keeps J (user_findUnique q) (fun _ => True).
Proof. now apply keeps_cache_only. Qed.

Lemma userSession_findUnique_keeps id :
  keeps J (userSession_findUnique id) (fun _ => True).
Proof. now apply keeps_cache_only. Qed.

Lemma userSession_findMany_keeps userId :
  keeps J (userSession_findMany userId) (fun _ => True).
Proof. now apply keeps_cache_only. Qed.

Lemma userSession_findMany_desc_keeps userId :
  keeps J (userSession_findMany_desc userId) (fun _ => True).
Proof. now apply keeps_cache_only. Qed.

Lemma userSession_findFirst_keeps where_ :
  keeps J (userSession_findFirst where_)
        (fun found => forall s, found = Some s -> UserSession.id s = sid ->
                                UserSession.userId s = owner).
Proof.
  intros w HJ. rewrite userSession_findFirst_run. cbn [fst snd]. split; [exact HJ|].
  intros found [= <-] s Hs Hid. apply List.find_some in Hs as [Hs _].
  now apply (proj2 HJ s Hs Hid).
Qed.

Lemma user_create_keeps phone email googleId appleId displayName avatarUrl badges now :
  keeps J (user_create phone email googleId appleId displayName avatarUrl badges now)
        (fun _ => True).
Proof.
  intros [[users sessions counter] cache] HJ.
  unfold user_create, bind, the_prisma, put_prisma, ret, throw. cbn [prisma user seq].
  destruct (violates_unique _ users); cbn [fst snd prisma]; (split; [|easy]).
  - exact HJ.
  - apply (retired_grows users _ sessions counter (N.succ counter)); [lia|exact HJ].
Qed.

Lemma user_update_keeps id data : keeps J (user_update id data) (fun _ => True).
Proof.
  intros [[users sessions counter] cache] HJ.
  unfold user_update, bind, the_prisma, put_prisma, ret, throw. cbn [prisma user seq].
  destruct (List.find _ users) as [u|]; cbn [fst snd prisma]; [|now split].
  destruct (update_violates_unique _ _ users); cbn [fst snd prisma]; (split; [|easy]).
  - exact HJ.
  - apply (retired_grows users _ sessions counter counter); [lia|exact HJ].
Qed.

Lemma userSession_create_keeps userId hash deviceType ip expiresAt now :
  keeps J (userSession_create userId hash deviceType ip expiresAt now)
        (fun s => UserSession.id s <> sid).
Proof.
  intros [[users sessions counter] cache] HJ.
  rewrite userSession_create_run. cbn [fst snd prisma user userSession seq].
  pose proof (drawn_not_next _ _ (proj1 HJ)) as Hnew. cbn [seq prisma] in Hnew.
  split.
  - destruct HJ as [(k & Hk & Hsid) Hrows]. cbn [seq userSession prisma] in *. split.
    + exists k. cbn [seq]. split; [lia|exact Hsid].
    + intros s Hs Hid. apply List.in_app_iff in Hs as [Hs|[<-|[]]].
      * now apply Hrows.
      * cbn [UserSession.id] in Hid. congruence.
  - intros s [= <-]. cbn [UserSession.id]. congruence.
Qed.

Lemma userSession_update_keeps id data :
  (forall s, UserSession.id (data s) = UserSession.id s
             /\ UserSession.userId (data s) = UserSession.userId s) ->
  (id = sid -> forall s, UserSession.refreshTokenHash (data s) <> digest) ->
  keeps J (userSession_update id data) (fun _ => True).
Proof.
  intros Hsame Hdigest [[users sessions counter] cache] HJ.
  unfold userSession_update, bind, the_prisma, put_prisma, ret, throw.
  cbn [prisma userSession user seq].
  destruct (List.find _ sessions) as [found|]; cbn [fst snd prisma]; [|now split].
  split; [|easy]. destruct HJ as [Hdrawn Hrows]. split; [exact Hdrawn|].
  cbn [userSession] in *. intros s' Hs' Hid.
  apply List.in_map_iff in Hs' as (s & <- & Hs).
  unfold has_id in *. destruct (bool_decide (UserSession.id s = id)) eqn:E.
  - apply bool_decide_eq_true_1 in E.
    destruct (Hsame s) as [Hi Hu]. rewrite Hi in Hid. rewrite Hu.
    split; [now apply (Hrows s Hs Hid)|]. apply Hdigest. congruence.
  - now apply Hrows.
Qed.

Lemma userSession_delete_keeps id : keeps J (userSession_delete id) (fun _ => True).
Proof.
  intros [[users sessions counter] cache] HJ.
  unfold userSession_delete, bind, the_prisma, put_prisma, throw.
  cbn [prisma userSession user seq].
  destruct (List.find _ sessions); cbn [fst snd prisma]; (split; [|easy]).
  - now apply retired_filter.
  - exact HJ.
Qed.

Lemma userSession_deleteMany_keeps where_ :
  keeps J (userSession_deleteMany where_) (fun _ => True).
Proof.
  intros [[users sessions counter] cache] HJ.
  rewrite userSession_deleteMany_run. cbn [fst snd prisma user userSession seq].
  split; [|easy]. now apply retired_filter.
Qed.
End Retired.

Section RetiredService.
Variables (config : Env) (owner sid digest : string).
Let J := retired owner sid digest.

Ltac next_with lemma := eapply keeps_bind; [apply lemma|].
Ltac finish := try (intros; now apply keeps_ret); try (intros; apply keeps_throw).

Lemma invalidateUserSessions_keeps userId :
  keeps J (invalidateUserSessions userId) (fun _ => True).
Proof.
  unfold invalidateUserSessions.
  next_with userSession_findMany_keeps. intros sessions _.
  apply keeps_for_each. intros s. apply redis_del_keeps.
Qed.

Lemma createSession_keeps userId deviceType ip now :
  keeps J (createSession config userId deviceType ip now) (fun _ => True).
Proof.
  unfold createSession.
  next_with keeps_or_throw. intros refreshExpMs _.
  next_with userSession_create_keeps. intros session Hsession.
  next_with keeps_or_throw. intros accessToken _.
  next_with keeps_or_throw. intros refreshToken _.
  eapply keeps_bind.
  { apply userSession_update_keeps; [intros s; now split|intros Heq; contradiction]. }
  intros _ _.
  next_with redis_set_keeps. intros _ _.
  next_with user_update_keeps. intros _ _.
  next_with userSession_findMany_desc_keeps. intros active _.
  eapply keeps_bind with (Q := fun _ => True); [|finish].
  destruct (5 <? List.length active)%nat; [|finish].
  next_with userSession_deleteMany_keeps. intros _ _.
  apply keeps_for_each. intros s. apply redis_del_keeps.
Qed.

Lemma sendVerificationCode_keeps phone entropy now :
  keeps J (sendVerificationCode phone entropy now) (fun _ => True).
Proof.
  unfold sendVerificationCode.
  next_with redis_set_keeps. intros _ _.
  next_with redis_incr_keeps. intros attempts _.
  eapply keeps_bind with (Q := fun _ => True).
  { destruct (attempts =? 1); [apply redis_expire_keeps|finish]. }
  intros _ _. destruct (5 <? attempts); finish.
Qed.

Lemma verifyPhoneCode_keeps phone code deviceType ip now :
  keeps J (verifyPhoneCode config phone code deviceType ip now) (fun _ => True).
Proof.
  unfold verifyPhoneCode.
  next_with redis_get_keeps. intros storedCode _.
  destruct (negb (truthy storedCode)); [finish|].
  destruct (negb (bool_decide (storedCode = Some code))); [finish|].
  next_with redis_del_keeps. intros _ _.
  next_with user_findUnique_keeps. intros found _.
  eapply keeps_bind with (Q := fun _ => True).
  { destruct found as [u|]; [|apply user_create_keeps].
    destruct (negb (includes "PHONE" (User.verifiedBadges u)));
      [apply user_update_keeps|finish]. }
  intros user _.
  next_with createSession_keeps. finish.
Qed.

Lemma authenticateWithGoogle_keeps idToken deviceType ip now :
  keeps J (authenticateWithGoogle config idToken deviceType ip now) (fun _ => True).
Proof.
  unfold authenticateWithGoogle. destruct idToken as [claims|raw]; [|finish].
  next_with user_findUnique_keeps. intros found _.
  eapply keeps_bind with (Q := fun _ => True);
    [|intros user _; next_with createSession_keeps; finish].
  destruct found as [u|]; [finish|].
  eapply keeps_bind with (Q := fun _ => True).
  { destruct (truthy (id_email claims)); [|finish].
    next_with user_findUnique_keeps. intros existing _.
    destruct existing as [existing|]; [|finish].
    next_with user_update_keeps. finish. }
  intros linked _. destruct linked; [finish|apply user_create_keeps].
Qed.

Lemma authenticateWithApple_keeps identityToken fullName deviceType ip now :
  keeps J (authenticateWithApple config identityToken fullName deviceType ip now)
        (fun _ => True).
Proof.
  unfold authenticateWithApple. destruct identityToken as [claims|raw]; [|finish].
  next_with user_findUnique_keeps. intros found _.
  eapply keeps_bind with (Q := fun _ => True);
    [|intros user _; next_with createSession_keeps; finish].
  destruct found as [u|]; [finish|apply user_create_keeps].
Qed.

Lemma logout_keeps sessionId : keeps J (logout sessionId) (fun _ => True).
Proof.
  unfold logout.
  eapply keeps_bind; [eapply keeps_swallow, userSession_delete_keeps|].
  intros _ _. apply redis_del_keeps.
Qed.

Lemma refreshTokens_keeps token ip now :
  (forall issuedToken, generateRefreshToken config owner sid now = Some issuedToken ->
                       hashToken (compact issuedToken) <> digest) ->
  keeps J (refreshTokens config token ip now) (fun _ => True).
Proof.
  intros Hdistinct. unfold refreshTokens.
  destruct (verifyRefreshToken config token now) as [payload|]; [|finish].
  next_with userSession_findFirst_keeps. intros found Hfound.
  destruct found as [session|].
  - next_with keeps_or_throw. intros newAccessToken _.
    next_with keeps_or_throw. intros newRefreshToken Hnew.
    next_with keeps_or_throw. intros refreshExpMs _.
    eapply keeps_bind.
    { apply userSession_update_keeps; [intros s; now split|].
      intros Hid s. cbn [rotated UserSession.refreshTokenHash].
      apply Hdistinct. rewrite <- Hid, <- (Hfound session eq_refl Hid). exact Hnew. }
    intros _ _. next_with redis_set_keeps. finish.
  - next_with userSession_deleteMany_keeps. intros _ _.
    next_with invalidateUserSessions_keeps. finish.
Qed.

Lemma authenticate_keeps authorization now w :
  J (prisma w) -> J (prisma (snd (authenticate config authorization now w))).
Proof.
  intros HJ. unfold authenticate.
  destruct authorization as [[token|raw]|]; [|exact HJ|exact HJ].
  assert (Hbody : keeps J (authenticate_body config token now) (fun _ => True)).
  { unfold authenticate_body.
    next_with keeps_or_throw. intros payload _.
    next_with redis_exists_keeps. intros sessionExists _.
    eapply keeps_bind with (Q := fun _ => True);
      [|intros early _; destruct early; finish].
    destruct (negb sessionExists); [|finish].
    next_with userSession_findUnique_keeps. intros session _.
    destruct session as [session|]; [|finish].
    destruct (UserSession.expiresAt session <? now); [finish|].
    eapply keeps_bind with (Q := fun _ => True); [|finish].
    destruct (0 <? _); [apply redis_set_keeps|finish]. }
  destruct (Hbody w HJ) as [HJ' _].
  now destruct (authenticate_body config token now w) as [[e|outcome] w'].
Qed.

Lemma perform_keeps c w :
  no_collision config owner sid digest c ->
  J (prisma w) -> J (prisma (perform config c w)).
Proof.
  intros Hc HJ. destruct c; cbn [perform no_collision] in *.
  - now apply sendVerificationCode_keeps.
  - now apply verifyPhoneCode_keeps.
  - now apply authenticateWithGoogle_keeps.
  - now apply authenticateWithApple_keeps.
  - now apply refreshTokens_keeps.
  - now apply logout_keeps.
  - now apply authenticate_keeps.
Qed.

Lemma perform_all_keeps calls w :
  Forall (no_collision config owner sid digest) calls ->
  J (prisma w) -> J (prisma (perform_all config calls w)).
Proof.
  revert w. induction calls as [|c calls IH]; intros w Hcalls HJ; [exact HJ|].
  apply Forall_cons in Hcalls as [Hc Hcalls].
  unfold perform_all. cbn [foldl]. apply IH; [exact Hcalls|].
  now apply perform_keeps.
Qed.

(** Against a store where the digest of [token] is retired for the session
    it names, [refreshTokens] throws. *)
Lemma refreshTokens_retired token ip now w :
  (forall payload, verifyRefreshToken config token now = Some payload ->
                   JwtPayload.sessionId payload = sid) ->
  digest = hashToken (compact token) ->
  J (prisma w) ->
  exists e w', refreshTokens config token ip now w = (inl e, w').
Proof.
  intros Hsid Hdigest [_ Hrows].
  destruct (verifyRefreshToken config token now) as [payload|] eqn:Hverified.
  - eexists _, _.
    apply (refreshTokens_reuse_branch config token ip now w payload Hverified).
    destruct (List.find _ _) as [s|] eqn:Hfound; [|reflexivity].
    apply List.find_some in Hfound as [Hin Hmatch].
    apply andb_true_iff in Hmatch as [Hmatch _].
    apply andb_true_iff in Hmatch as [Hid Hhash].
    apply bool_decide_eq_true_1 in Hid. apply bool_decide_eq_true_1 in Hhash.
    rewrite (Hsid payload eq_refl) in Hid.
    destruct (Hrows s Hin Hid) as [_ Hne]. congruence.
  - eexists _, _. now apply refreshTokens_unverified.
Qed.
End RetiredService.

(** ** Rotation *)

Lemma jwt_verify_claims token secret now payload :
  jwt_verify token secret now = Some payload -> token = Jwt secret payload.
Proof.
  unfold jwt_verify. destruct token as [key claims|raw]; [|discriminate].
  case_bool_decide; [|discriminate]. subst key.
  destruct (JwtPayload.exp claims <=? now / 1000); [discriminate|]. now intros [= ->].
Qed.

(** A rotation that finds its row. *)
Lemma refreshTokens_rotate_run config token ip now users sessions counter cache
      payload session accessMs refreshMs :
  verifyRefreshToken config token now = Some payload ->
  List.find (fun s => bool_decide (UserSession.id s = JwtPayload.sessionId payload)
                      && bool_decide (UserSession.refreshTokenHash s = hashToken (compact token))
                      && (now <? UserSession.expiresAt s)) sessions = Some session ->
  parseDuration (JWT_ACCESS_EXPIRATION config) = Some accessMs ->
  parseDuration (JWT_REFRESH_EXPIRATION config) = Some refreshMs ->
  1000 <= refreshMs ->
  let newRefreshToken :=
    issued (JWT_REFRESH_SECRET config) (UserSession.userId session) (UserSession.id session)
           now refreshMs in
  refreshTokens config token ip now (MkWorld (MkPrisma users sessions counter) cache) =
  (inr (AuthTokens.Mk
          (issued (JWT_ACCESS_SECRET config) (UserSession.userId session)
                  (UserSession.id session) now accessMs)
          newRefreshToken 900),
   MkWorld
     (MkPrisma users
        (List.map (fun r => if has_id (UserSession.id session) r
                            then rotated (hashToken (compact newRefreshToken)) ip
                                         (now + refreshMs) r
                            else r) sessions)
        counter)
     (<[session_key (UserSession.id session) :=
          MkEntry (RString (UserSession.userId session))
                  (Some (now + refreshMs / 1000 * 1000))]> cache)).
Proof.
  intros Hverified Hfound Ha Hr Hlong newRefreshToken.
  unfold refreshTokens. rewrite Hverified.
  rewrite (bind_inr _ _ _ _ _ (userSession_findFirst_run _ _)).
  cbn [prisma userSession]. rewrite Hfound.
  unfold generateAccessToken, generateRefreshToken, jwt_sign. rewrite Ha, Hr.
  rewrite !(bind_inr _ _ _ _ _ (or_throw_some _ _ _)).
  fold (issued (JWT_REFRESH_SECRET config) (UserSession.userId session)
               (UserSession.id session) now refreshMs).
  fold newRefreshToken.
  destruct (find_exists (has_id (UserSession.id session)) sessions session) as [row Hrow].
  { now apply List.find_some in Hfound as [Hin _]. }
  { unfold has_id. now rewrite bool_decide_eq_true_2. }
  rewrite (bind_inr _ _ _ _ _ (userSession_update_run _ _ _ _ _ _ _ Hrow)).
  assert (Httl : 0 < refreshMs / 1000) by (apply Z.div_str_pos; lia).
  rewrite (bind_inr _ _ _ _ _ (redis_set_run _ _ _ _ _ Httl)).
  reflexivity.
Qed.

(** Rotation within the clock second in which the presented token was
    issued. [jwt.sign] puts nothing into a token but the claims, the secret
    and the clock in whole seconds, so [generateRefreshToken] called again
    for the same session within that second returns the token it returned
    before: the pair handed back carries the presented refresh token, and the
    session row still holds its digest. *)
Lemma refreshTokens_reissues_within_the_second config w userId sessionId issuedAt
      token session ip now :
  usable config -> store_ok (prisma w) ->
  generateRefreshToken config userId sessionId issuedAt = Some token ->
  In session (userSession (prisma w)) ->
  UserSession.id session = sessionId ->
  UserSession.userId session = userId ->
  UserSession.refreshTokenHash session = hashToken (compact token) ->
  now < UserSession.expiresAt session ->
  now / 1000 = issuedAt / 1000 ->
  exists pair w' session',
    refreshTokens config token ip now w = (inr pair, w') /\
    AuthTokens.refreshToken pair = token /\
    In session' (userSession (prisma w')) /\
    UserSession.id session' = sessionId /\
    UserSession.userId session' = userId /\
    UserSession.refreshTokenHash session' = hashToken (compact token).
Proof.
  intros (accessMs & refreshMs & Ha & Hr & _ & Hlong) [Hkey _]
         Hissued Hin Hid Huser Hhash Hlive Hsecond.
  unfold generateRefreshToken, jwt_sign in Hissued. rewrite Hr in Hissued.
  injection Hissued as Htoken.
  assert (Hseconds : 0 < refreshMs / 1000) by (apply Z.div_str_pos; lia).
  set (payload := JwtPayload.Mk userId sessionId (issuedAt / 1000)
                                (issuedAt / 1000 + refreshMs / 1000)).
  assert (Hverified : verifyRefreshToken config token now = Some payload).
  { rewrite <- Htoken. unfold verifyRefreshToken, jwt_verify.
    rewrite bool_decide_eq_true_2 by reflexivity. cbn [JwtPayload.exp].
    destruct (Z.leb_spec (issuedAt / 1000 + refreshMs / 1000) (now / 1000)); [lia|].
    reflexivity. }
  destruct w as [[users sessions counter] cache]. cbn [prisma userSession] in *.
  destruct (find_exists
              (fun s => bool_decide (UserSession.id s = JwtPayload.sessionId payload)
                        && bool_decide (UserSession.refreshTokenHash s
                                        = hashToken (compact token))
                        && (now <? UserSession.expiresAt s)) sessions session Hin)
    as [found Hfound].
  { cbn [payload JwtPayload.sessionId].
    rewrite !bool_decide_eq_true_2 by assumption. cbn [andb]. now apply Z.ltb_lt. }
  assert (found = session) as ->.
  { pose proof (List.find_some _ _ Hfound) as [Hin' Hmatch].
    apply andb_true_iff in Hmatch as [Hmatch _].
    apply andb_true_iff in Hmatch as [Hid' _]. apply bool_decide_eq_true_1 in Hid'.
    cbn [payload JwtPayload.sessionId] in Hid'.
    apply (NoDup_map_eq UserSession.id sessions); auto. congruence. }
  assert (Hsame : issued (JWT_REFRESH_SECRET config) (UserSession.userId session)
                         (UserSession.id session) now refreshMs = token).
  { rewrite <- Htoken, Hid, Huser. unfold issued. now rewrite Hsecond. }
  eexists _, _, _. split.
  { apply (refreshTokens_rotate_run config token ip now users sessions counter cache
             payload session accessMs refreshMs); assumption. }
  cbn [AuthTokens.refreshToken prisma userSession]. split; [exact Hsame|]. split.
  { apply List.in_map_iff. exists session. split; [|exact Hin].
    unfold has_id. rewrite bool_decide_eq_true_2 by reflexivity. reflexivity. }
  cbn [rotated UserSession.id UserSession.userId UserSession.refreshTokenHash].
  rewrite Hsame. auto.
Qed.

(** Rotation in a later clock second. Let a session be Active on a
    well-formed store, and let a refresh token that still verifies carry the
    digest stored for it. Then [refreshTokens] with that token returns a
    pair. If the presented token was issued in an earlier clock second, the
    refresh token of the pair differs from it. And if the new token's digest
    differs from the old one's, then after any later calls of the service in
    which no refresh token issued for this session has the old digest, every
    further [refreshTokens] with the old token throws. Within the issuing
    second neither conclusion is available: see
    [refreshTokens_reissues_within_the_second]. *)
Theorem rotation_retires_previous_token config w token payload session ip now :
  usable config -> store_ok (prisma w) ->
  verifyRefreshToken config token now = Some payload ->
  In session (userSession (prisma w)) ->
  UserSession.id session = JwtPayload.sessionId payload ->
  UserSession.refreshTokenHash session = hashToken (compact token) ->
  now < UserSession.expiresAt session ->
  exists pair w',
    refreshTokens config token ip now w = (inr pair, w') /\
    (JwtPayload.iat payload < now / 1000 -> AuthTokens.refreshToken pair <> token) /\
    (hashToken (compact (AuthTokens.refreshToken pair)) <> hashToken (compact token) ->
     forall calls,
       Forall (no_collision config (UserSession.userId session) (UserSession.id session)
                            (hashToken (compact token))) calls ->
       forall ip' now',
       exists e w'',
         refreshTokens config token ip' now' (perform_all config calls w') = (inl e, w'')).
Proof.
  intros (accessMs & refreshMs & Ha & Hr & _ & Hlong) [Hkey Hdrawn]
         Hverified Hin Hid Hhash Hlive.
  destruct w as [[users sessions counter] cache]. cbn [prisma userSession] in *.
  destruct (find_exists
              (fun s => bool_decide (UserSession.id s = JwtPayload.sessionId payload)
                        && bool_decide (UserSession.refreshTokenHash s
                                        = hashToken (compact token))
                        && (now <? UserSession.expiresAt s)) sessions session Hin)
    as [found Hfound].
  { rewrite !bool_decide_eq_true_2 by assumption. cbn [andb]. now apply Z.ltb_lt. }
  assert (found = session) as ->.
  { pose proof (List.find_some _ _ Hfound) as [Hin' Hmatch].
    apply andb_true_iff in Hmatch as [Hmatch _].
    apply andb_true_iff in Hmatch as [Hid' _]. apply bool_decide_eq_true_1 in Hid'.
    apply (NoDup_map_eq UserSession.id sessions); auto. congruence. }
  eexists _, _. split.
  { apply (refreshTokens_rotate_run config token ip now users sessions counter cache
             payload session accessMs refreshMs); assumption. }
  cbn [AuthTokens.refreshToken]. split.
  - intros Hearlier Hsame.
    apply jwt_verify_claims in Hverified. rewrite Hverified in Hsame.
    unfold issued in Hsame. injection Hsame as Hclaims. rewrite <- Hclaims in Hearlier.
    cbn [JwtPayload.iat] in Hearlier. lia.
  - intros Hdistinct calls Hcalls ip' now'.
    apply (refreshTokens_retired config (UserSession.userId session)
             (UserSession.id session) (hashToken (compact token))).
    + intros payload' Hverified'.
      apply jwt_verify_claims in Hverified. apply jwt_verify_claims in Hverified'.
      rewrite Hverified in Hverified'. injection Hverified' as <-. now symmetry.
    + reflexivity.
    + apply perform_all_keeps; [exact Hcalls|].
      cbn [prisma]. split.
      * rewrite Forall_forall in Hdrawn.
        destruct (Hdrawn session (proj2 (list_elem_of_In _ _) Hin)) as (k & Hk & Hsid).
        exists k. split; [exact Hk|exact Hsid].
      * cbn [userSession]. intros s' Hs' Hsid.
        apply List.in_map_iff in Hs' as (r & <- & Hr').
        assert (UserSession.id r = UserSession.id session) as Hrid.
        { destruct (has_id (UserSession.id session) r); exact Hsid. }
        assert (r = session) as -> by (apply (NoDup_map_eq UserSession.id sessions); auto).
        unfold has_id. rewrite bool_decide_eq_true_2 by reflexivity.
        cbn [rotated UserSession.userId UserSession.refreshTokenHash].
        split; [reflexivity|exact Hdistinct].
Qed.

Lemma logged_in_world_ok : store_ok (prisma logged_in_world).
Proof.
  split.
  - apply (bool_decide_unpack _). vm_compute. exact I.
  - vm_compute. repeat constructor. exists 1%N. split; reflexivity.
Qed.

Lemma rotation_retires_previous_token_witness :
  exists pair w',
    refreshTokens sample_config first_refresh_token "10.0.0.1" 2500 logged_in_world
    = (inr pair, w') /\
    AuthTokens.refreshToken pair <> first_refresh_token /\
    forall ip' now',
    exists e w'',
      refreshTokens sample_config first_refresh_token ip' now'
        (perform_all sample_config later_calls w') = (inl e, w'').
Proof.
  destruct (rotation_retires_previous_token sample_config logged_in_world
              first_refresh_token (JwtPayload.Mk "c0" "c1" 1 2592001) first_session
              "10.0.0.1" 2500) as (pair & w' & Hrun & Hdiffers & Hnever).
  - exact sample_config_usable.
  - exact logged_in_world_ok.
  - reflexivity.
  - vm_compute. left. reflexivity.
  - reflexivity.
  - reflexivity.
  - reflexivity.
  - exists pair, w'. split; [exact Hrun|]. split.
    + apply Hdiffers. reflexivity.
    + assert (Hpair : AuthTokens.refreshToken pair
                      = issued (JWT_REFRESH_SECRET sample_config) "c0" "c1" 2500 2592000000).
      { vm_compute in Hrun. injection Hrun as <- _. reflexivity. }
      apply Hnever.
      * rewrite Hpair. vm_compute. discriminate.
      * repeat constructor. intros issuedToken Hissued.
        vm_compute in Hissued. injection Hissued as <-. vm_compute. discriminate.
Defined.

(** C3. The code does not do what the claim says when a rotation falls
    within the clock second in which the presented token was issued. The
    sample account signs in with Google at instant 1000 (milliseconds), which
    creates session [c1] and returns [first_refresh_token]. [refreshTokens]
    with that token at instant 1500 succeeds, but the refresh token it hands
    back is the very token presented (same claims, same [iat] and [exp], same
    signature), so the digest it writes to the row is the one already there.
    The presented token is therefore not retired: [refreshTokens] with it at
    instant 1900 succeeds again, and again returns the same token, where the
    claim has three distinct tokens and the first one refused. *)
Theorem rotation_within_the_issuing_second :
  (exists login,
     authenticateWithGoogle sample_config (IdJwt google_claims) None "10.0.0.1" 1000
       empty_world = (inr login, logged_in_world) /\
     refresh_of login = first_refresh_token) /\
  In first_session (userSession (prisma logged_in_world)) /\
  exists rotated w2 again w3,
    refreshTokens sample_config first_refresh_token "10.0.0.1" 1500 logged_in_world
    = (inr rotated, w2) /\
    AuthTokens.refreshToken rotated = first_refresh_token /\
    List.map UserSession.refreshTokenHash (userSession (prisma w2))
    = [hashToken (compact first_refresh_token)] /\
    refreshTokens sample_config first_refresh_token "10.0.0.9" 1900 w2 = (inr again, w3) /\
    AuthTokens.refreshToken again = first_refresh_token.
Proof.
  split.
  { eexists. split; vm_compute; reflexivity. }
  split; [vm_compute; left; reflexivity|].
  eexists _, _, _, _.
  split; [vm_compute; reflexivity|].
  repeat split; vm_compute; reflexivity.
Qed.

(** ** Generated codes *)

Lemma dec_nonempty z : dec z <> "".
Proof.
  unfold dec, NilZero.string_of_int, NilZero.string_of_uint.
  destruct (Z.to_int z) as [d|d]; [|discriminate].
  destruct d; discriminate.
Qed.

Lemma generateVerificationCode_nonempty entropy : generateVerificationCode entropy <> "".
Proof. apply dec_nonempty. Qed.

Lemma sendVerificationCode_overwrites_challenge_witness :
  fst (sendVerificationCode "+14155551234" 42 2000 five_sends_world) = inl RateLimited /\
  redis (snd (sendVerificationCode "+14155551234" 42 2000 five_sends_world))
    !! verification_key "+14155551234"
  = Some (MkEntry (RString (generateVerificationCode 42)) (Some (2000 + 300 * 1000))).
Proof.
  destruct (sendVerificationCode_overwrites_challenge "+14155551234" 42 2000 five_sends_world)
    as [Hoverwritten Hlimited].
  split; [|exact Hoverwritten].
  apply (Hlimited 5 (Some 3601000)); [vm_compute; reflexivity|lia].
Defined.

(** * Further properties of the code *)

(** ** Token lifetimes *)



(** X2. [decodeToken] returns the claims that verification returns whenever
    verification under either secret succeeds, and it reads the claims of an
    issued token at every instant, its expiry included: decoding checks
    neither the secret nor the clock. *)
Theorem decodeToken_ignores_secret_and_expiry config token :
  (forall now payload,
      verifyAccessToken config token now = Some payload \/
      verifyRefreshToken config token now = Some payload ->
      decodeToken token = Some payload)
  /\ (forall userId sessionId issuedAt,
        generateAccessToken config userId sessionId issuedAt = Some token \/
        generateRefreshToken config userId sessionId issuedAt = Some token ->
        exists payload,
          decodeToken token = Some payload /\
          JwtPayload.userId payload = userId /\
          JwtPayload.sessionId payload = sessionId /\
          JwtPayload.iat payload = issuedAt / 1000).
Proof.
  split.
  - intros now payload [H|H]; apply jwt_verify_claims in H; now subst token.
  - intros userId sessionId issuedAt [H|H];
      unfold generateAccessToken, generateRefreshToken, jwt_sign in H;
      destruct (parseDuration _); try discriminate; injection H as <-;
      eexists; repeat split.
Qed.

Lemma decodeToken_ignores_secret_and_expiry_witness :
  decodeToken (Jwt (JWT_REFRESH_SECRET sample_config) (JwtPayload.Mk "c0" "c1" 1 2592001))
  = Some (JwtPayload.Mk "c0" "c1" 1 2592001).
Proof.
  apply (proj1 (decodeToken_ignores_secret_and_expiry sample_config _) 1000).
  right. reflexivity.
Defined.

(** ** Durations *)

Lemma is_digit_value c :
  is_digit c = true -> 0 <= Z.of_N (N_of_ascii c) - 48 <= 9.
Proof.
  unfold is_digit. cbv zeta. rewrite andb_true_iff, !N.leb_le. lia.
Qed.

Lemma parse_digits_nonneg s : forall acc value,
  0 <= acc -> parse_digits acc s = Some value -> 0 <= value.
Proof.
  induction s as [|c rest IH]; intros acc value Hacc H; simpl in H.
  - now injection H as <-.
  - destruct (is_digit c) eqn:Hc; [|discriminate].
    apply is_digit_value in Hc. eapply IH; [|exact H]. lia.
Qed.

(** X3. A duration [parseDuration] returns within the safe integer range
    (at most [2^53 - 1] milliseconds, where the source's arithmetic on
    doubles is exact) is a non-negative whole number of seconds, given in
    milliseconds: the cache TTL [Math.floor(ms / 1000)] loses nothing of it. *)
Theorem parseDuration_whole_seconds duration ms :
  parseDuration duration = Some ms ->
  ms <= MAX_SAFE_INTEGER ->
  0 <= ms /\ ms mod 1000 = 0 /\ ms / 1000 * 1000 = ms.
Proof.
  unfold parseDuration. intros H _.
  destruct (split_last duration) as [[[|d ds] unit]|]; try discriminate.
  destruct (parse_digits 0 (String d ds)) as [value|] eqn:Hvalue; [|discriminate].
  apply parse_digits_nonneg in Hvalue; [|lia].
  assert (Hshape : exists k, 0 <= k /\ ms = k * 1000).
  { repeat (destruct (Ascii.eqb unit _); [injection H as <-; eexists; split; [|reflexivity]; lia|]).
    discriminate. }
  destruct Hshape as (k & Hk & ->).
  rewrite Z.mod_mul, Z.div_mul by lia. lia.
Qed.

Lemma parseDuration_whole_seconds_witness :
  0 <= 900000 /\ 900000 mod 1000 = 0 /\ 900000 / 1000 * 1000 = 900000.
Proof.
  apply (parseDuration_whole_seconds "15m" 900000).
  - reflexivity.
  - unfold MAX_SAFE_INTEGER. lia.
Defined.

Lemma digits_accumulate d : forall acc : positive,
  parse_digits (Z.pos acc) (NilEmpty.string_of_uint d) = Some (Z.pos (Pos.of_uint_acc d acc)).
Proof.
  induction d; intros acc;
    cbn [NilEmpty.string_of_uint parse_digits Pos.of_uint_acc]; try reflexivity;
    match goal with |- context [is_digit ?c] => change (is_digit c) with true; cbv iota end;
    match goal with
    | |- parse_digits ?z _ = Some (Z.pos (Pos.of_uint_acc _ ?a)) =>
        replace z with (Z.pos a) by (simpl (Z.of_N (N_of_ascii _)); lia)
    end; apply IHd.
Qed.

Lemma digits_value d :
  parse_digits 0 (NilEmpty.string_of_uint d) = Some (Z.of_N (Pos.of_uint d)).
Proof.
  induction d; cbn [NilEmpty.string_of_uint parse_digits Pos.of_uint]; try reflexivity;
    match goal with |- context [is_digit ?c] => change (is_digit c) with true; cbv iota end;
    try exact IHd;
    match goal with
    | |- parse_digits ?z _ = Some (Z.of_N (N.pos (Pos.of_uint_acc _ ?a))) =>
        replace z with (Z.pos a) by (simpl (Z.of_N (N_of_ascii _)); lia)
    end; apply digits_accumulate.
Qed.

Lemma dec_of_pos p : dec (Z.pos p) = NilEmpty.string_of_uint (Pos.to_uint p).
Proof.
  unfold dec. simpl. unfold NilZero.string_of_uint.
  destruct (Pos.to_uint p) eqn:E; try reflexivity.
  now destruct (DecimalPos.Unsigned.to_uint_nonnil p).
Qed.

Lemma parse_digits_dec n : 0 <= n -> parse_digits 0 (dec n) = Some n.
Proof.
  intros Hn. destruct n as [|p|p]; [reflexivity| |lia].
  rewrite dec_of_pos, digits_value, DecimalPos.Unsigned.of_to. reflexivity.
Qed.

Lemma split_last_snoc s c : split_last (s ++ String c EmptyString) = Some (s, c).
Proof.
  induction s as [|a rest IH]; [reflexivity|].
  change (String a rest ++ String c "") with (String a (rest ++ String c "")).
  cbn [split_last]. rewrite IH.
  destruct (rest ++ String c "") eqn:E; [|reflexivity].
  now destruct rest.
Qed.

(** X4. [parseDuration] reads back the decimal numeral of a non-negative
    integer followed by a unit letter: seconds, minutes, hours and days are
    scaled to milliseconds by 1000, 60000, 3600000 and 86400000, for every
    numeral whose duration in milliseconds is a safe integer (at most
    [2^53 - 1]; beyond it the source's doubles round the product). *)
Theorem parseDuration_of_numeral n :
  0 <= n ->
  (n * 1000 <= MAX_SAFE_INTEGER ->
   parseDuration (dec n ++ "s") = Some (n * 1000)) /\
  (n * 60 * 1000 <= MAX_SAFE_INTEGER ->
   parseDuration (dec n ++ "m") = Some (n * 60 * 1000)) /\
  (n * 60 * 60 * 1000 <= MAX_SAFE_INTEGER ->
   parseDuration (dec n ++ "h") = Some (n * 60 * 60 * 1000)) /\
  (n * 24 * 60 * 60 * 1000 <= MAX_SAFE_INTEGER ->
   parseDuration (dec n ++ "d") = Some (n * 24 * 60 * 60 * 1000)).
Proof.
  intros Hn.
  assert (Hdec : exists d ds, dec n = String d ds).
  { destruct (dec n) eqn:E; [now destruct (dec_nonempty n)|eauto]. }
  destruct Hdec as (d & ds & Hdec).
  unfold parseDuration. rewrite !split_last_snoc, Hdec, <- Hdec, parse_digits_dec by exact Hn.
  repeat split.
Qed.

Lemma parseDuration_of_numeral_witness :
  parseDuration (dec 30 ++ "s") = Some (30 * 1000) /\
  parseDuration (dec 30 ++ "m") = Some (30 * 60 * 1000) /\
  parseDuration (dec 30 ++ "h") = Some (30 * 60 * 60 * 1000) /\
  parseDuration (dec 30 ++ "d") = Some (30 * 24 * 60 * 60 * 1000).
Proof.
  destruct (parseDuration_of_numeral 30) as (Hs & Hm & Hh & Hd); [lia|].
  unfold MAX_SAFE_INTEGER in *.
  split; [apply Hs; lia|]. split; [apply Hm; lia|]. split; [apply Hh; lia|apply Hd; lia].
Defined.

(** ** Verification codes *)

Lemma string_of_uint_digits d : all_chars is_digit (NilEmpty.string_of_uint d) = true.
Proof. induction d; simpl; auto. Qed.

Lemma string_of_uint_length d :
  String.length (NilEmpty.string_of_uint d) = Decimal.nb_digits d.
Proof. induction d; simpl; auto. Qed.

Lemma of_uint_acc_bounds d : forall acc : positive,
  Z.pos acc * 10 ^ Z.of_nat (Decimal.nb_digits d) <= Z.pos (Pos.of_uint_acc d acc)
  < (Z.pos acc + 1) * 10 ^ Z.of_nat (Decimal.nb_digits d).
Proof.
  induction d; intros acc; cbn [Pos.of_uint_acc Decimal.nb_digits];
    [rewrite Z.pow_0_r; lia | ..];
    rewrite Nat2Z.inj_succ, Z.pow_succ_r by lia;
    match goal with
    | |- _ <= Z.pos (Pos.of_uint_acc _ ?a) < _ => specialize (IHd a)
    end;
    assert (0 < 10 ^ Z.of_nat (Decimal.nb_digits d)) by (apply Z.pow_pos_nonneg; lia);
    nia.
Qed.

Lemma to_uint_no_leading_zero p l : Pos.to_uint p <> Decimal.D0 l.
Proof.
  intros E.
  pose proof (DecimalPos.Unsigned.of_to p) as Hvalue. rewrite E in Hvalue.
  cbn [Pos.of_uint] in Hvalue.
  pose proof (DecimalPos.Unsigned.to_of l) as Hnorm. rewrite Hvalue in Hnorm.
  change (N.to_uint (N.pos p)) with (Pos.to_uint p) in Hnorm. rewrite E in Hnorm.
  destruct l; [discriminate Hvalue | ..].
  all: match type of Hnorm with
       | _ = Decimal.unorm ?u =>
           assert (Hlen : (Decimal.nb_digits (Decimal.unorm u) <= Decimal.nb_digits u)%nat)
             by (apply DecimalFacts.nb_digits_unorm; discriminate)
       end.
  all: rewrite <- Hnorm in Hlen; cbn [Decimal.nb_digits] in Hlen; lia.
Qed.

Lemma to_uint_magnitude p :
  10 ^ (Z.of_nat (Decimal.nb_digits (Pos.to_uint p)) - 1) <= Z.pos p
  < 10 ^ Z.of_nat (Decimal.nb_digits (Pos.to_uint p)).
Proof.
  pose proof (DecimalPos.Unsigned.of_to p) as Hvalue.
  pose proof (to_uint_no_leading_zero p) as Hhead.
  destruct (Pos.to_uint p) as [|l|l|l|l|l|l|l|l|l|l];
    [discriminate Hvalue | now destruct (Hhead l) | ..];
    cbn [Pos.of_uint] in Hvalue; injection Hvalue as <-;
    cbn [Decimal.nb_digits]; rewrite Nat2Z.inj_succ;
    replace (Z.succ (Z.of_nat (Decimal.nb_digits l)) - 1)
      with (Z.of_nat (Decimal.nb_digits l)) by lia;
    rewrite Z.pow_succ_r by lia;
    match goal with
    | |- _ <= Z.pos (Pos.of_uint_acc _ ?a) < _ => pose proof (of_uint_acc_bounds l a)
    end;
    assert (0 < 10 ^ Z.of_nat (Decimal.nb_digits l)) by (apply Z.pow_pos_nonneg; lia);
    nia.
Qed.

Lemma six_digits n :
  100000 <= n < 1000000 ->
  String.length (dec n) = 6%nat /\ all_chars is_digit (dec n) = true.
Proof.
  intros Hn. destruct n as [|p|p]; try lia.
  rewrite dec_of_pos, string_of_uint_length, string_of_uint_digits. split; [|reflexivity].
  pose proof (to_uint_magnitude p) as Hmag.
  set (k := Decimal.nb_digits (Pos.to_uint p)) in *.
  destruct (Nat.lt_trichotomy k 6) as [Hk|[Hk|Hk]]; [|exact Hk|].
  - assert (10 ^ Z.of_nat k <= 10 ^ 5) by (apply Z.pow_le_mono_r; lia).
    change (10 ^ 5) with 100000 in *. lia.
  - assert (10 ^ 6 <= 10 ^ (Z.of_nat k - 1)) by (apply Z.pow_le_mono_r; lia).
    change (10 ^ 6) with 1000000 in *. lia.
Qed.

(** X5. Whatever entropy is consumed, [generateVerificationCode] returns the
    decimal numeral of an integer between 100000 and 999998 (the upper bound
    999999 of [crypto.randomInt] is exclusive, so the code 999999 is never
    drawn): a string of exactly six decimal digits, which passes the [code]
    field of [verifyCodeSchema]. *)
Theorem generateVerificationCode_is_six_digits entropy :
  exists n,
    generateVerificationCode entropy = dec n /\
    100000 <= n <= 999998 /\
    String.length (generateVerificationCode entropy) = 6%nat /\
    code_field (generateVerificationCode entropy) = true.
Proof.
  unfold generateVerificationCode, randomInt.
  set (n := 100000 + Z.of_N entropy mod (999999 - 100000)).
  assert (Hn : 100000 <= n <= 999998).
  { pose proof (Z.mod_pos_bound (Z.of_N entropy) (999999 - 100000)). lia. }
  destruct (six_digits n) as [Hlen Hdigits]; [lia|].
  exists n. repeat split; try lia; try exact Hlen.
  unfold code_field. rewrite Hlen, Hdigits. reflexivity.
Qed.

(** ** Input schemas *)

Lemma phone_field_shape phone :
  phone_field phone = true ->
  exists c rest,
    phone = String "+" (String c rest) /\
    is_digit c = true /\ c <> "0"%char /\
    all_chars is_digit rest = true /\
    (9 <= String.length rest <= 13)%nat.
Proof.
  unfold phone_field. intros H. apply andb_true_iff in H as [Hlen He].
  apply andb_true_iff in Hlen as [_ Hmax].
  destruct phone as [|[[] [] [] [] [] [] [] []] [|c rest]];
    try (simpl in He; discriminate He).
  exists c, rest. cbn [e164] in He.
  do 4 (apply andb_true_iff in He as [He ?]).
  cbn [String.length] in Hmax.
  repeat match goal with
         | H : (_ <=? _)%nat = true |- _ => apply Nat.leb_le in H
         end.
  repeat split; try assumption; try lia.
  apply Ascii.eqb_neq. now apply negb_true_iff.
Qed.

(** X6. The [phone] field of [sendCodeSchema] and [verifyCodeSchema] admits
    exactly the strings made of a plus sign followed by ten to fourteen
    decimal digits, the first of them not zero. The [max(15)] bound counts
    the plus sign, so the pattern's fifteen-digit numbers are refused, and
    the [min(10)] bound never decides. *)
Theorem phone_field_admits_ten_to_fourteen_digits phone :
  phone_field phone = true <->
  exists c rest,
    phone = String "+" (String c rest) /\
    is_digit c = true /\ c <> "0"%char /\
    all_chars is_digit rest = true /\
    (9 <= String.length rest <= 13)%nat.
Proof.
  split; [apply phone_field_shape|].
  intros (c & rest & -> & Hc & Hzero & Hrest & Hlen).
  unfold phone_field. cbn [e164 String.length]. rewrite Hc, Hrest.
  apply Ascii.eqb_neq in Hzero. rewrite Hzero.
  repeat (apply andb_true_iff; split); try reflexivity; apply Nat.leb_le; lia.
Qed.

Lemma phone_field_admits_ten_to_fourteen_digits_witness :
  exists c rest,
    "+14155551234" = String "+" (String c rest) /\
    is_digit c = true /\ c <> "0"%char /\
    all_chars is_digit rest = true /\
    (9 <= String.length rest <= 13)%nat.
Proof.
  exact (proj1 (phone_field_admits_ten_to_fourteen_digits "+14155551234") eq_refl).
Defined.

(** ** The rate limiter's reply and footprint *)

Lemma zcard_nonneg key now r : 0 <= default 0 (fst (zcard key now r)).
Proof.
  unfold zcard. destruct (live r key now) as [[[s|ms] ttl]|]; cbn; lia.
Qed.

Lemma ceil_div_bounds a : a <= ceil_div a 1000 * 1000 < a + 1000.
Proof.
  unfold ceil_div.
  pose proof (Z.div_mod (- a) 1000 ltac:(lia)).
  pose proof (Z.mod_pos_bound (- a) 1000 ltac:(lia)). lia.
Qed.

(** X7. Whatever the store holds, the headers set by the rate limiter are
    consistent: [X-RateLimit-Limit] is the configured maximum,
    [X-RateLimit-Remaining] is never negative and is below the maximum when
    the maximum is positive, a refused request is told that nothing remains
    and to retry after [windowSeconds], an admitted one gets no [Retry-After],
    and [X-RateLimit-Reset] is the end of the window counted from this
    attempt, rounded up to a whole second. *)
Theorem rateLimitHandler_headers options request random now r :
  let max := RateLimitOptions.max options in
  let windowSeconds := RateLimitOptions.windowSeconds options in
  let reply := fst (rateLimitHandler options request random now r) in
  RateLimitReply.limit reply = max /\
  0 <= RateLimitReply.remaining reply /\
  (RateLimitReply.remaining reply < max \/ max <= 0) /\
  (if RateLimitReply.tooManyRequests reply
   then RateLimitReply.remaining reply = 0 /\
        RateLimitReply.retryAfter reply = Some windowSeconds
   else RateLimitReply.retryAfter reply = None) /\
  now + windowSeconds * 1000 <= RateLimitReply.reset reply * 1000
    < now + windowSeconds * 1000 + 1000.
Proof.
  intros max windowSeconds. unfold rateLimitHandler. fold max. fold windowSeconds.
  destruct (zremrangebyscore _ _ _ _ _) as [removed r1].
  pose proof (zcard_nonneg (rate_key options request) now r1) as Hcount.
  destruct (zcard _ _ _) as [card r2].
  destruct (zadd _ _ _ _ _) as [added r3].
  destruct (expire _ _ _ _) as [set r4].
  cbn [fst] in *. cbn [RateLimitReply.limit RateLimitReply.remaining RateLimitReply.reset
                       RateLimitReply.retryAfter RateLimitReply.tooManyRequests].
  repeat split; try lia; try apply ceil_div_bounds.
  destruct (Z.leb_spec max (default 0 card)); [split; [lia|reflexivity]|reflexivity].
Qed.

Lemma store_zset_other key ms ttl (r : Redis) k :
  k <> key -> store_zset key ms ttl r !! k = r !! k.
Proof.
  intros Hk. unfold store_zset.
  destruct ms; [now rewrite lookup_delete_ne|now rewrite lookup_insert_ne].
Qed.

(** X8. The rate limiter writes to no key but the one it computes for the
    request: every other entry of the store, the counters of other clients,
    routes and limiters among them, is left exactly as it was. *)
Theorem rateLimitHandler_touches_one_key options request random now r k :
  k <> rate_key options request ->
  snd (rateLimitHandler options request random now r) !! k = r !! k.
Proof.
  intros Hk. unfold rateLimitHandler.
  set (key := rate_key options request) in *.
  destruct (zremrangebyscore key _ _ _ r) as [removed r1] eqn:E1.
  destruct (zcard key now r1) as [card r2] eqn:E2.
  destruct (zadd key _ _ _ r2) as [added r3] eqn:E3.
  destruct (expire key _ _ r3) as [set r4] eqn:E4.
  cbn [snd].
  assert (H4 : r4 !! k = r3 !! k).
  { unfold expire in E4. destruct (live r3 key now); injection E4 as _ <-;
      [now rewrite lookup_insert_ne|reflexivity]. }
  assert (H3 : r3 !! k = r2 !! k).
  { unfold zadd in E3. destruct (live r2 key now) as [[[s|ms] ttl]|];
      injection E3 as _ <-; try reflexivity; now rewrite lookup_insert_ne. }
  assert (H2 : r2 !! k = r1 !! k).
  { unfold zcard in E2. destruct (live r1 key now) as [[[s|ms] ttl]|];
      now injection E2 as _ <-. }
  assert (H1 : r1 !! k = r !! k).
  { unfold zremrangebyscore in E1. destruct (live r key now) as [[[s|ms] ttl]|];
      injection E1 as _ <-; try reflexivity. now apply store_zset_other. }
  congruence.
Qed.

Lemma rateLimitHandler_touches_one_key_witness :
  snd (rateLimitHandler rateLimiters.sms sample_request "0.5" 1000 ∅) !! "session:c1"
  = (∅ : Redis) !! "session:c1".
Proof.
  apply (rateLimitHandler_touches_one_key rateLimiters.sms sample_request "0.5" 1000 ∅).
  apply (bool_decide_unpack _). vm_compute. exact I.
Defined.

Lemma sliding_window_burst max windowSeconds first times : forall earlier,
  Forall (fun t => first <= t < first + windowSeconds * 1000) earlier ->
  Forall (fun t => first <= t < first + windowSeconds * 1000) times ->
  sliding_window_decisions max windowSeconds earlier times
  = List.map (fun i => max <=? Z.of_nat (List.length earlier + i))
             (List.seq 0 (List.length times)).
Proof.
  induction times as [|now rest IH]; intros earlier Hearlier Htimes; [reflexivity|].
  apply Forall_cons in Htimes as [Hnow Hrest].
  cbn [sliding_window_decisions List.length List.seq List.map].
  rewrite filter_all_in.
  2:{ intros t Ht. rewrite Forall_forall in Hearlier.
      apply list_elem_of_In, Hearlier in Ht. unfold in_window. apply Z.ltb_lt. lia. }
  rewrite Nat.add_0_r. f_equal.
  rewrite IH.
  - rewrite <- List.seq_shift, List.map_map, List.length_app. cbn [List.length].
    apply List.map_ext. intros i. do 2 f_equal. lia.
  - apply Forall_app. split; [exact Hearlier|]. now constructor.
  - exact Hrest.
Qed.

(** X9. A burst: from a store with no entry for the key, attempts at
    non-decreasing instants that all fall within one window length of some
    instant [first] are admitted until [max] of them have been made and
    refused from then on: the [i]-th attempt (counting from zero) is refused
    exactly when [max <= i]. *)
Theorem rateLimitHandler_admits_max_per_burst options request attempts r first :
  0 < RateLimitOptions.windowSeconds options ->
  r !! rate_key options request = None ->
  0 <= first ->
  Forall (fun a => first <= fst a < first + RateLimitOptions.windowSeconds options * 1000)
         attempts ->
  StronglySorted Z.le (List.map fst attempts) ->
  NoDup (List.map member attempts) ->
  rate_decisions options request attempts r
  = List.map (fun i => RateLimitOptions.max options <=? Z.of_nat i)
             (List.seq 0 (List.length attempts)).
Proof.
  intros Hwindow Hnone Hfirst Hwithin Hsorted Hdistinct.
  rewrite (rate_decisions_from options request attempts r [] 0); auto.
  - cbn [List.map]. rewrite (sliding_window_burst _ _ first).
    + now rewrite List.length_map.
    + constructor.
    + apply Forall_forall. intros t Ht.
      apply list_elem_of_In, List.in_map_iff in Ht as (a & <- & Ha).
      rewrite Forall_forall in Hwithin. apply Hwithin, list_elem_of_In, Ha.
  - intros now _. exists []. unfold stored. rewrite (live_absent _ _ _ Hnone).
    repeat split. apply incl_refl.
  - lia.
  - apply StronglySorted_cons. split; [|exact Hsorted].
    apply Forall_forall. intros t Ht.
    apply list_elem_of_In, List.in_map_iff in Ht as (a & <- & Ha).
    rewrite Forall_forall in Hwithin. apply list_elem_of_In, Hwithin in Ha. lia.
Qed.

Lemma rateLimitHandler_admits_max_per_burst_witness :
  rate_decisions rateLimiters.sms sample_request
    [(1000, "0.1"); (2000, "0.2"); (2000, "0.3"); (300999, "0.4"); (300999, "0.5")] ∅
  = List.map (fun i => 3 <=? Z.of_nat i) (List.seq 0 5).
Proof.
  apply (rateLimitHandler_admits_max_per_burst rateLimiters.sms sample_request
           [(1000, "0.1"); (2000, "0.2"); (2000, "0.3"); (300999, "0.4"); (300999, "0.5")]
           ∅ 1000).
  - reflexivity.
  - reflexivity.
  - lia.
  - repeat constructor; cbn; lia.
  - repeat constructor; cbn; lia.
  - apply (bool_decide_unpack _). vm_compute. exact I.
Defined.

(** ** Keys of the rate limiter *)

Lemma append_nil (b : string) : "" ++ b = b.
Proof. reflexivity. Qed.

Lemma append_cons (c : ascii) (a b : string) : String c a ++ b = String c (a ++ b).
Proof. reflexivity. Qed.

Lemma string_app_inv_head (p a b : string) : p ++ a = p ++ b -> a = b.
Proof.
  induction p as [|c p IH]; [auto|]. rewrite !append_cons. intros H. injection H as H. auto.
Qed.

Lemma colon_free_no_colon (a b : string) : colon_free (a ++ String ":" b) = false.
Proof.
  unfold colon_free. rewrite all_chars_app. cbn [all_chars Ascii.eqb Bool.eqb negb andb].
  apply andb_false_r.
Qed.

Lemma split_at_last_colon (u1 : string) : forall u2 i1 i2 : string,
  colon_free i1 = true -> colon_free i2 = true ->
  u1 ++ String ":" i1 = u2 ++ String ":" i2 -> u1 = u2 /\ i1 = i2.
Proof.
  induction u1 as [|c u1 IH]; intros [|d u2] i1 i2 H1 H2 H;
    rewrite ?append_cons, ?append_nil in H.
  - injection H as H. auto.
  - injection H as _ H.
    rewrite H, colon_free_no_colon in H1. discriminate.
  - injection H as _ H.
    rewrite <- H, colon_free_no_colon in H2. discriminate.
  - injection H as -> H.
    destruct (IH u2 i1 i2 H1 H2 H) as [-> ->]. auto.
Qed.

(** X10. The counter keys of the rate limiter keep clients and routes
    apart: with the default, address-based identifier, two requests whose
    addresses contain no colon (IPv4) get the same key of one limiter only if
    they have the same address and the same route; and no key of one of the
    four pre-configured limiters is a key of another, for routes that start
    with a slash. *)
Theorem rate_key_separates options :
  (forall a b,
      RateLimitOptions.keyGenerator options = None ->
      colon_free (Request.ip a) = true -> colon_free (Request.ip b) = true ->
      rate_key options a = rate_key options b -> a = b)
  /\ (forall a b u v,
        Request.url a = String "/" u -> Request.url b = String "/" v ->
        rate_key rateLimiters.standard a <> rate_key rateLimiters.auth b /\
        rate_key rateLimiters.standard a <> rate_key rateLimiters.sms b /\
        rate_key rateLimiters.standard a <> rate_key rateLimiters.upload b /\
        rate_key rateLimiters.auth a <> rate_key rateLimiters.sms b /\
        rate_key rateLimiters.auth a <> rate_key rateLimiters.upload b /\
        rate_key rateLimiters.sms a <> rate_key rateLimiters.upload b).
Proof.
  split.
  - intros [ipa urla] [ipb urlb] Hgen Ha Hb H. unfold rate_key in H. rewrite Hgen in H.
    cbn [Request.ip Request.url] in *.
    apply string_app_inv_head, string_app_inv_head in H.
    rewrite !append_cons, !append_nil in H.
    destruct (split_at_last_colon urla urlb ipa ipb Ha Hb H) as [-> ->]. reflexivity.
  - intros a b u v Ha Hb. unfold rate_key. rewrite Ha, Hb.
    repeat split; intros H; vm_compute in H; discriminate H.
Qed.

Lemma rate_key_separates_witness :
  Request.Mk "203.0.113.7" "/auth/refresh" = Request.Mk "203.0.113.7" "/auth/refresh".
Proof.
  apply (proj1 (rate_key_separates rateLimiters.auth)); reflexivity.
Defined.

(** ** Pagination *)

Lemma truthy_or_null o : truthy (or_null o) = truthy o.
Proof. unfold or_null. destruct (truthy o) eqn:E; [exact E|reflexivity]. Qed.

Lemma buildPaginationMeta_page {T : Type} (id : T -> string)
    (items : list T) (limit : Z) (total : option Z) :
  0 <= limit ->
  let page := fst (buildPaginationMeta id items limit total) in
  let meta := snd (buildPaginationMeta id items limit total) in
  page = take (Z.to_nat limit) items /\
  PaginationMeta.hasMore meta = (limit <? Z.of_nat (List.length items)) /\
  (PaginationMeta.hasMore meta = true -> 1 <= limit ->
     exists x, items !! (Z.to_nat limit - 1)%nat = Some x /\ last page = Some x /\
               PaginationMeta.nextCursor meta = Some (id x)).
Proof.
  intros Hlimit. unfold buildPaginationMeta, slice0.
  destruct (Z.ltb_spec limit 0) as [?|_]; [lia|].
  destruct (Z.ltb_spec limit (Z.of_nat (List.length items))) as [Hmore|Hall];
    cbn [fst snd PaginationMeta.hasMore PaginationMeta.nextCursor].
  - repeat split. intros _ Hone.
    destruct (items !! (Z.to_nat limit - 1)%nat) as [x|] eqn:Hx.
    + exists x. rewrite last_lookup, length_take, lookup_take_lt by lia.
      replace (Init.Nat.pred (Z.to_nat limit `min` List.length items))
        with (Z.to_nat limit - 1)%nat by lia.
      rewrite Hx. auto.
    + apply lookup_ge_None in Hx. lia.
  - repeat split; try discriminate.
    rewrite take_ge; [reflexivity|]. lia.
Qed.

(** X11. For an integer limit that is not negative, [buildPaginationMeta]
    returns the first [limit] items (all of them when there are no more),
    reports [hasMore] exactly when there were more than [limit], and gives as
    [nextCursor] the id of the last item returned when there are more and
    nothing otherwise; with [limit = 0] and items present it reports
    [hasMore] without any cursor to continue from. *)
Theorem buildPaginationMeta_returns_first_page {T : Type} (id : T -> string)
    (items : list T) (limit : Z) (total : option Z) :
  0 <= limit ->
  let page := fst (buildPaginationMeta id items limit total) in
  let meta := snd (buildPaginationMeta id items limit total) in
  page = take (Z.to_nat limit) items /\
  PaginationMeta.hasMore meta = (limit <? Z.of_nat (List.length items)) /\
  PaginationMeta.total meta = total /\
  (PaginationMeta.hasMore meta = false ->
     page = items /\ PaginationMeta.nextCursor meta = None) /\
  (PaginationMeta.hasMore meta = true -> 1 <= limit ->
     exists x, items !! (Z.to_nat limit - 1)%nat = Some x /\ last page = Some x /\
               PaginationMeta.nextCursor meta = Some (id x)) /\
  (limit = 0 -> PaginationMeta.nextCursor meta = None).
Proof.
  intros Hlimit page meta.
  destruct (buildPaginationMeta_page id items limit total Hlimit) as (Hpage & Hmore & Hcursor).
  fold page in Hpage, Hcursor. fold meta in Hmore, Hcursor.
  split; [exact Hpage|]. split; [exact Hmore|]. split; [reflexivity|].
  split; [|split; [exact Hcursor|]].
  - intros Hnone. rewrite Hmore in Hnone. apply Z.ltb_ge in Hnone.
    subst page meta. unfold buildPaginationMeta.
    destruct (Z.ltb_spec limit (Z.of_nat (List.length items))); [lia|]. auto.
  - intros ->. subst meta. unfold buildPaginationMeta, slice0. cbn.
    now destruct (0 <? Z.of_nat (List.length items)).
Qed.

Lemma buildPaginationMeta_returns_first_page_witness :
  fst (buildPaginationMeta session_key ["a"; "b"; "c"] 2 None) = take 2 ["a"; "b"; "c"].
Proof.
  apply (buildPaginationMeta_returns_first_page session_key ["a"; "b"; "c"] 2 None). lia.
Defined.

(** X12. The three pagination helpers together: the page size that
    [parsePaginationParams] yields lies between 1 and 100 (a requested
    integer in that range is kept, a missing, non-numeric or zero one gives
    20, smaller ones 1, larger ones 100); [buildCursorPagination] asks the
    store for one row more than the page size, skipping the cursor row when
    a non-empty cursor is given; and for any answer of at most that many
    rows [buildPaginationMeta] returns at most a page, reports [hasMore]
    exactly when the extra row came back, and then always names a cursor. *)
Theorem pagination_fetches_one_extra_row {T : Type} (id : T -> string)
    (cursor : option string) (limit : JsNumber) (items : list T) :
  let params := parsePaginationParams cursor limit in
  let args := buildCursorPagination params in
  let size := default DEFAULT_LIMIT (PaginationParams.limit params) in
  let page := fst (buildPaginationMeta id items size None) in
  let meta := snd (buildPaginationMeta id items size None) in
  1 <= size <= 100 /\
  size = match limit with
         | Integer z => if z =? 0 then 20 else if z <? 1 then 1 else if 100 <? z then 100 else z
         | NaN => 20
         end /\
  CursorArgs.take args = size + 1 /\
  CursorArgs.skip args = (if truthy cursor then 1 else 0) /\
  CursorArgs.cursor args = or_null cursor /\
  (Z.of_nat (List.length items) <= CursorArgs.take args ->
     Z.of_nat (List.length page) <= size /\
     (PaginationMeta.hasMore meta = true <->
        Z.of_nat (List.length items) = CursorArgs.take args) /\
     (PaginationMeta.hasMore meta = true ->
        exists x, last page = Some x /\ PaginationMeta.nextCursor meta = Some (id x))).
Proof.
  intros params args size page meta.
  assert (Hsize : 1 <= size <= 100).
  { subst size params. cbn. unfold MAX_LIMIT. lia. }
  assert (Htake : CursorArgs.take args = size + 1).
  { subst args size. unfold buildCursorPagination. now destruct (truthy _). }
  split; [exact Hsize|]. split.
  { subst size params. cbn. unfold MAX_LIMIT, DEFAULT_LIMIT.
    destruct limit as [|z]; [reflexivity|].
    destruct (Z.eqb_spec z 0); [reflexivity|].
    destruct (Z.ltb_spec z 1); destruct (Z.ltb_spec 100 z); lia. }
  split; [exact Htake|]. split.
  { subst args params. unfold buildCursorPagination. cbn [PaginationParams.cursor parsePaginationParams].
    rewrite truthy_or_null. now destruct (truthy cursor). }
  split.
  { subst args params. unfold buildCursorPagination. cbn [PaginationParams.cursor parsePaginationParams].
    rewrite truthy_or_null. unfold or_null. now destruct (truthy cursor). }
  intros Hfetched. rewrite Htake in *.
  destruct (buildPaginationMeta_page id items size None ltac:(lia))
    as (Hpage & Hmore & Hcursor).
  fold page in Hpage, Hcursor. fold meta in Hmore, Hcursor.
  split; [|split].
  - rewrite Hpage, length_take. lia.
  - rewrite Hmore. rewrite Z.ltb_lt. lia.
  - intros H. destruct (Hcursor H ltac:(lia)) as (x & _ & Hlast & Hnext). eauto.
Qed.

Lemma pagination_fetches_one_extra_row_witness :
  Z.of_nat (List.length (fst (buildPaginationMeta session_key ["a"; "b"; "c"] 2 None))) <= 2.
Proof.
  apply (pagination_fetches_one_extra_row session_key None (Integer 2) ["a"; "b"; "c"]).
  vm_compute. discriminate.
Defined.

(** ** Secure tokens *)

Lemma hex_of_bytes_length bytes :
  String.length (hex_of_bytes bytes) = (2 * List.length bytes)%nat.
Proof.
  induction bytes as [|b rest IH]; [reflexivity|].
  cbn [hex_of_bytes List.fold_right List.length]. fold (hex_of_bytes rest).
  unfold hex_byte. rewrite !append_cons, append_nil. cbn [String.length]. rewrite IH. lia.
Qed.

Lemma hex_of_bytes_is_hex bytes : all_chars is_hex (hex_of_bytes bytes) = true.
Proof.
  induction bytes as [|b rest IH]; [reflexivity|].
  cbn [hex_of_bytes List.fold_right]. fold (hex_of_bytes rest).
  unfold hex_byte. rewrite !append_cons, append_nil. cbn [all_chars].
  now rewrite !hex_digit_is_hex, IH.
Qed.

(** X13. [generateSecureToken(length)], for an integer [length], throws
    exactly when the length is negative or exceeds 268435444, the largest
    number of bytes whose hexadecimal rendering fits the longest string
    ([2^29 - 24] characters); otherwise it returns a string of twice
    [length] characters, all of them lowercase hexadecimal digits (64
    characters for the default length 32). *)
Theorem generateSecureToken_is_hex length entropy :
  match generateSecureToken length entropy with
  | Some token =>
      0 <= length <= 268435444 /\
      String.length token = Z.to_nat (2 * length) /\
      all_chars is_hex token = true
  | None => length < 0 \/ 268435444 < length
  end.
Proof.
  unfold generateSecureToken, randomBytes, toString_hex, MAX_STRING_LENGTH.
  destruct (Z.ltb_spec length 0); [cbn; lia|].
  destruct (Z.ltb_spec 2147483647 length); [cbn; lia|].
  cbn [orb]. rewrite List.length_map, List.length_seq.
  destruct (Z.ltb_spec 536870888 (2 * Z.of_nat (Z.to_nat length))); [lia|].
  rewrite hex_of_bytes_length, hex_of_bytes_is_hex, List.length_map, List.length_seq.
  repeat split; lia.
Qed.

(** ** Optional authentication *)

(** X14. Whenever [authenticate] lets a request through, [optionalAuth]
    attaches the same user to it. The converse fails: [optionalAuth] reads
    neither store, so once a session has been logged out, a request carrying
    its unexpired access token is refused by [authenticate] and still gets
    the session's user attached by [optionalAuth]. *)
Theorem optionalAuth_ignores_revocation config now :
  (forall authorization w user,
      fst (authenticate config authorization now w) = Authenticated user ->
      optionalAuth config authorization now = Some user)
  /\ (forall token payload w,
        verifyAccessToken config token now = Some payload ->
        fst (authenticate config (Some (Bearer token)) now
               (snd (logout (JwtPayload.sessionId payload) w)))
        = Unauthorized "Session expired"
        /\ optionalAuth config (Some (Bearer token)) now
           = Some (AuthenticatedUser.Mk (JwtPayload.userId payload)
                                        (JwtPayload.sessionId payload))).
Proof.
  split.
  - intros [[token|raw]|] w user; try discriminate.
    cbn [optionalAuth].
    destruct (verifyAccessToken config token now) as [payload|] eqn:Hverified.
    + destruct (live (redis w) (session_key (JwtPayload.sessionId payload)) now)
        as [e|] eqn:Hlive.
      * rewrite (authenticate_cache_hit config token now w payload Hverified e Hlive).
        cbn. congruence.
      * rewrite (authenticate_cache_miss config token now w payload Hverified Hlive).
        destruct (List.find _ _) as [s|]; [|discriminate].
        destruct (_ <? _); [discriminate|]. cbn. congruence.
    + pose proof (isValid_unverified config token now w Hverified) as H.
      unfold isValid in H. intros E. rewrite E in H. discriminate.
  - intros token payload w Hverified. split.
    + rewrite logout_run. cbn [snd].
      rewrite (authenticate_cache_miss config token now _ payload Hverified).
      * cbn [prisma userSession].
        destruct (List.find _ _) as [s|] eqn:Hfind; [|reflexivity].
        apply List.find_some in Hfind as [Hin Hid].
        apply List.filter_In in Hin as [_ Hnot]. now rewrite Hid in Hnot.
      * cbn [redis]. apply live_delete_eq.
    + cbn [optionalAuth]. now rewrite Hverified.
Qed.

Lemma optionalAuth_ignores_revocation_witness :
  optionalAuth sample_config
    (Some (Bearer (issued (JWT_ACCESS_SECRET sample_config) "c0" "c1" 1000 900000))) 1000
  = Some (AuthenticatedUser.Mk "c0" "c1").
Proof.
  exact (proj2 (proj2 (optionalAuth_ignores_revocation sample_config 1000)
                  (issued (JWT_ACCESS_SECRET sample_config) "c0" "c1" 1000 900000)
                  (JwtPayload.Mk "c0" "c1" 1 901) empty_world eq_refl)).
Defined.

(** ** Cache footprints of the service calls *)

Section Footprint.
Variable K : string -> Prop.

Lemma touches_ret {A} (a : A) : touches_only K (ret a).
Proof. intros w k _. reflexivity. Qed.

Lemma touches_throw {A} (e : Exn) : touches_only K (throw (A := A) e).
Proof. intros w k _. reflexivity. Qed.

Lemma touches_bind {A B} (m : M A) (f : A -> M B) :
  touches_only K m -> (forall a, touches_only K (f a)) -> touches_only K (bind m f).
Proof.
  intros Hm Hf w k Hk. specialize (Hm w k Hk). unfold bind.
  destruct (m w) as [[e|a] w1]; cbn [snd] in *; [exact Hm|].
  rewrite <- Hm. now apply Hf.
Qed.

Lemma touches_or_throw {A} (o : option A) e : touches_only K (or_throw o e).
Proof. destruct o; [apply touches_ret|apply touches_throw]. Qed.

Lemma touches_swallow (m : M unit) : touches_only K m -> touches_only K (swallow m).
Proof.
  intros Hm w k Hk. specialize (Hm w k Hk). unfold swallow.
  now destruct (m w) as [[e|a] w1].
Qed.

Lemma touches_for_each {A} (l : list A) (body : A -> M unit) :
  (forall x, touches_only K (body x)) -> touches_only K (for_each l body).
Proof.
  intros Hbody. induction l as [|x rest IH]; [apply touches_ret|].
  apply touches_bind; [apply Hbody|intros _; exact IH].
Qed.

Lemma touches_nothing {A} (m : M A) :
  (forall w, redis (snd (m w)) = redis w) -> touches_only K m.
Proof. intros H w k _. now rewrite H. Qed.

Lemma touches_redis_set key value seconds now :
  K key -> touches_only K (redis_set key value seconds now).
Proof.
  intros Hkey w k Hk. unfold redis_set. destruct (seconds <=? 0); [reflexivity|].
  cbn. apply lookup_insert_ne. congruence.
Qed.

Lemma touches_redis_del key : K key -> touches_only K (redis_del key).
Proof. intros Hkey w k Hk. cbn. apply lookup_delete_ne. congruence. Qed.

Lemma touches_redis_get key now : touches_only K (redis_get key now).
Proof.
  apply touches_nothing. intros w. rewrite redis_get_run. reflexivity.
Qed.

Lemma touches_redis_exists key now : touches_only K (redis_exists key now).
Proof. apply touches_nothing. reflexivity. Qed.

Lemma touches_redis_incr key now : K key -> touches_only K (redis_incr key now).
Proof.
  intros Hkey w k Hk.
  destruct (redis_incr key now w) as [res w'] eqn:E.
  apply redis_incr_frame in E as [_ E]. apply E. congruence.
Qed.

Lemma touches_redis_expire key seconds now :
  K key -> touches_only K (redis_expire key seconds now).
Proof.
  intros Hkey w k Hk.
  destruct (redis_expire key seconds now w) as [res w'] eqn:E.
  apply redis_expire_frame in E as (_ & _ & E). apply E. congruence.
Qed.

Lemma touches_user_findUnique q : touches_only K (user_findUnique q).
Proof. apply touches_nothing. reflexivity. Qed.

Lemma touches_user_create phone email googleId appleId displayName avatarUrl badges now :
  touches_only K (user_create phone email googleId appleId displayName avatarUrl badges now).
Proof.
  apply touches_nothing. intros w. unfold user_create, bind, the_prisma.
  now destruct (violates_unique _ _).
Qed.

Lemma touches_user_update id data : touches_only K (user_update id data).
Proof.
  apply touches_nothing. intros w. unfold user_update, bind, the_prisma.
  destruct (List.find _ _); [|reflexivity]. now destruct (update_violates_unique _ _ _).
Qed.

Lemma touches_userSession_create userId hash deviceType ip expiresAt now :
  touches_only K (userSession_create userId hash deviceType ip expiresAt now).
Proof. apply touches_nothing. reflexivity. Qed.

Lemma touches_userSession_update id data : touches_only K (userSession_update id data).
Proof.
  apply touches_nothing. intros w. unfold userSession_update, bind, the_prisma.
  now destruct (List.find _ _).
Qed.

Lemma touches_userSession_findUnique id : touches_only K (userSession_findUnique id).
Proof. apply touches_nothing. reflexivity. Qed.

Lemma touches_userSession_findFirst where_ : touches_only K (userSession_findFirst where_).
Proof. apply touches_nothing. reflexivity. Qed.

Lemma touches_userSession_findMany userId : touches_only K (userSession_findMany userId).
Proof. apply touches_nothing. reflexivity. Qed.

Lemma touches_userSession_findMany_desc userId :
  touches_only K (userSession_findMany_desc userId).
Proof. apply touches_nothing. reflexivity. Qed.

Lemma touches_userSession_delete id : touches_only K (userSession_delete id).
Proof.
  apply touches_nothing. intros w. unfold userSession_delete, bind, the_prisma.
  now destruct (List.find _ _).
Qed.

Lemma touches_userSession_deleteMany where_ : touches_only K (userSession_deleteMany where_).
Proof. apply touches_nothing. reflexivity. Qed.

End Footprint.

Ltac frame :=
  repeat match goal with
         | |- touches_only _ (bind _ _) => apply touches_bind; [|intros ?]
         | |- touches_only _ (ret _) => apply touches_ret
         | |- touches_only _ (throw _) => apply touches_throw
         | |- touches_only _ (or_throw _ _) => apply touches_or_throw
         | |- touches_only _ (swallow _) => apply touches_swallow
         | |- touches_only _ (for_each _ _) => apply touches_for_each; intros ?
         | |- touches_only _ (redis_get _ _) => apply touches_redis_get
         | |- touches_only _ (redis_exists _ _) => apply touches_redis_exists
         | |- touches_only _ (redis_set _ _ _ _) => apply touches_redis_set
         | |- touches_only _ (redis_del _) => apply touches_redis_del
         | |- touches_only _ (redis_incr _ _) => apply touches_redis_incr
         | |- touches_only _ (redis_expire _ _ _) => apply touches_redis_expire
         | |- touches_only _ (user_findUnique _) => apply touches_user_findUnique
         | |- touches_only _ (user_create _ _ _ _ _ _ _ _) => apply touches_user_create
         | |- touches_only _ (user_update _ _) => apply touches_user_update
         | |- touches_only _ (userSession_create _ _ _ _ _ _) =>
             apply touches_userSession_create
         | |- touches_only _ (userSession_update _ _) => apply touches_userSession_update
         | |- touches_only _ (userSession_findUnique _) => apply touches_userSession_findUnique
         | |- touches_only _ (userSession_findFirst _) => apply touches_userSession_findFirst
         | |- touches_only _ (userSession_findMany _) => apply touches_userSession_findMany
         | |- touches_only _ (userSession_findMany_desc _) =>
             apply touches_userSession_findMany_desc
         | |- touches_only _ (userSession_delete _) => apply touches_userSession_delete
         | |- touches_only _ (userSession_deleteMany _) => apply touches_userSession_deleteMany
         | |- touches_only _ (if ?b then _ else _) => destruct b
         | |- touches_only _ (match ?x with _ => _ end) => destruct x
         | |- is_session_key (session_key _) => eexists; reflexivity
         | |- _ \/ _ => first [left; reflexivity | right; eexists; reflexivity | right; reflexivity]
         end.

Lemma touches_weaken (K K' : string -> Prop) {A} (m : M A) :
  (forall k, K k -> K' k) -> touches_only K m -> touches_only K' m.
Proof. intros Hsub Hm w k Hk. apply Hm. auto. Qed.

Lemma sendVerificationCode_touches phone entropy now :
  touches_only (fun k => k = verification_key phone \/ k = attempts_key phone)
               (sendVerificationCode phone entropy now).
Proof. unfold sendVerificationCode. frame. Qed.

Lemma invalidateUserSessions_touches userId :
  touches_only is_session_key (invalidateUserSessions userId).
Proof. unfold invalidateUserSessions. frame. Qed.

Lemma createSession_touches config userId deviceType ip now :
  touches_only is_session_key (createSession config userId deviceType ip now).
Proof. unfold createSession. frame. Qed.

Lemma verifyPhoneCode_touches config phone code deviceType ip now :
  touches_only (fun k => k = verification_key phone \/ is_session_key k)
               (verifyPhoneCode config phone code deviceType ip now).
Proof.
  unfold verifyPhoneCode. frame.
  all: eapply touches_weaken; [|apply createSession_touches]; cbn; auto.
Qed.

Lemma authenticateWithGoogle_touches config idToken deviceType ip now :
  touches_only is_session_key (authenticateWithGoogle config idToken deviceType ip now).
Proof. unfold authenticateWithGoogle. frame. all: apply createSession_touches. Qed.

Lemma authenticateWithApple_touches config identityToken fullName deviceType ip now :
  touches_only is_session_key
               (authenticateWithApple config identityToken fullName deviceType ip now).
Proof. unfold authenticateWithApple. frame. all: apply createSession_touches. Qed.

Lemma refreshTokens_touches config token ip now :
  touches_only is_session_key (refreshTokens config token ip now).
Proof. unfold refreshTokens. frame. all: apply invalidateUserSessions_touches. Qed.

Lemma logout_touches sessionId :
  touches_only (fun k => k = session_key sessionId) (logout sessionId).
Proof. unfold logout. frame. all: reflexivity. Qed.

Lemma authenticate_body_touches config token now :
  touches_only is_session_key (authenticate_body config token now).
Proof. unfold authenticate_body. frame. Qed.

(** X15. The cache footprint of every call: [sendVerificationCode] writes
    only the phone's verification key and attempt counter,
    [verifyPhoneCode] only that verification key and session keys,
    [logout] only the key of the session it is given, and the federated
    logins, [refreshTokens] and the [authenticate] hook only session keys.
    Every other cache entry is the same after the call as before, whatever
    the call returned or threw; so it is after any sequence of calls for a
    key outside all their footprints. *)
Theorem calls_stay_within_their_footprint config :
  (forall c w k, ~ footprint c k -> redis (perform config c w) !! k = redis w !! k)
  /\ (forall calls w k,
        Forall (fun c => ~ footprint c k) calls ->
        redis (perform_all config calls w) !! k = redis w !! k).
Proof.
  assert (Hone : forall c w k,
             ~ footprint c k -> redis (perform config c w) !! k = redis w !! k).
  { intros c w k Hk. destruct c; cbn [perform footprint] in *.
    - now apply sendVerificationCode_touches.
    - now apply verifyPhoneCode_touches.
    - now apply authenticateWithGoogle_touches.
    - now apply authenticateWithApple_touches.
    - now apply refreshTokens_touches.
    - now apply logout_touches.
    - unfold authenticate. destruct authorization as [[token|raw]|]; try reflexivity.
      pose proof (authenticate_body_touches config token now w k Hk) as H.
      now destruct (authenticate_body config token now w) as [[e|outcome] w']. }
  split; [exact Hone|].
  intros calls. induction calls as [|c rest IH]; intros w k Hall; [reflexivity|].
  apply Forall_cons in Hall as [Hc Hrest]. unfold perform_all. cbn [foldl].
  fold (perform_all config rest (perform config c w)).
  rewrite IH by exact Hrest. now apply Hone.
Qed.

Lemma calls_stay_within_their_footprint_witness :
  redis (perform sample_config (Logout "c2") logged_in_world) !! session_key "c1"
  = redis logged_in_world !! session_key "c1".
Proof.
  apply (proj1 (calls_stay_within_their_footprint sample_config)).
  cbn. intros H. discriminate H.
Defined.

(** ** Phone challenges *)

Lemma sendVerificationCode_keeps_durable_store phone entropy now w :
  prisma (snd (sendVerificationCode phone entropy now w)) = prisma w.
Proof.
  assert (H : keeps (fun p => p = prisma w) (sendVerificationCode phone entropy now)
                    (fun _ => True)).
  { unfold sendVerificationCode.
    eapply keeps_bind with (Q := fun _ => True); [apply redis_set_keeps|intros _ _].
    eapply keeps_bind with (Q := fun _ => True); [apply redis_incr_keeps|intros attempts _].
    eapply keeps_bind with (Q := fun _ => True).
    - destruct (attempts =? 1); [apply redis_expire_keeps|now apply keeps_ret].
    - intros _ _. destruct (5 <? attempts); [apply keeps_throw|now apply keeps_ret]. }
  now apply (H w).
Qed.

(** X16. Sending a code to a phone that passes [sendCodeSchema] leaves the
    pending code and the attempt counter of every other phone that passes it
    exactly as they were, and changes nothing in the durable store. The
    validation matters: for an unvalidated "phone" that starts with
    [attempts:] the verification key is the attempt counter of the phone
    that follows. *)
Theorem sendVerificationCode_spares_other_phones phone other entropy now w :
  (sendCodeSchema phone = true -> sendCodeSchema other = true -> phone <> other ->
   let w' := snd (sendVerificationCode phone entropy now w) in
   redis w' !! verification_key other = redis w !! verification_key other /\
   redis w' !! attempts_key other = redis w !! attempts_key other /\
   prisma w' = prisma w)
  /\ verification_key ("attempts:" ++ other) = attempts_key other.
Proof.
  split; [|reflexivity].
  intros Hphone Hother Hdiff w'.
  apply phone_field_shape in Hphone as (c & rest & -> & _).
  apply phone_field_shape in Hother as (c' & rest' & -> & _).
  assert (Hkeys : forall k,
             k = verification_key (String "+" (String c' rest')) \/
             k = attempts_key (String "+" (String c' rest')) ->
             ~ (k = verification_key (String "+" (String c rest)) \/
                k = attempts_key (String "+" (String c rest)))).
  { intros k [->| ->] [H|H]; unfold verification_key, attempts_key in H;
      repeat (rewrite ?append_cons, ?append_nil in H); try discriminate H;
      injection H as H1 H2; apply Hdiff; congruence. }
  subst w'. repeat split.
  - apply sendVerificationCode_touches, Hkeys. now left.
  - apply sendVerificationCode_touches, Hkeys. now right.
  - apply sendVerificationCode_keeps_durable_store.
Qed.

Lemma sendVerificationCode_spares_other_phones_witness :
  redis (snd (sendVerificationCode "+14155551234" 7 1000 challenge_world))
    !! verification_key "+14155550000"
  = redis challenge_world !! verification_key "+14155550000".
Proof.
  apply (proj1 (sendVerificationCode_spares_other_phones
                  "+14155551234" "+14155550000" 7 1000 challenge_world));
    [reflexivity|reflexivity|discriminate].
Defined.

Lemma redis_incr_fresh key now w :
  live (redis w) key now = None ->
  redis_incr key now w =
  (inr 1, MkWorld (prisma w) (<[key := MkEntry (RString "1") None]> (redis w))).
Proof. intros Hnone. unfold redis_incr, bind, the_redis. now rewrite Hnone. Qed.

Lemma redis_expire_run key seconds now w e :
  live (redis w) key now = Some e ->
  redis_expire key seconds now w =
  (inr tt, MkWorld (prisma w)
             (<[key := MkEntry (rvalue e) (Some (now + seconds * 1000))]> (redis w))).
Proof. intros Hlive. unfold redis_expire, bind, the_redis. now rewrite Hlive. Qed.

Lemma sendVerificationCode_first phone entropy now w :
  live (redis w) (attempts_key phone) now = None ->
  sendVerificationCode phone entropy now w =
  (inr true,
   MkWorld (prisma w)
     (<[attempts_key phone := MkEntry (RString (dec 1)) (Some (now + 3600 * 1000))]>
        (<[attempts_key phone := MkEntry (RString "1") None]>
           (<[verification_key phone :=
                MkEntry (RString (generateVerificationCode entropy)) (Some (now + 300 * 1000))]>
              (redis w))))).
Proof.
  intros Hnone. pose proof (verification_key_not_attempts_key phone) as Hkeys.
  unfold sendVerificationCode.
  rewrite (bind_inr _ _ _ _ _ (redis_set_run _ _ 300 now w ltac:(lia))).
  set (w1 := MkWorld _ _).
  assert (Hnone1 : live (redis w1) (attempts_key phone) now = None).
  { rewrite <- Hnone. unfold live, w1. cbn [redis]. now rewrite lookup_insert_ne. }
  rewrite (bind_inr _ _ _ _ _ (redis_incr_fresh _ _ _ Hnone1)).
  change (1 =? 1) with true. cbv iota.
  erewrite bind_inr; [|apply (redis_expire_run _ _ _ _ (MkEntry (RString "1") None));
                       apply live_insert_eq].
  reflexivity.
Qed.

Lemma sendVerificationCode_next phone entropy now w n ttl :
  live (redis w) (attempts_key phone) now = Some (MkEntry (RString (dec n)) ttl) ->
  1 <= n ->
  sendVerificationCode phone entropy now w =
  ((if 5 <? n + 1 then inl RateLimited else inr true),
   MkWorld (prisma w)
     (<[attempts_key phone := MkEntry (RString (dec (n + 1))) ttl]>
        (<[verification_key phone :=
             MkEntry (RString (generateVerificationCode entropy)) (Some (now + 300 * 1000))]>
           (redis w)))).
Proof.
  intros Hlive Hn. pose proof (verification_key_not_attempts_key phone) as Hkeys.
  unfold sendVerificationCode.
  rewrite (bind_inr _ _ _ _ _ (redis_set_run _ _ 300 now w ltac:(lia))).
  set (w1 := MkWorld _ _).
  assert (Hlive1 : live (redis w1) (attempts_key phone) now
                   = Some (MkEntry (RString (dec n)) ttl)).
  { rewrite <- Hlive. unfold live, w1. cbn [redis]. now rewrite lookup_insert_ne. }
  rewrite (bind_inr _ _ _ _ _ (redis_incr_reads _ _ _ _ _ Hlive1)).
  destruct (Z.eqb_spec (n + 1) 1); [lia|].
  rewrite (bind_inr _ _ _ tt _ eq_refl).
  now destruct (5 <? n + 1).
Qed.

Lemma send_outcomes_counted phone deadline sends : forall w n,
  1 <= n ->
  redis w !! attempts_key phone = Some (MkEntry (RString (dec n)) (Some deadline)) ->
  Forall (fun s => snd s < deadline) sends ->
  send_outcomes phone sends w
  = List.map (fun i => if (Z.to_nat n + i <? 5)%nat then inr true else inl RateLimited)
             (List.seq 0 (List.length sends)).
Proof.
  induction sends as [|[entropy now] rest IH]; intros w n Hn Hcounter Hsoon; [reflexivity|].
  apply Forall_cons in Hsoon as [Hnow Hrest]. cbn [snd] in Hnow.
  cbn [send_outcomes List.length List.seq List.map].
  rewrite (sendVerificationCode_next phone entropy now w n (Some deadline)); [|
    unfold live; rewrite Hcounter; unfold expired; cbn [expireAt];
    destruct (Z.leb_spec deadline now); [lia|reflexivity] | exact Hn].
  f_equal.
  - rewrite Nat.add_0_r.
    destruct (Z.ltb_spec 5 (n + 1)); destruct (Nat.ltb_spec (Z.to_nat n) 5); try reflexivity; lia.
  - rewrite (IH _ (n + 1)); [| lia | cbn [redis]; apply lookup_insert_eq | exact Hrest].
    rewrite <- List.seq_shift, List.map_map. apply List.map_ext. intros i.
    replace (Z.to_nat (n + 1) + i)%nat with (Z.to_nat n + S i)%nat by lia. reflexivity.
Qed.

Lemma after_sends_counted phone deadline sends : forall w n,
  1 <= n ->
  redis w !! attempts_key phone = Some (MkEntry (RString (dec n)) (Some deadline)) ->
  Forall (fun s => snd s < deadline) sends ->
  redis (after_sends phone sends w) !! attempts_key phone
  = Some (MkEntry (RString (dec (n + Z.of_nat (List.length sends)))) (Some deadline)).
Proof.
  induction sends as [|[entropy now] rest IH]; intros w n Hn Hcounter Hsoon.
  - cbn [after_sends List.length]. now rewrite Z.add_0_r.
  - apply Forall_cons in Hsoon as [Hnow Hrest]. cbn [snd] in Hnow.
    cbn [after_sends List.length].
    rewrite (sendVerificationCode_next phone entropy now w n (Some deadline)); [|
      unfold live; rewrite Hcounter; unfold expired; cbn [expireAt];
      destruct (Z.leb_spec deadline now); [lia|reflexivity] | exact Hn].
    cbn [snd].
    rewrite (IH _ (n + 1)); [| lia | cbn [redis]; apply lookup_insert_eq | exact Hrest].
    replace (n + 1 + Z.of_nat (List.length rest))
      with (n + Z.of_nat (S (List.length rest))) by lia.
    reflexivity.
Qed.

(** X17. Five codes per hour: when a phone has no live attempt counter at
    the instant of a send (none was ever set, or the last one has expired),
    that send succeeds and starts a counter; of the sends that follow within
    the next 3600 seconds, the next four succeed and every further one throws
    the 429 error; and whatever was sent in between, the counter is dead
    again 3600 seconds after that first send, so that the cycle restarts. The
    window is anchored at the first send and is not extended by later
    ones. *)
Theorem sendVerificationCode_allows_five_per_hour phone entropy first rest w :
  live (redis w) (attempts_key phone) first = None ->
  Forall (fun s => snd s < first + 3600 * 1000) rest ->
  send_outcomes phone ((entropy, first) :: rest) w
  = List.map (fun i => if (i <? 5)%nat then inr true else inl RateLimited)
             (List.seq 0 (S (List.length rest)))
  /\ forall now,
       first + 3600 * 1000 <= now ->
       live (redis (after_sends phone ((entropy, first) :: rest) w)) (attempts_key phone) now
       = None.
Proof.
  intros Hnone Hsoon. cbn [send_outcomes after_sends List.seq List.map].
  rewrite (sendVerificationCode_first phone entropy first w Hnone). cbn [snd]. split.
  - f_equal.
    rewrite (send_outcomes_counted phone (first + 3600 * 1000) rest _ 1);
      [| lia | cbn [redis]; apply lookup_insert_eq | exact Hsoon].
    rewrite <- List.seq_shift, List.map_map. reflexivity.
  - intros now Hlate. unfold live.
    rewrite (after_sends_counted phone (first + 3600 * 1000) rest _ 1);
      [| lia | cbn [redis]; apply lookup_insert_eq | exact Hsoon].
    unfold expired. cbn [expireAt].
    destruct (Z.leb_spec (first + 3600 * 1000) now); [reflexivity|lia].
Qed.

Lemma sendVerificationCode_allows_five_per_hour_witness :
  send_outcomes "+14155551234"
    [(1%N, 1000); (2%N, 2000); (3%N, 3000); (4%N, 4000); (5%N, 5000); (6%N, 3600999); (7%N, 900)] empty_world
  = List.map (fun i => if (i <? 5)%nat then inr true else inl RateLimited) (List.seq 0 7).
Proof.
  apply (sendVerificationCode_allows_five_per_hour "+14155551234" 1 1000
           [(2%N, 2000); (3%N, 3000); (4%N, 4000); (5%N, 5000); (6%N, 3600999); (7%N, 900)]
           empty_world).
  - reflexivity.
  - repeat constructor; cbn; lia.
Defined.

Lemma sendVerificationCode_stores_code phone entropy now w :
  redis (snd (sendVerificationCode phone entropy now w)) !! verification_key phone
  = Some (MkEntry (RString (generateVerificationCode entropy)) (Some (now + 300 * 1000))).
Proof.
  pose proof (verification_key_not_attempts_key phone) as Hkeys.
  assert (Hother : ~ (verification_key phone = attempts_key phone)) by exact Hkeys.
  unfold sendVerificationCode.
  rewrite (bind_inr _ _ _ _ _ (redis_set_run _ _ 300 now w ltac:(lia))).
  set (w1 := MkWorld _ _).
  set (rest := bind _ _).
  assert (Hrest : touches_only (fun k => k = attempts_key phone) rest).
  { subst rest. frame. all: reflexivity. }
  rewrite (Hrest w1 _ Hother). apply lookup_insert_eq.
Qed.

Lemma verifyPhoneCode_accepts config phone code deviceType ip now w ttl :
  usable config ->
  code <> "" ->
  live (redis w) (verification_key phone) now = Some (MkEntry (RString code) ttl) ->
  exists response w',
    verifyPhoneCode config phone code deviceType ip now w = (inr response, w').
Proof.
  intros Hconfig Hcode Hlive. destruct w as [[users sessions counter] cache].
  cbn [redis] in Hlive.
  assert (Hend : forall user isNew w1,
             account_exists (User.id user) w1 ->
             exists response w',
               (let* tokens := createSession config (User.id user) deviceType ip now in
                ret (AuthResponse.Mk (summary user isNew) tokens)) w1 = (inr response, w')).
  { intros user isNew w1 Hexists.
    destruct (createSession_completes config (User.id user) deviceType ip now w1
                Hconfig Hexists) as (tokens & w' & Hrun & _).
    rewrite (bind_inr _ _ _ _ _ Hrun). eexists _, _. reflexivity. }
  unfold verifyPhoneCode.
  erewrite bind_inr; [|rewrite redis_get_run; cbn [redis]; rewrite Hlive; reflexivity].
  assert (truthy (Some code) = true) as -> by (destruct code; [contradiction|reflexivity]).
  rewrite bool_decide_eq_true_2 by reflexivity. cbn [negb].
  rewrite (bind_inr _ _ _ _ _ (redis_del_run _ _)).
  rewrite (bind_inr _ _ _ _ _ (user_findUnique_run _ _)).
  cbn [prisma redis user].
  destruct (List.find (user_matches (ByPhone phone)) users) as [u|] eqn:Hfind.
  - apply List.find_some in Hfind as [Hin _].
    destruct (includes "PHONE" (User.verifiedBadges u)); cbn [negb].
    + rewrite (bind_inr _ _ _ u _ eq_refl).
      apply Hend. now apply account_exists_intro.
    + destruct (find_exists (user_matches (ById (User.id u))) users u Hin) as [u0 Hu0].
      { unfold user_matches. now rewrite bool_decide_eq_true_2. }
      rewrite (bind_inr _ _ _ _ _
                 (user_update_run (User.id u)
                    (fun r => with_badges (User.verifiedBadges r ++ ["PHONE"]) r)
                    _ _ _ _ u0 Hu0
                    (update_keeps_unique_columns _ _ _ eq_refl eq_refl eq_refl eq_refl))).
      apply Hend.
      apply account_exists_replace. cbn [User.id with_badges].
      exists u0. cbn [prisma user].
      pose proof (List.find_some _ _ Hu0) as [_ Hid0].
      unfold user_matches in Hid0. apply bool_decide_eq_true_1 in Hid0.
      now rewrite Hid0.
  - assert (Hfree : violates_unique
                      (User.Mk (cuid counter) (Some phone) None None None None None None
                               ["PHONE"] now) users = false).
    { unfold violates_unique. cbn [User.phone User.email User.googleId User.appleId fmap
                                   option_fmap option_map taken].
      now rewrite (find_none_existsb _ _ Hfind). }
    rewrite (bind_inr _ _ _ _ _
               (user_create_run (Some phone) None None None None None ["PHONE"] now
                  (MkWorld (MkPrisma users sessions counter) (delete (verification_key phone) cache))
                  Hfree)).
    apply Hend.
    apply (account_exists_intro
             (User.Mk (cuid counter) (Some phone) None None None None None None ["PHONE"] now)).
    cbn [prisma user]. apply List.in_app_iff. right. now left.
Qed.

(** X18. The code of the latest [sendVerificationCode] for a phone is
    accepted by [verifyPhoneCode] at every instant before 300 seconds have
    passed since the send, and from then on every code is refused as expired
    or not found, with both stores unchanged. This holds whatever the send
    itself returned: a send refused with the 429 error has replaced the
    challenge all the same. *)
Theorem sent_code_is_accepted_for_five_minutes config phone entropy sent w :
  usable config ->
  let w1 := snd (sendVerificationCode phone entropy sent w) in
  (forall now deviceType ip,
      now < sent + 300 * 1000 ->
      exists response w2,
        verifyPhoneCode config phone (generateVerificationCode entropy) deviceType ip now w1
        = (inr response, w2))
  /\ (forall now code deviceType ip,
        sent + 300 * 1000 <= now ->
        verifyPhoneCode config phone code deviceType ip now w1
        = (inl (HttpError 400 "Verification code expired or not found"), w1)).
Proof.
  intros Hconfig w1.
  pose proof (sendVerificationCode_stores_code phone entropy sent w) as Hstored.
  fold w1 in Hstored. split.
  - intros now deviceType ip Hsoon.
    apply (verifyPhoneCode_accepts config phone _ deviceType ip now w1
             (Some (sent + 300 * 1000)) Hconfig (generateVerificationCode_nonempty entropy)).
    unfold live. rewrite Hstored. unfold expired. cbn [expireAt].
    destruct (Z.leb_spec (sent + 300 * 1000) now); [lia|reflexivity].
  - intros now code deviceType ip Hlate.
    apply verifyPhoneCode_without_challenge.
    unfold live. rewrite Hstored. unfold expired. cbn [expireAt].
    destruct (Z.leb_spec (sent + 300 * 1000) now); [reflexivity|lia].
Qed.

Lemma sent_code_is_accepted_for_five_minutes_witness :
  (exists response w2,
      verifyPhoneCode sample_config "+14155551234" (generateVerificationCode 42) None
        "10.0.0.1" 301999 (snd (sendVerificationCode "+14155551234" 42 2000 five_sends_world))
      = (inr response, w2))
  /\ verifyPhoneCode sample_config "+14155551234" (generateVerificationCode 42) None
       "10.0.0.1" 302000 (snd (sendVerificationCode "+14155551234" 42 2000 five_sends_world))
     = (inl (HttpError 400 "Verification code expired or not found"),
        snd (sendVerificationCode "+14155551234" 42 2000 five_sends_world)).
Proof.
  pose proof (sent_code_is_accepted_for_five_minutes sample_config "+14155551234" 42 2000
                five_sends_world sample_config_usable) as [Hsoon Hlate].
  split.
  - apply Hsoon. lia.
  - apply Hlate. lia.
Defined.

(** ** Logging out *)

(** X19. [logout] never throws and is idempotent: it removes the durable
    row and the cache entry of the session it is given, leaves every account,
    every other session row and every other cache entry as they were, and a
    second [logout] of the same session changes nothing at all. *)
Theorem logout_is_idempotent sessionId w :
  let w' := snd (logout sessionId w) in
  fst (logout sessionId w) = inr tt /\
  logout sessionId w' = (inr tt, w') /\
  user (prisma w') = user (prisma w) /\
  (forall s, In s (userSession (prisma w')) <->
             In s (userSession (prisma w)) /\ UserSession.id s <> sessionId) /\
  redis w' !! session_key sessionId = None /\
  (forall k, k <> session_key sessionId -> redis w' !! k = redis w !! k).
Proof.
  intros w'. subst w'. rewrite !logout_run. cbn [fst snd prisma redis user userSession seq].
  repeat split.
  - f_equal. f_equal; [f_equal|].
    + apply filter_filter_weaker. auto.
    + apply delete_delete_eq.
  - apply List.filter_In in H. apply H.
  - apply List.filter_In in H as [_ H]. unfold has_id in H.
    apply negb_true_iff, bool_decide_eq_false_1 in H. exact H.
  - intros [Hin Hid]. apply List.filter_In. split; [exact Hin|].
    unfold has_id. now rewrite bool_decide_eq_false_2.
  - apply lookup_delete_eq.
  - intros k Hk. now apply lookup_delete_ne.
Qed.

Lemma logout_is_idempotent_witness :
  redis (snd (logout "c1" logged_in_world)) !! session_key "c2"
  = redis logged_in_world !! session_key "c2".
Proof.
  apply (logout_is_idempotent "c1" logged_in_world). discriminate.
Defined.

(** ** The authentication hook *)



(** ** Invariants of the durable store under every call *)

(** A property of the durable store that the store commands preserve is
    preserved by every call of the service and of the authentication hook,
    whatever the call returns or throws. *)
Section Invariant.
Variables (config : Env) (J : Prisma -> Prop).
Hypothesis user_create_inv :
  forall phone email googleId appleId displayName avatarUrl badges now,
    keeps J (user_create phone email googleId appleId displayName avatarUrl badges now)
          (fun _ => True).
Hypothesis user_update_inv :
  forall id data, keeps_identity data -> keeps J (user_update id data) (fun _ => True).
Hypothesis userSession_create_inv :
  forall userId hash deviceType ip expiresAt now,
    keeps J (userSession_create userId hash deviceType ip expiresAt now) (fun _ => True).
Hypothesis userSession_update_inv :
  forall id data, (forall s, UserSession.id (data s) = UserSession.id s) ->
                  keeps J (userSession_update id data) (fun _ => True).
Hypothesis userSession_delete_inv :
  forall id, keeps J (userSession_delete id) (fun _ => True).
Hypothesis userSession_deleteMany_inv :
  forall where_, keeps J (userSession_deleteMany where_) (fun _ => True).

Ltac reads := now apply keeps_cache_only.
Ltac identity := intros row; repeat split.
Ltac next_with lemma := eapply keeps_bind with (Q := fun _ => True); [apply lemma|intros ? _].
Ltac next_reads := eapply keeps_bind with (Q := fun _ => True); [reads|intros ? _].
Ltac finish := try (intros; now apply keeps_ret); try (intros; apply keeps_throw).

Lemma or_throw_inv {A} (o : option A) e : keeps J (or_throw o e) (fun _ => True).
Proof. destruct o; finish. Qed.

Lemma invalidateUserSessions_inv userId :
  keeps J (invalidateUserSessions userId) (fun _ => True).
Proof.
  unfold invalidateUserSessions. next_reads.
  apply keeps_for_each. intros s. apply redis_del_keeps.
Qed.

Lemma createSession_inv userId deviceType ip now :
  keeps J (createSession config userId deviceType ip now) (fun _ => True).
Proof.
  unfold createSession.
  next_with @or_throw_inv. next_with userSession_create_inv.
  next_with @or_throw_inv. next_with @or_throw_inv.
  eapply keeps_bind with (Q := fun _ => True);
    [apply userSession_update_inv; reflexivity|intros _ _].
  next_with redis_set_keeps.
  eapply keeps_bind with (Q := fun _ => True);
    [apply user_update_inv; identity|intros _ _].
  next_reads.
  eapply keeps_bind with (Q := fun _ => True); [|finish].
  destruct (5 <? List.length _)%nat; [|finish].
  next_with userSession_deleteMany_inv.
  apply keeps_for_each. intros s. apply redis_del_keeps.
Qed.

Lemma sendVerificationCode_inv phone entropy now :
  keeps J (sendVerificationCode phone entropy now) (fun _ => True).
Proof.
  unfold sendVerificationCode.
  next_with redis_set_keeps. next_with redis_incr_keeps.
  eapply keeps_bind with (Q := fun _ => True).
  { destruct (_ =? 1); [apply redis_expire_keeps|finish]. }
  intros _ _. destruct (5 <? _); finish.
Qed.

Lemma verifyPhoneCode_inv phone code deviceType ip now :
  keeps J (verifyPhoneCode config phone code deviceType ip now) (fun _ => True).
Proof.
  unfold verifyPhoneCode.
  next_with redis_get_keeps.
  destruct (negb (truthy _)); [finish|].
  destruct (negb (bool_decide _)); [finish|].
  next_with redis_del_keeps. next_reads.
  eapply keeps_bind with (Q := fun _ => True).
  { destruct a1 as [u|]; [|apply user_create_inv].
    destruct (negb (includes "PHONE" (User.verifiedBadges u)));
      [apply user_update_inv; identity|finish]. }
  intros user _.
  next_with createSession_inv. finish.
Qed.

Lemma authenticateWithGoogle_inv idToken deviceType ip now :
  keeps J (authenticateWithGoogle config idToken deviceType ip now) (fun _ => True).
Proof.
  unfold authenticateWithGoogle. destruct idToken as [claims|raw]; [|finish].
  next_reads.
  eapply keeps_bind with (Q := fun _ => True);
    [|intros user _; next_with createSession_inv; finish].
  destruct a as [u|]; [finish|].
  eapply keeps_bind with (Q := fun _ => True).
  { destruct (truthy (id_email claims)); [|finish].
    next_reads.
    destruct a as [existing|]; [|finish].
    eapply keeps_bind with (Q := fun _ => True);
      [apply user_update_inv; identity|finish]. }
  intros linked _. destruct linked; [finish|apply user_create_inv].
Qed.

Lemma authenticateWithApple_inv identityToken fullName deviceType ip now :
  keeps J (authenticateWithApple config identityToken fullName deviceType ip now)
        (fun _ => True).
Proof.
  unfold authenticateWithApple. destruct identityToken as [claims|raw]; [|finish].
  next_reads.
  eapply keeps_bind with (Q := fun _ => True);
    [|intros user _; next_with createSession_inv; finish].
  destruct a as [u|]; [finish|apply user_create_inv].
Qed.

Lemma logout_inv sessionId : keeps J (logout sessionId) (fun _ => True).
Proof.
  unfold logout.
  eapply keeps_bind; [eapply keeps_swallow, userSession_delete_inv|].
  intros _ _. apply redis_del_keeps.
Qed.

Lemma refreshTokens_inv token ip now :
  keeps J (refreshTokens config token ip now) (fun _ => True).
Proof.
  unfold refreshTokens.
  destruct (verifyRefreshToken config token now) as [payload|]; [|finish].
  next_reads. destruct a as [session|].
  - next_with @or_throw_inv. next_with @or_throw_inv. next_with @or_throw_inv.
    eapply keeps_bind with (Q := fun _ => True);
      [apply userSession_update_inv; reflexivity|intros _ _].
    next_with redis_set_keeps. finish.
  - next_with userSession_deleteMany_inv.
    next_with invalidateUserSessions_inv. finish.
Qed.

Lemma authenticate_inv authorization now w :
  J (prisma w) -> J (prisma (snd (authenticate config authorization now w))).
Proof.
  intros HJ. unfold authenticate.
  destruct authorization as [[token|raw]|]; [|exact HJ|exact HJ].
  assert (Hbody : keeps J (authenticate_body config token now) (fun _ => True)).
  { unfold authenticate_body.
    next_with @or_throw_inv. next_with redis_exists_keeps.
    eapply keeps_bind with (Q := fun _ => True);
      [|intros early _; destruct early; finish].
    destruct (negb _); [|finish].
    next_reads.
    destruct a1 as [session|]; [|finish].
    destruct (UserSession.expiresAt session <? now); [finish|].
    eapply keeps_bind with (Q := fun _ => True); [|finish].
    destruct (0 <? _); [apply redis_set_keeps|finish]. }
  destruct (Hbody w HJ) as [HJ' _].
  now destruct (authenticate_body config token now w) as [[e|outcome] w'].
Qed.

Lemma perform_inv c w : J (prisma w) -> J (prisma (perform config c w)).
Proof.
  intros HJ. destruct c; cbn [perform].
  - now apply sendVerificationCode_inv.
  - now apply verifyPhoneCode_inv.
  - now apply authenticateWithGoogle_inv.
  - now apply authenticateWithApple_inv.
  - now apply refreshTokens_inv.
  - now apply logout_inv.
  - now apply authenticate_inv.
Qed.

Lemma perform_all_inv calls : forall w,
  J (prisma w) -> J (prisma (perform_all config calls w)).
Proof.
  induction calls as [|c calls IH]; intros w HJ; [exact HJ|].
  unfold perform_all. cbn [foldl]. apply IH. now apply perform_inv.
Qed.
End Invariant.

(** ** Well-formed stores *)

Lemma drawn_grows (p p' : Prisma) id : (seq p <= seq p')%N -> drawn p id -> drawn p' id.
Proof. intros Hle (k & Hk & ->). exists k. split; [lia|reflexivity]. Qed.

Lemma well_formed_grows users sessions counter counter' :
  (counter <= counter')%N ->
  well_formed (MkPrisma users sessions counter) ->
  well_formed (MkPrisma users sessions counter').
Proof.
  intros Hle [[Hs Hsd] [Hu Hud]]. cbn [user userSession] in *.
  repeat split; cbn [user userSession]; try assumption.
  - eapply Forall_impl; [exact Hsd|]. intros s. now apply drawn_grows.
  - eapply Forall_impl; [exact Hud|]. intros u. now apply drawn_grows.
Qed.

Lemma well_formed_filter users sessions counter (P : UserSession.t -> bool) :
  well_formed (MkPrisma users sessions counter) ->
  well_formed (MkPrisma users (List.filter P sessions) counter).
Proof.
  intros [[Hs Hsd] Hu]. cbn [userSession] in *. split; [|exact Hu].
  split; cbn [userSession].
  - now apply NoDup_map_filter.
  - apply Forall_forall. intros s Hs'. rewrite Forall_forall in Hsd.
    apply list_elem_of_In, List.filter_In in Hs' as [Hs' _].
    apply (Hsd s), list_elem_of_In, Hs'.
Qed.

Lemma replace_user_ids u' rows :
  List.map User.id (replace_user u' rows) = List.map User.id rows.
Proof.
  unfold replace_user. rewrite List.map_map. apply List.map_ext.
  intros x. apply replace_user_keeps_id.
Qed.

Lemma well_formed_user_create phone email googleId appleId displayName avatarUrl badges now :
  keeps well_formed
        (user_create phone email googleId appleId displayName avatarUrl badges now)
        (fun _ => True).
Proof.
  intros [[users sessions counter] cache] Hwf. cbn [prisma] in Hwf.
  unfold user_create, bind, the_prisma, put_prisma, ret, throw. cbn [prisma user seq userSession].
  destruct (violates_unique _ users); cbn [fst snd prisma]; (split; [|easy]); [exact Hwf|].
  apply (well_formed_grows _ _ counter (N.succ counter)) in Hwf as Hwf'; [|lia].
  destruct Hwf as [_ [_ Hdrawn]]. destruct Hwf' as [Hs [Hu Hud]].
  cbn [user userSession] in *. split; [exact Hs|]. split; cbn [user].
  - rewrite List.map_app. apply NoDup_app. split; [exact Hu|]. split.
    + intros id Hid Hnew. cbn in Hnew. apply list_elem_of_singleton in Hnew. subst id.
      apply list_elem_of_In, List.in_map_iff in Hid as (u & Hid & Hin).
      rewrite Forall_forall in Hdrawn. apply list_elem_of_In, Hdrawn in Hin.
      apply drawn_not_next in Hin. cbn [seq] in Hin. congruence.
    + cbn. apply NoDup_singleton.
  - apply Forall_app. split; [exact Hud|]. constructor; [|constructor].
    exists counter. cbn [seq User.id]. split; [lia|reflexivity].
Qed.

Lemma well_formed_user_update id data :
  keeps_identity data -> keeps well_formed (user_update id data) (fun _ => True).
Proof.
  intros Hdata [[users sessions counter] cache] Hwf. cbn [prisma] in Hwf.
  unfold user_update, bind, the_prisma, put_prisma, ret, throw. cbn [prisma user seq userSession].
  destruct (List.find _ users) as [u|]; cbn [fst snd prisma]; [|now split].
  destruct (update_violates_unique _ _ users); cbn [fst snd prisma]; (split; [|easy]);
    [exact Hwf|].
  destruct Hwf as [Hs [Hu Hud]]. split; [exact Hs|]. cbn [user] in *. split; cbn [user].
  - now rewrite replace_user_ids.
  - apply Forall_forall. intros x Hx.
    apply list_elem_of_In in Hx. unfold replace_user in Hx.
    apply List.in_map_iff in Hx as (y & <- & Hy).
    rewrite replace_user_keeps_id. rewrite Forall_forall in Hud.
    destruct (Hud y (proj2 (list_elem_of_In _ _) Hy)) as (k & Hk & Hid).
    exists k. split; [exact Hk|exact Hid].
Qed.

Lemma well_formed_userSession_create userId hash deviceType ip expiresAt now :
  keeps well_formed (userSession_create userId hash deviceType ip expiresAt now)
        (fun _ => True).
Proof.
  intros [[users sessions counter] cache] Hwf. cbn [prisma] in Hwf.
  rewrite userSession_create_run. cbn [fst snd prisma user userSession seq].
  split; [|easy].
  pose proof (rows_keyed (MkPrisma users sessions counter)
                (UserSession.Mk (cuid counter) userId hash deviceType ip expiresAt now)
                (proj1 Hwf) eq_refl) as Hkeyed.
  apply (well_formed_grows _ _ counter (N.succ counter)) in Hwf as [[_ Hsd] Hu]; [|lia].
  cbn [userSession] in *. split; [|exact Hu]. split; cbn [userSession].
  - exact Hkeyed.
  - apply Forall_app. split; [exact Hsd|]. constructor; [|constructor].
    exists counter. cbn [seq UserSession.id]. split; [lia|reflexivity].
Qed.

Lemma well_formed_userSession_update id data :
  (forall s, UserSession.id (data s) = UserSession.id s) ->
  keeps well_formed (userSession_update id data) (fun _ => True).
Proof.
  intros Hdata [[users sessions counter] cache] Hwf. cbn [prisma] in Hwf.
  unfold userSession_update, bind, the_prisma, put_prisma, ret, throw.
  cbn [prisma userSession user seq].
  destruct (List.find _ sessions) as [found|]; cbn [fst snd prisma]; [|now split].
  split; [|easy]. destruct Hwf as [[Hs Hsd] Hu]. split; [|exact Hu].
  cbn [userSession] in *.
  assert (Hids : List.map UserSession.id
                   (List.map (fun r => if has_id id r then data r else r) sessions)
                 = List.map UserSession.id sessions).
  { rewrite List.map_map. apply List.map_ext. intros r.
    destruct (has_id id r); [apply Hdata|reflexivity]. }
  split; cbn [userSession].
  - now rewrite Hids.
  - apply Forall_forall. intros x Hx.
    apply list_elem_of_In, List.in_map_iff in Hx as (y & <- & Hy).
    rewrite Forall_forall in Hsd.
    destruct (Hsd y (proj2 (list_elem_of_In _ _) Hy)) as (k & Hk & Hid).
    exists k. split; [exact Hk|].
    destruct (has_id id y); [now rewrite Hdata|exact Hid].
Qed.

Lemma well_formed_userSession_delete id :
  keeps well_formed (userSession_delete id) (fun _ => True).
Proof.
  intros [[users sessions counter] cache] Hwf. cbn [prisma] in Hwf.
  unfold userSession_delete, bind, the_prisma, put_prisma, throw.
  cbn [prisma userSession user seq].
  destruct (List.find _ sessions); cbn [fst snd prisma]; (split; [|easy]).
  - now apply well_formed_filter.
  - exact Hwf.
Qed.

Lemma well_formed_userSession_deleteMany where_ :
  keeps well_formed (userSession_deleteMany where_) (fun _ => True).
Proof.
  intros [[users sessions counter] cache] Hwf. cbn [prisma] in Hwf.
  rewrite userSession_deleteMany_run. cbn [fst snd prisma user userSession seq].
  split; [|easy]. now apply well_formed_filter.
Qed.

(** X21. Every store that the service can reach is well formed: starting
    from the empty stores, or from any store in which session ids and account
    ids are pairwise distinct and were drawn from the id counter, the same
    holds after any sequence of service calls and runs of the [authenticate]
    hook, with any configuration and whatever the calls return or throw. *)
Theorem reachable_stores_are_well_formed config calls :
  well_formed (prisma empty_world) /\
  forall w, well_formed (prisma w) -> well_formed (prisma (perform_all config calls w)).
Proof.
  split.
  - repeat split; cbn; constructor.
  - apply perform_all_inv.
    + apply well_formed_user_create.
    + apply well_formed_user_update.
    + apply well_formed_userSession_create.
    + apply well_formed_userSession_update.
    + apply well_formed_userSession_delete.
    + apply well_formed_userSession_deleteMany.
Qed.

Lemma reachable_stores_are_well_formed_witness :
  well_formed (prisma (perform_all sample_config later_calls empty_world)).
Proof.
  exact (proj2 (reachable_stores_are_well_formed sample_config later_calls) empty_world
           (proj1 (reachable_stores_are_well_formed sample_config []))).
Defined.

(** ** Accounts persist *)

Lemma find_app_some {A} (P : A -> bool) (l k : list A) x :
  List.find P l = Some x -> List.find P (l ++ k)%list = Some x.
Proof.
  induction l as [|a l IH]; [discriminate|]. cbn. destruct (P a); auto.
Qed.

Section AccountIdentity.
Variables (userId : string) (phone email appleId : option string).
Let J := account_is userId phone email appleId.

Lemma account_is_user_create phone' email' googleId' appleId' displayName avatarUrl badges now :
  keeps J (user_create phone' email' googleId' appleId' displayName avatarUrl badges now)
        (fun _ => True).
Proof.
  intros [[users sessions counter] cache] HJ. cbn [prisma] in HJ.
  unfold user_create, bind, the_prisma, put_prisma, ret, throw. cbn [prisma user seq userSession].
  destruct (violates_unique _ users); cbn [fst snd prisma]; (split; [|easy]); [exact HJ|].
  destruct HJ as (u & Hfind & Hrest). exists u. cbn [user prisma] in *.
  split; [|exact Hrest]. now apply find_app_some.
Qed.

Lemma account_is_user_update id data :
  keeps_identity data -> keeps J (user_update id data) (fun _ => True).
Proof.
  intros Hdata [[users sessions counter] cache] HJ. cbn [prisma] in HJ.
  unfold user_update, bind, the_prisma, put_prisma, ret, throw. cbn [prisma user seq userSession].
  destruct (List.find (user_matches (ById id)) users) as [u0|] eqn:Hfound;
    cbn [fst snd prisma]; [|now split].
  destruct (update_violates_unique _ _ users); cbn [fst snd prisma]; (split; [|easy]);
    [exact HJ|].
  destruct HJ as (u & Hfind & Hphone & Hemail & Happle). cbn [user prisma] in *.
  unfold J, account_is, replace_user. cbn [user].
  rewrite (find_user_after_update userId _ users u);
    [|intros x; apply replace_user_keeps_id|exact Hfind].
  eexists. split; [reflexivity|].
  destruct (bool_decide (User.id u = User.id (data u0))) eqn:Hsame; [|auto].
  apply bool_decide_eq_true_1 in Hsame.
  destruct (Hdata u0) as (Hid & Hp & He & Ha). rewrite Hid in Hsame.
  assert (u = u0) as ->.
  { pose proof (List.find_some _ _ Hfind) as [_ Hu].
    pose proof (List.find_some _ _ Hfound) as [_ Hu0].
    unfold user_matches in Hu, Hu0.
    apply bool_decide_eq_true_1 in Hu. apply bool_decide_eq_true_1 in Hu0.
    assert (userId = id) by congruence. subst id. congruence. }
  rewrite Hp, He, Ha. auto.
Qed.

Lemma account_is_sessions_only {A} (m : M A) :
  (forall w, user (prisma (snd (m w))) = user (prisma w)) -> keeps J m (fun _ => True).
Proof.
  intros Hm w HJ. split; [|easy]. unfold J, account_is in *. now rewrite Hm.
Qed.
End AccountIdentity.

(** X22. No call ever removes an account or changes its id, phone, email or
    Apple subject: an account that has a row with given phone, email and
    Apple subject has such a row after any sequence of service calls and runs
    of the [authenticate] hook. (The Google subject is not among these: the
    link by email of [authenticateWithGoogle] overwrites it.) *)
Theorem accounts_keep_their_identity config userId phone email appleId calls w :
  account_is userId phone email appleId (prisma w) ->
  account_is userId phone email appleId (prisma (perform_all config calls w)).
Proof.
  apply perform_all_inv.
  - apply account_is_user_create.
  - apply account_is_user_update.
  - intros. apply account_is_sessions_only. reflexivity.
  - intros id data _. apply account_is_sessions_only. intros w'.
    unfold userSession_update, bind, the_prisma. now destruct (List.find _ _).
  - intros id. apply account_is_sessions_only. intros w'.
    unfold userSession_delete, bind, the_prisma. now destruct (List.find _ _).
  - intros where_. apply account_is_sessions_only. reflexivity.
Qed.

Lemma accounts_keep_their_identity_witness :
  account_is "c0" None (Some "sam@example.com") None
    (prisma (perform_all sample_config later_calls logged_in_world)).
Proof.
  apply (accounts_keep_their_identity sample_config "c0" None (Some "sam@example.com") None
           later_calls logged_in_world).
  vm_compute. eexists. repeat split.
Defined.

(** ** Refreshing *)

Lemma find_the_only {A} (P : A -> bool) (l : list A) x :
  In x l -> P x = true -> (forall y, In y l -> P y = true -> y = x) ->
  List.find P l = Some x.
Proof.
  intros Hin HP Honly. destruct (List.find P l) as [y|] eqn:Hfind.
  - apply List.find_some in Hfind as [Hy HPy]. f_equal. now apply Honly.
  - pose proof (List.find_none _ _ Hfind x Hin). congruence.
Qed.

Lemma unexpired_token_unexpired_row now now' lifetime :
  now' / 1000 < now / 1000 + lifetime / 1000 -> now' < now + lifetime.
Proof.
  intros H.
  pose proof (Z.mul_div_le now 1000 ltac:(lia)).
  pose proof (Z.mul_div_le lifetime 1000 ltac:(lia)).
  pose proof (Z.mul_succ_div_gt now' 1000 ltac:(lia)). lia.
Qed.

Lemma verify_issued_refresh config userId sessionId now lifetime now' payload :
  verifyRefreshToken config (issued (JWT_REFRESH_SECRET config) userId sessionId now lifetime) now'
  = Some payload ->
  payload = JwtPayload.Mk userId sessionId (now / 1000) (now / 1000 + lifetime / 1000) /\
  now' / 1000 < now / 1000 + lifetime / 1000.
Proof.
  unfold verifyRefreshToken, issued, jwt_verify.
  rewrite bool_decide_eq_true_2 by reflexivity. cbn [JwtPayload.exp].
  destruct (Z.leb_spec (now / 1000 + lifetime / 1000) (now' / 1000)); [discriminate|].
  intros [= <-]. split; [reflexivity|lia].
Qed.

Lemma refreshTokens_accepts config token ip now users sessions counter cache
      payload session accessMs refreshMs :
  verifyRefreshToken config token now = Some payload ->
  NoDup (List.map UserSession.id sessions) ->
  In session sessions ->
  UserSession.id session = JwtPayload.sessionId payload ->
  UserSession.refreshTokenHash session = hashToken (compact token) ->
  now < UserSession.expiresAt session ->
  parseDuration (JWT_ACCESS_EXPIRATION config) = Some accessMs ->
  parseDuration (JWT_REFRESH_EXPIRATION config) = Some refreshMs ->
  1000 <= refreshMs ->
  let newRefreshToken :=
    issued (JWT_REFRESH_SECRET config) (UserSession.userId session) (UserSession.id session)
           now refreshMs in
  refreshTokens config token ip now (MkWorld (MkPrisma users sessions counter) cache) =
  (inr (AuthTokens.Mk
          (issued (JWT_ACCESS_SECRET config) (UserSession.userId session)
                  (UserSession.id session) now accessMs)
          newRefreshToken 900),
   MkWorld
     (MkPrisma users
        (List.map (fun r => if has_id (UserSession.id session) r
                            then rotated (hashToken (compact newRefreshToken)) ip
                                         (now + refreshMs) r
                            else r) sessions)
        counter)
     (<[session_key (UserSession.id session) :=
          MkEntry (RString (UserSession.userId session))
                  (Some (now + refreshMs / 1000 * 1000))]> cache)).
Proof.
  intros Hverified Hkey Hin Hid Hhash Hlive Ha Hr Hlong.
  apply (refreshTokens_rotate_run config token ip now users sessions counter cache
           payload session accessMs refreshMs); try assumption.
  apply find_the_only; [exact Hin| |].
  - rewrite !bool_decide_eq_true_2 by assumption. cbn [andb]. now apply Z.ltb_lt.
  - intros y Hy Hmatch.
    apply andb_true_iff in Hmatch as [Hmatch _].
    apply andb_true_iff in Hmatch as [Hid' _]. apply bool_decide_eq_true_1 in Hid'.
    apply (NoDup_map_eq UserSession.id sessions); auto. congruence.
Qed.

Lemma rotated_rows_keep_ids sid (f : UserSession.t -> UserSession.t) sessions :
  (forall s, UserSession.id (f s) = UserSession.id s) ->
  List.map UserSession.id (List.map (fun r => if has_id sid r then f r else r) sessions)
  = List.map UserSession.id sessions.
Proof.
  intros Hf. rewrite List.map_map. apply List.map_ext. intros r.
  destruct (has_id sid r); [apply Hf|reflexivity].
Qed.

(** X23. The refresh token that a login returns is accepted by the next
    rotation. [createSession] for an existing account on a well-keyed store
    (fewer than five of the account's sessions being dated at or after the
    call, so that the new session is not evicted at once) leaves a row of
    that account which holds the digest of the returned refresh token and
    expires one refresh lifetime after the call. A [refreshTokens] call with
    the returned token succeeds at every instant at which the token still
    verifies and the row has not expired, the token names that row, and the
    access token handed back names the same account and session. The two
    conditions are separate on purpose: the source dates the row before the
    insert and the token after it, so the token may verify for up to a
    second after the row has expired. *)
Theorem login_refresh_token_is_accepted config w userId deviceType ip now refreshMs :
  usable config -> store_ok (prisma w) -> account_exists userId w ->
  parseDuration (JWT_REFRESH_EXPIRATION config) = Some refreshMs ->
  (not_older userId now (userSession (prisma w)) < 5)%nat ->
  exists tokens w1 session,
    createSession config userId deviceType ip now w = (inr tokens, w1) /\
    In session (userSession (prisma w1)) /\
    UserSession.userId session = userId /\
    UserSession.refreshTokenHash session
    = hashToken (compact (AuthTokens.refreshToken tokens)) /\
    UserSession.expiresAt session = now + refreshMs /\
    forall ip' now' payload,
      verifyRefreshToken config (AuthTokens.refreshToken tokens) now' = Some payload ->
      now' < UserSession.expiresAt session ->
      UserSession.id session = JwtPayload.sessionId payload /\
      exists pair w2 claims,
        refreshTokens config (AuthTokens.refreshToken tokens) ip' now' w1 = (inr pair, w2) /\
        decodeToken (AuthTokens.accessToken pair) = Some claims /\
        JwtPayload.userId claims = userId /\
        JwtPayload.sessionId claims = JwtPayload.sessionId payload.
Proof.
  intros (accessMs & refreshMs' & Ha & Hr & HlongA & HlongR) [Hkey Hdrawn] [u Hu] Hr' Hfew.
  assert (refreshMs' = refreshMs) as -> by congruence.
  set (s := new_session config userId deviceType ip now refreshMs (prisma w)).
  set (rows := (userSession (prisma w) ++ [s])%list).
  assert (Hkept : s ∉ evicted userId rows).
  { apply (newest_not_evicted userId now (userSession (prisma w)) s);
      [reflexivity|reflexivity|exact Hfew]. }
  assert (Hid : UserSession.id s ∉ List.map UserSession.id (evicted userId rows)).
  { apply (new_id_not_evicted (prisma w)); [exact Hdrawn|reflexivity| |exact Hkept].
    intros g Hg. exact (evicted_among_rows userId rows g Hg). }
  assert (Hrow : In s (List.filter
                         (fun r => negb (bool_decide
                            (UserSession.id r ∈ List.map UserSession.id (evicted userId rows))))
                         rows)).
  { apply List.filter_In. split.
    - apply List.in_app_iff. right. now left.
    - now rewrite bool_decide_eq_false_2. }
  exists (AuthTokens.Mk
            (issued (JWT_ACCESS_SECRET config) userId (cuid (seq (prisma w))) now accessMs)
            (issued (JWT_REFRESH_SECRET config) userId (cuid (seq (prisma w))) now refreshMs)
            900).
  eexists _, s. split.
  { apply (createSession_ok config userId deviceType ip now w accessMs refreshMs u);
      assumption. }
  cbn [AuthTokens.refreshToken prisma userSession].
  split; [exact Hrow|]. split; [reflexivity|]. split; [reflexivity|]. split; [reflexivity|].
  intros ip' now' payload Hverified Hlive.
  apply verify_issued_refresh in Hverified as Hclaims. destruct Hclaims as [-> _].
  split; [reflexivity|].
  eexists _, _, _. split.
  { eapply (refreshTokens_accepts config _ ip' now' _ _ _ _ _ s accessMs refreshMs);
      try eassumption; try reflexivity.
    apply NoDup_map_filter. apply (rows_keyed (prisma w) s); [now split|reflexivity]. }
  split; [reflexivity|split; reflexivity].
Qed.

Lemma login_refresh_token_is_accepted_witness :
  exists tokens w1,
    createSession sample_config "c0" None "10.0.0.1" 1000 one_user_world = (inr tokens, w1) /\
    exists pair w2,
      refreshTokens sample_config (AuthTokens.refreshToken tokens) "10.0.0.2" 5000 w1
      = (inr pair, w2).
Proof.
  destruct (login_refresh_token_is_accepted sample_config one_user_world "c0" None
              "10.0.0.1" 1000 2592000000)
    as (tokens & w1 & session & Hrun & _ & _ & _ & Hexpiry & Hnext).
  - exact sample_config_usable.
  - split; cbn; constructor.
  - exists sample_user. reflexivity.
  - reflexivity.
  - cbn. lia.
  - exists tokens, w1. split; [exact Hrun|].
    assert (Htoken : AuthTokens.refreshToken tokens
                     = issued (JWT_REFRESH_SECRET sample_config) "c0" "c1" 1000 2592000000).
    { vm_compute in Hrun. injection Hrun as <- _. reflexivity. }
    destruct (Hnext "10.0.0.2" 5000 (JwtPayload.Mk "c0" "c1" 1 2592001))
      as (_ & pair & w2 & _ & Hrefresh & _).
    + rewrite Htoken. reflexivity.
    + rewrite Hexpiry. lia.
    + eauto.
Defined.



(** X25. Rotation chains: the refresh token returned by a successful
    rotation is itself accepted by [refreshTokens] at every later instant at
    which it still verifies, provided no other call has touched the store in
    between; so a client that always presents the latest token it was given
    can keep its session indefinitely. *)
Theorem rotated_token_is_accepted_next config w token payload session ip now :
  usable config -> store_ok (prisma w) ->
  verifyRefreshToken config token now = Some payload ->
  In session (userSession (prisma w)) ->
  UserSession.id session = JwtPayload.sessionId payload ->
  UserSession.refreshTokenHash session = hashToken (compact token) ->
  now < UserSession.expiresAt session ->
  exists pair w',
    refreshTokens config token ip now w = (inr pair, w') /\
    forall ip' now' payload',
      verifyRefreshToken config (AuthTokens.refreshToken pair) now' = Some payload' ->
      exists pair' w'',
        refreshTokens config (AuthTokens.refreshToken pair) ip' now' w' = (inr pair', w'') /\
        JwtPayload.sessionId payload' = JwtPayload.sessionId payload /\
        JwtPayload.userId payload' = UserSession.userId session.
Proof.
  intros (accessMs & refreshMs & Ha & Hr & HlongA & Hlong) [Hkey Hdrawn]
         Hverified Hin Hid Hhash Hlive.
  destruct w as [[users sessions counter] cache]. cbn [prisma userSession user redis] in *.
  eexists _, _. split.
  { apply (refreshTokens_accepts config token ip now users sessions counter cache
             payload session accessMs refreshMs); assumption. }
  cbn [AuthTokens.refreshToken]. intros ip' now' payload' Hverified'.
  apply verify_issued_refresh in Hverified' as Hclaims. destruct Hclaims as [-> Hsoon].
  set (token' := issued (JWT_REFRESH_SECRET config) (UserSession.userId session)
                        (UserSession.id session) now refreshMs) in *.
  eexists _, _. split; [|split; [exact Hid|reflexivity]].
  eapply (refreshTokens_accepts config token' ip' now' _ _ _ _ _
            (rotated (hashToken (compact token')) ip (now + refreshMs) session)
            accessMs refreshMs); try eassumption; try reflexivity.
  - rewrite rotated_rows_keep_ids; [exact Hkey|reflexivity].
  - apply List.in_map_iff. exists session. split; [|exact Hin].
    unfold has_id. now rewrite bool_decide_eq_true_2.
  - cbn [rotated UserSession.expiresAt]. now apply unexpired_token_unexpired_row.
Qed.

Lemma rotated_token_is_accepted_next_witness :
  exists pair w',
    refreshTokens sample_config first_refresh_token "10.0.0.1" 2500 logged_in_world
    = (inr pair, w') /\
    exists pair' w'',
      refreshTokens sample_config (AuthTokens.refreshToken pair) "10.0.0.1" 9000 w'
      = (inr pair', w'').
Proof.
  destruct (rotated_token_is_accepted_next sample_config logged_in_world
              first_refresh_token (JwtPayload.Mk "c0" "c1" 1 2592001) first_session
              "10.0.0.1" 2500) as (pair & w' & Hrun & Hnext).
  - exact sample_config_usable.
  - exact logged_in_world_ok.
  - reflexivity.
  - vm_compute. left. reflexivity.
  - reflexivity.
  - reflexivity.
  - reflexivity.
  - exists pair, w'. split; [exact Hrun|].
    assert (Hpair : AuthTokens.refreshToken pair
                    = issued (JWT_REFRESH_SECRET sample_config) "c0" "c1" 2500 2592000000).
    { vm_compute in Hrun. injection Hrun as <- _. reflexivity. }
    destruct (Hnext "10.0.0.1" 9000 (JwtPayload.Mk "c0" "c1" 2 2592002))
      as (pair' & w'' & Hagain & _).
    + rewrite Hpair. reflexivity.
    + eauto.
Defined.



(** ** Which account a login resolves to *)

Lemma find_map_same {A} (P : A -> bool) (f : A -> A) (l : list A) :
  (forall x, In x l -> P (f x) = P x) ->
  List.find P (List.map f l) = f <$> List.find P l.
Proof.
  induction l as [|a l IH]; intros Hsame; [reflexivity|].
  cbn [List.map List.find]. rewrite (Hsame a (or_introl eq_refl)).
  destruct (P a); [reflexivity|]. apply IH. intros x Hx. apply Hsame. now right.
Qed.

Lemma find_app_none {A} (P : A -> bool) (l k : list A) :
  List.find P l = None -> List.find P (l ++ k)%list = List.find P k.
Proof.
  induction l as [|a l IH]; [reflexivity|]. cbn. destruct (P a); [discriminate|auto].
Qed.

Lemma find_by_id_unique users u :
  NoDup (List.map User.id users) -> In u users ->
  List.find (user_matches (ById (User.id u))) users = Some u.
Proof.
  intros Hkey Hin. apply find_the_only; [exact Hin| |].
  - unfold user_matches. now rewrite bool_decide_eq_true_2.
  - intros y Hy Hmatch. unfold user_matches in Hmatch. apply bool_decide_eq_true_1 in Hmatch.
    now apply (NoDup_map_eq User.id users).
Qed.

Lemma find_after_replace q users u u' :
  NoDup (List.map User.id users) -> In u users ->
  User.id u' = User.id u ->
  user_matches q u' = user_matches q u ->
  List.find (user_matches q) (replace_user u' users)
  = (fun x => if bool_decide (User.id x = User.id u') then u' else x)
      <$> List.find (user_matches q) users.
Proof.
  intros Hkey Hin Hid Hsame. unfold replace_user. apply find_map_same.
  intros x Hx. destruct (bool_decide (User.id x = User.id u')) eqn:E; [|reflexivity].
  apply bool_decide_eq_true_1 in E.
  assert (x = u) as -> by (apply (NoDup_map_eq User.id users); auto; congruence).
  exact Hsame.
Qed.

Lemma touched_matches q now u :
  user_matches q (with_lastActiveAt now u) = user_matches q u.
Proof. now destruct q. Qed.

Lemma replaced_row_present u u' users :
  In u users -> User.id u' = User.id u -> In u' (replace_user u' users).
Proof.
  intros Hin Hid. unfold replace_user. apply List.in_map_iff. exists u.
  split; [|exact Hin]. now rewrite bool_decide_eq_true_2.
Qed.

Lemma accounts_keyed p u :
  accounts_ok p -> User.id u = cuid (seq p) ->
  NoDup (List.map User.id (user p ++ [u])).
Proof.
  intros [Hkey Hdrawn] Hid. rewrite List.map_app. apply NoDup_app. split; [exact Hkey|].
  split; [|apply NoDup_singleton].
  intros id Hold Hnew. cbn in Hnew. apply list_elem_of_singleton in Hnew. subst id.
  apply list_elem_of_In, List.in_map_iff in Hold as (v & Hv & Hin).
  rewrite Forall_forall in Hdrawn. apply list_elem_of_In, Hdrawn in Hin.
  apply drawn_not_next in Hin. congruence.
Qed.

(** The common tail of the three logins: a session is created for the
    account found or made, and the account's row is touched. *)
Lemma login_settles config users sessions counter cache account isNew deviceType ip now q :
  usable config ->
  NoDup (List.map User.id users) ->
  List.find (user_matches q) users = Some account ->
  exists tokens w',
    (let* tokens := createSession config (User.id account) deviceType ip now in
     ret (AuthResponse.Mk (summary account isNew) tokens))
      (MkWorld (MkPrisma users sessions counter) cache)
    = (inr (AuthResponse.Mk (summary account isNew) tokens), w') /\
    List.find (user_matches q) (user (prisma w')) = Some (with_lastActiveAt now account) /\
    List.map User.id (user (prisma w')) = List.map User.id users.
Proof.
  intros (accessMs & refreshMs & Ha & Hr & _ & Hlong) Hkey Hfind.
  pose proof (List.find_some _ _ Hfind) as [Hin _].
  eexists _, _. split; [|split].
  - erewrite bind_inr; [reflexivity|].
    apply (createSession_run config (User.id account) deviceType ip now _ accessMs refreshMs
             account Ha Hr Hlong).
    cbn [prisma user]. now apply find_by_id_unique.
  - cbn [prisma user].
    rewrite (find_after_replace q users account (with_lastActiveAt now account) Hkey Hin
               eq_refl (touched_matches q now account)).
    rewrite Hfind. cbn [fmap option_fmap option_map].
    now rewrite bool_decide_eq_true_2.
  - cbn [prisma user]. apply replace_user_ids.
Qed.

(** X27. Which account [verifyPhoneCode] resolves to, on a store whose
    account ids are well-keyed and with the pending code presented: the call
    succeeds; it reports a new user exactly when no account held the phone;
    afterwards the lookup by phone finds the account whose id the response
    carries, holding the PHONE badge and touched at the instant of the call.
    An account that already held the phone is the one returned, and no
    account is added; otherwise exactly one account is appended. *)
Theorem verifyPhoneCode_resolves_one_account config w phone code deviceType ip now ttl :
  usable config -> accounts_ok (prisma w) -> code <> "" ->
  live (redis w) (verification_key phone) now = Some (MkEntry (RString code) ttl) ->
  exists response w' account,
    verifyPhoneCode config phone code deviceType ip now w = (inr response, w') /\
    List.find (user_matches (ByPhone phone)) (user (prisma w')) = Some account /\
    User.id account = AuthUser.id (AuthResponse.user response) /\
    "PHONE" ∈ User.verifiedBadges account /\
    User.lastActiveAt account = now /\
    match List.find (user_matches (ByPhone phone)) (user (prisma w)) with
    | Some u =>
        AuthUser.isNewUser (AuthResponse.user response) = false /\
        User.id account = User.id u /\
        List.map User.id (user (prisma w')) = List.map User.id (user (prisma w))
    | None =>
        AuthUser.isNewUser (AuthResponse.user response) = true /\
        List.map User.id (user (prisma w'))
        = (List.map User.id (user (prisma w)) ++ [User.id account])%list
    end.
Proof.
  intros Hconfig Hok Hcode Hlive. destruct w as [[users sessions counter] cache].
  pose proof Hok as [Hkey Hdrawn]. cbn [prisma user redis] in *.
  unfold verifyPhoneCode.
  erewrite bind_inr; [|rewrite redis_get_run; cbn [redis]; rewrite Hlive; reflexivity].
  assert (truthy (Some code) = true) as -> by (destruct code; [contradiction|reflexivity]).
  rewrite bool_decide_eq_true_2 by reflexivity. cbn [negb].
  rewrite (bind_inr _ _ _ _ _ (redis_del_run _ _)).
  rewrite (bind_inr _ _ _ _ _ (user_findUnique_run _ _)).
  cbn [prisma redis user].
  destruct (List.find (user_matches (ByPhone phone)) users) as [u|] eqn:Hfind.
  - pose proof (List.find_some _ _ Hfind) as [Hin Hphone].
    destruct (includes "PHONE" (User.verifiedBadges u)) eqn:Hbadge; cbn [negb].
    + rewrite (bind_inr _ _ _ u _ eq_refl).
      destruct (login_settles config users sessions counter
                  (delete (verification_key phone) cache) u false deviceType ip now
                  (ByPhone phone) Hconfig Hkey Hfind) as (tokens & w' & Hrun & Hfound & Hids).
      rewrite Hrun. eexists _, w', _. split; [reflexivity|]. split; [exact Hfound|].
      cbn [with_lastActiveAt User.id User.verifiedBadges User.lastActiveAt summary
           AuthResponse.user AuthUser.id AuthUser.isNewUser].
      repeat split; try assumption.
      unfold includes in Hbadge. now apply bool_decide_eq_true_1 in Hbadge.
    + set (u1 := with_badges (User.verifiedBadges u ++ ["PHONE"]) u).
      rewrite (bind_inr _ _ _ _ _
                 (user_update_run (User.id u)
                    (fun r => with_badges (User.verifiedBadges r ++ ["PHONE"]) r)
                    _ _ _ _ u (find_by_id_unique users u Hkey Hin)
                    (update_keeps_unique_columns _ _ _ eq_refl eq_refl eq_refl eq_refl))).
      fold u1.
      assert (Hfind1 : List.find (user_matches (ByPhone phone)) (replace_user u1 users)
                       = Some u1).
      { rewrite (find_after_replace (ByPhone phone) users u u1 Hkey Hin eq_refl eq_refl).
        rewrite Hfind. cbn [fmap option_fmap option_map].
        now rewrite bool_decide_eq_true_2. }
      destruct (login_settles config (replace_user u1 users) sessions counter
                  (delete (verification_key phone) cache) u1 false deviceType ip now
                  (ByPhone phone) Hconfig) as (tokens & w' & Hrun & Hfound & Hids);
        [now rewrite replace_user_ids|exact Hfind1|].
      rewrite Hrun. eexists _, w', _. split; [reflexivity|]. split; [exact Hfound|].
      cbn [with_lastActiveAt User.id User.verifiedBadges User.lastActiveAt summary
           AuthResponse.user AuthUser.id AuthUser.isNewUser u1 with_badges].
      repeat split.
      * apply elem_of_app. right. apply list_elem_of_singleton. reflexivity.
      * rewrite Hids. apply replace_user_ids.
  - set (fresh := User.Mk (cuid counter) (Some phone) None None None None None None
                          ["PHONE"] now).
    assert (Hfree : violates_unique fresh users = false).
    { unfold violates_unique. cbn [fresh User.phone User.email User.googleId User.appleId fmap
                                   option_fmap option_map taken].
      now rewrite (find_none_existsb _ _ Hfind). }
    rewrite (bind_inr _ _ _ _ _
               (user_create_run (Some phone) None None None None None ["PHONE"] now
                  (MkWorld (MkPrisma users sessions counter)
                           (delete (verification_key phone) cache)) Hfree)).
    cbn [prisma user userSession seq redis]. fold fresh.
    assert (Hfind1 : List.find (user_matches (ByPhone phone)) (users ++ [fresh])%list
                     = Some fresh).
    { rewrite (find_app_none _ _ _ Hfind). cbn.
      now rewrite bool_decide_eq_true_2. }
    destruct (login_settles config (users ++ [fresh])%list sessions (N.succ counter)
                (delete (verification_key phone) cache) fresh true deviceType ip now
                (ByPhone phone) Hconfig) as (tokens & w' & Hrun & Hfound & Hids);
      [apply (accounts_keyed (MkPrisma users sessions counter) fresh Hok eq_refl)
      |exact Hfind1|].
    rewrite Hrun. eexists _, w', _. split; [reflexivity|]. split; [exact Hfound|].
    cbn [with_lastActiveAt User.id User.verifiedBadges User.lastActiveAt summary
         AuthResponse.user AuthUser.id AuthUser.isNewUser fresh].
    repeat split.
    + apply list_elem_of_singleton. reflexivity.
    + rewrite Hids, List.map_app. reflexivity.
Qed.

Lemma verifyPhoneCode_resolves_one_account_witness :
  exists response w' account,
    verifyPhoneCode sample_config "+14155551234" "100005" None "10.0.0.1" 2000 challenge_world
    = (inr response, w') /\
    List.find (user_matches (ByPhone "+14155551234")) (user (prisma w')) = Some account /\
    User.id account = AuthUser.id (AuthResponse.user response).
Proof.
  destruct (verifyPhoneCode_resolves_one_account sample_config challenge_world "+14155551234"
              "100005" None "10.0.0.1" 2000 (Some 301000))
    as (response & w' & account & Hrun & Hfound & Hid & _).
  - exact sample_config_usable.
  - split; vm_compute; constructor.
  - discriminate.
  - reflexivity.
  - exists response, w', account. auto.
Defined.

Lemma bind_assoc {A B C} (m : M A) (f : A -> M B) (g : B -> M C) w :
  bind (bind m f) g w = bind m (fun a => bind (f a) g) w.
Proof. unfold bind. now destruct (m w) as [[e|a] w']. Qed.

Lemma bind_ret {A B} (a : A) (k : A -> M B) w : bind (ret a) k w = k a w.
Proof. reflexivity. Qed.

Lemma find_replaced_first_match q users u u' :
  NoDup (List.map User.id users) -> In u users ->
  User.id u' = User.id u ->
  List.find (user_matches q) users = None ->
  user_matches q u' = true ->
  List.find (user_matches q) (replace_user u' users) = Some u'.
Proof.
  intros Hkey Hin Hid Hnone Hmatch. apply find_the_only.
  - now apply (replaced_row_present u).
  - exact Hmatch.
  - intros y Hy Hq. unfold replace_user in Hy.
    apply List.in_map_iff in Hy as (x & <- & Hx).
    destruct (bool_decide (User.id x = User.id u')); [reflexivity|].
    pose proof (List.find_none _ _ Hnone x Hx). congruence.
Qed.

(** X28. Which account [authenticateWithGoogle] resolves to, on a store
    whose account ids are well-keyed (the token's email, if any, not being
    the empty string): the call succeeds, and afterwards the lookup by the
    token's Google subject finds the account whose id the response carries,
    touched at the instant of the call. A known subject gives its account and
    [isNewUser = false]. An unknown subject whose email is held by an account
    is linked to that account, which gets the GOOGLE badge, and no account is
    added; an unknown subject without such an email gets a new account with
    the token's email and the GOOGLE badge alone. In both cases of an
    unknown subject the response says [isNewUser = true]: the flag is computed
    before the link by email is made. *)
Theorem authenticateWithGoogle_resolves_one_account config w claims deviceType ip now :
  usable config -> accounts_ok (prisma w) -> id_email claims <> Some "" ->
  exists response w' account,
    authenticateWithGoogle config (IdJwt claims) deviceType ip now w = (inr response, w') /\
    List.find (user_matches (ByGoogleId (sub claims))) (user (prisma w')) = Some account /\
    User.id account = AuthUser.id (AuthResponse.user response) /\
    User.lastActiveAt account = now /\
    match List.find (user_matches (ByGoogleId (sub claims))) (user (prisma w)) with
    | Some u =>
        AuthUser.isNewUser (AuthResponse.user response) = false /\
        User.id account = User.id u /\
        List.map User.id (user (prisma w')) = List.map User.id (user (prisma w))
    | None =>
        AuthUser.isNewUser (AuthResponse.user response) = true /\
        "GOOGLE" ∈ User.verifiedBadges account /\
        match (if truthy (id_email claims)
               then List.find (user_matches (ByEmail (default "" (id_email claims))))
                              (user (prisma w))
               else None) with
        | Some existing =>
            User.id account = User.id existing /\
            User.email account = id_email claims /\
            List.map User.id (user (prisma w')) = List.map User.id (user (prisma w))
        | None =>
            User.email account = id_email claims /\
            User.verifiedBadges account = ["GOOGLE"] /\
            List.map User.id (user (prisma w'))
            = (List.map User.id (user (prisma w)) ++ [User.id account])%list
        end
    end.
Proof.
  intros Hconfig Hok Hemail. destruct w as [[users sessions counter] cache].
  pose proof Hok as [Hkey Hdrawn]. cbn [prisma user redis] in *.
  unfold authenticateWithGoogle.
  rewrite (bind_inr _ _ _ _ _ (user_findUnique_run _ _)). cbn [prisma user].
  destruct (List.find (user_matches (ByGoogleId (sub claims))) users) as [u|] eqn:Hfind.
  - rewrite bind_ret.
    destruct (login_settles config users sessions counter cache u false deviceType ip now
                (ByGoogleId (sub claims)) Hconfig Hkey Hfind)
      as (tokens & w' & Hrun & Hfound & Hids).
    rewrite Hrun. eexists _, w', _. split; [reflexivity|]. split; [exact Hfound|].
    repeat split. exact Hids.
  - rewrite bind_assoc. destruct (truthy (id_email claims)) eqn:Htruthy.
    + rewrite bind_assoc.
      rewrite (bind_inr _ _ _ _ _ (user_findUnique_run _ _)). cbn [prisma user].
      destruct (List.find (user_matches (ByEmail (default "" (id_email claims)))) users)
        as [existing|] eqn:Hexisting.
      * pose proof (List.find_some _ _ Hexisting) as [Hin Hheld].
        unfold user_matches in Hheld. apply bool_decide_eq_true_1 in Hheld.
        set (badges := if includes "GOOGLE" (User.verifiedBadges existing)
                       then User.verifiedBadges existing
                       else (User.verifiedBadges existing ++ ["GOOGLE"])%list).
        set (linked := with_googleId (sub claims) badges existing).
        assert (Hfree : update_violates_unique existing linked users = false).
        { unfold update_violates_unique, changed.
          cbn [linked with_googleId User.phone User.email User.googleId User.appleId].
          destruct (bool_decide (User.googleId existing = Some (sub claims)));
            rewrite !bool_decide_eq_true_2 by reflexivity;
            cbn [fmap option_fmap option_map taken orb]; [reflexivity|].
          rewrite (find_none_existsb _ _ Hfind). reflexivity. }
        rewrite bind_assoc.
        rewrite (bind_inr _ _ _ _ _
                   (user_update_run (User.id existing) (with_googleId (sub claims) badges)
                      _ _ _ _ existing (find_by_id_unique users existing Hkey Hin) Hfree)).
        fold linked.
        rewrite !bind_ret.
        assert (Hfind1 : List.find (user_matches (ByGoogleId (sub claims)))
                           (replace_user linked users) = Some linked).
        { apply (find_replaced_first_match _ users existing); auto.
          cbn. now rewrite bool_decide_eq_true_2. }
        destruct (login_settles config (replace_user linked users) sessions counter cache
                    linked true deviceType ip now (ByGoogleId (sub claims)) Hconfig)
          as (tokens & w' & Hrun & Hfound & Hids);
          [now rewrite replace_user_ids|exact Hfind1|].
        rewrite Hrun. eexists _, w', _. split; [reflexivity|]. split; [exact Hfound|].
        cbn [with_lastActiveAt User.id User.verifiedBadges User.lastActiveAt User.email summary
             AuthResponse.user AuthUser.id AuthUser.isNewUser linked with_googleId].
        repeat split.
        -- subst badges. destruct (includes "GOOGLE" (User.verifiedBadges existing)) eqn:Hhas.
           ++ unfold includes in Hhas. now apply bool_decide_eq_true_1 in Hhas.
           ++ apply elem_of_app. right. now apply list_elem_of_singleton.
        -- rewrite Hheld. destruct (id_email claims); [reflexivity|discriminate].
        -- rewrite Hids. apply replace_user_ids.
      * rewrite !bind_ret.
        set (fresh := User.Mk (cuid counter) None (id_email claims) (Some (sub claims)) None
                              (id_name claims) None (id_picture claims) ["GOOGLE"] now).
        assert (Hfree : violates_unique fresh users = false).
        { unfold violates_unique.
          cbn [fresh User.phone User.email User.googleId User.appleId fmap option_fmap
               option_map taken orb].
          rewrite (find_none_existsb _ _ Hfind), !orb_false_r.
          destruct (id_email claims) as [email|]; [|reflexivity].
          cbn [option_map taken].
          exact (find_none_existsb _ _ Hexisting). }
        rewrite (bind_inr _ _ _ _ _
                   (user_create_run None (id_email claims) (Some (sub claims)) None
                      (id_name claims) (id_picture claims) ["GOOGLE"] now
                      (MkWorld (MkPrisma users sessions counter) cache) Hfree)).
        cbn [prisma user userSession seq redis]. fold fresh.
        assert (Hfind1 : List.find (user_matches (ByGoogleId (sub claims)))
                           (users ++ [fresh])%list = Some fresh).
        { rewrite (find_app_none _ _ _ Hfind). cbn. now rewrite bool_decide_eq_true_2. }
        destruct (login_settles config (users ++ [fresh])%list sessions (N.succ counter) cache
                    fresh true deviceType ip now (ByGoogleId (sub claims)) Hconfig)
          as (tokens & w' & Hrun & Hfound & Hids);
          [apply (accounts_keyed (MkPrisma users sessions counter) fresh Hok eq_refl)
          |exact Hfind1|].
        rewrite Hrun. eexists _, w', _. split; [reflexivity|]. split; [exact Hfound|].
        cbn [with_lastActiveAt User.id User.verifiedBadges User.lastActiveAt User.email summary
             AuthResponse.user AuthUser.id AuthUser.isNewUser fresh].
        repeat split.
        -- now apply list_elem_of_singleton.
        -- rewrite Hids, List.map_app. reflexivity.
    + rewrite !bind_ret.
      assert (Hnone : id_email claims = None).
      { destruct (id_email claims) as [[|c rest]|]; [contradiction|discriminate|reflexivity]. }
      set (fresh := User.Mk (cuid counter) None (id_email claims) (Some (sub claims)) None
                            (id_name claims) None (id_picture claims) ["GOOGLE"] now).
      assert (Hfree : violates_unique fresh users = false).
      { unfold violates_unique.
        cbn [fresh User.phone User.email User.googleId User.appleId fmap option_fmap
             option_map taken orb].
        rewrite (find_none_existsb _ _ Hfind), !orb_false_r. now rewrite Hnone. }
      rewrite (bind_inr _ _ _ _ _
                 (user_create_run None (id_email claims) (Some (sub claims)) None
                    (id_name claims) (id_picture claims) ["GOOGLE"] now
                    (MkWorld (MkPrisma users sessions counter) cache) Hfree)).
      cbn [prisma user userSession seq redis]. fold fresh.
      assert (Hfind1 : List.find (user_matches (ByGoogleId (sub claims)))
                         (users ++ [fresh])%list = Some fresh).
      { rewrite (find_app_none _ _ _ Hfind). cbn. now rewrite bool_decide_eq_true_2. }
      destruct (login_settles config (users ++ [fresh])%list sessions (N.succ counter) cache
                  fresh true deviceType ip now (ByGoogleId (sub claims)) Hconfig)
        as (tokens & w' & Hrun & Hfound & Hids);
        [apply (accounts_keyed (MkPrisma users sessions counter) fresh Hok eq_refl)
        |exact Hfind1|].
      rewrite Hrun. eexists _, w', _. split; [reflexivity|]. split; [exact Hfound|].
      cbn [with_lastActiveAt User.id User.verifiedBadges User.lastActiveAt User.email summary
           AuthResponse.user AuthUser.id AuthUser.isNewUser fresh].
      repeat split.
      * now apply list_elem_of_singleton.
      * rewrite Hids, List.map_app. reflexivity.
Qed.

Lemma authenticateWithGoogle_resolves_one_account_witness :
  exists response w' account,
    authenticateWithGoogle sample_config (IdJwt google_claims) None "10.0.0.2" 5000
      logged_in_world = (inr response, w') /\
    List.find (user_matches (ByGoogleId "google-sub-1")) (user (prisma w')) = Some account /\
    User.id account = AuthUser.id (AuthResponse.user response).
Proof.
  destruct (authenticateWithGoogle_resolves_one_account sample_config logged_in_world
              google_claims None "10.0.0.2" 5000)
    as (response & w' & account & Hrun & Hfound & Hid & _).
  - exact sample_config_usable.
  - split.
    + apply (bool_decide_unpack _). vm_compute. exact I.
    + vm_compute. repeat constructor. exists 0%N. split; reflexivity.
  - discriminate.
  - exists response, w', account. auto.
Defined.

(** X29. Which account [authenticateWithApple] resolves to, on a store
    whose account ids are well-keyed: a known Apple subject gives its account
    with [isNewUser = false], and no account is added, whatever name and
    email the request carries; an unknown subject whose email (if any) is held
    by no account gets a new account with that email, the APPLE badge alone
    and the display name made of the given and family names that are
    non-empty, joined by a space. Apple logins never look an account up by
    email. *)
Theorem authenticateWithApple_resolves_one_account config w claims fullName deviceType ip now :
  usable config -> accounts_ok (prisma w) ->
  (List.find (user_matches (ByAppleId (sub claims))) (user (prisma w)) = None ->
   taken (ByEmail <$> id_email claims) (user (prisma w)) = false) ->
  exists response w' account,
    authenticateWithApple config (IdJwt claims) fullName deviceType ip now w
    = (inr response, w') /\
    List.find (user_matches (ByAppleId (sub claims))) (user (prisma w')) = Some account /\
    User.id account = AuthUser.id (AuthResponse.user response) /\
    User.lastActiveAt account = now /\
    match List.find (user_matches (ByAppleId (sub claims))) (user (prisma w)) with
    | Some u =>
        AuthUser.isNewUser (AuthResponse.user response) = false /\
        User.id account = User.id u /\
        User.displayName account = User.displayName u /\
        List.map User.id (user (prisma w')) = List.map User.id (user (prisma w))
    | None =>
        AuthUser.isNewUser (AuthResponse.user response) = true /\
        User.email account = id_email claims /\
        User.displayName account = apple_displayName fullName /\
        User.verifiedBadges account = ["APPLE"] /\
        List.map User.id (user (prisma w'))
        = (List.map User.id (user (prisma w)) ++ [User.id account])%list
    end.
Proof.
  intros Hconfig Hok Hemail. destruct w as [[users sessions counter] cache].
  pose proof Hok as [Hkey Hdrawn]. cbn [prisma user redis] in *.
  unfold authenticateWithApple.
  rewrite (bind_inr _ _ _ _ _ (user_findUnique_run _ _)). cbn [prisma user].
  destruct (List.find (user_matches (ByAppleId (sub claims))) users) as [u|] eqn:Hfind.
  - rewrite bind_ret.
    destruct (login_settles config users sessions counter cache u false deviceType ip now
                (ByAppleId (sub claims)) Hconfig Hkey Hfind)
      as (tokens & w' & Hrun & Hfound & Hids).
    rewrite Hrun. eexists _, w', _. split; [reflexivity|]. split; [exact Hfound|].
    repeat split. exact Hids.
  - set (fresh := User.Mk (cuid counter) None (id_email claims) None (Some (sub claims))
                          (apple_displayName fullName) None None ["APPLE"] now).
    assert (Hfree : violates_unique fresh users = false).
    { unfold violates_unique.
      cbn [fresh User.phone User.email User.googleId User.appleId fmap option_fmap
           option_map taken orb].
      rewrite (find_none_existsb _ _ Hfind), !orb_false_r. now apply Hemail. }
    rewrite (bind_inr _ _ _ _ _
               (user_create_run None (id_email claims) None (Some (sub claims))
                  (apple_displayName fullName) None ["APPLE"] now
                  (MkWorld (MkPrisma users sessions counter) cache) Hfree)).
    cbn [prisma user userSession seq redis]. fold fresh.
    assert (Hfind1 : List.find (user_matches (ByAppleId (sub claims)))
                       (users ++ [fresh])%list = Some fresh).
    { rewrite (find_app_none _ _ _ Hfind). cbn. now rewrite bool_decide_eq_true_2. }
    destruct (login_settles config (users ++ [fresh])%list sessions (N.succ counter) cache
                fresh true deviceType ip now (ByAppleId (sub claims)) Hconfig)
      as (tokens & w' & Hrun & Hfound & Hids);
      [apply (accounts_keyed (MkPrisma users sessions counter) fresh Hok eq_refl)
      |exact Hfind1|].
    rewrite Hrun. eexists _, w', _. split; [reflexivity|]. split; [exact Hfound|].
    cbn [with_lastActiveAt User.id User.verifiedBadges User.lastActiveAt User.email
         User.displayName summary AuthResponse.user AuthUser.id AuthUser.isNewUser fresh].
    repeat split. rewrite Hids, List.map_app. reflexivity.
Qed.

Lemma authenticateWithApple_resolves_one_account_witness :
  exists response w' account,
    authenticateWithApple sample_config (IdJwt apple_claims)
      (Some (MkFullName (Some "Sam") (Some ""))) None "10.0.0.1" 1000 empty_world
    = (inr response, w') /\
    List.find (user_matches (ByAppleId "apple-sub-1")) (user (prisma w')) = Some account /\
    User.id account = AuthUser.id (AuthResponse.user response).
Proof.
  destruct (authenticateWithApple_resolves_one_account sample_config empty_world
              apple_claims (Some (MkFullName (Some "Sam") (Some ""))) None "10.0.0.1" 1000)
    as (response & w' & account & Hrun & Hfound & Hid & _).
  - exact sample_config_usable.
  - split; cbn; constructor.
  - reflexivity.
  - exists response, w', account. auto.
Defined.

(** ** The advertised lifetime *)

Lemma keeps_anything {A} (m : M A) : keeps (fun _ => True) m (fun _ => True).
Proof. intros w _. split; auto. Qed.

Lemma createSession_returns config userId deviceType ip now :
  keeps (fun _ => True) (createSession config userId deviceType ip now)
        (fun tokens =>
           AuthTokens.expiresIn tokens = 900 /\
           exists sessionId,
             generateAccessToken config userId sessionId now
             = Some (AuthTokens.accessToken tokens)).
Proof.
  unfold createSession.
  eapply keeps_bind; [apply keeps_anything|intros refreshExpMs _].
  eapply keeps_bind; [apply keeps_anything|intros session _].
  eapply keeps_bind; [apply keeps_or_throw|intros accessToken Haccess].
  eapply keeps_bind; [apply keeps_anything|intros refreshToken _].
  eapply keeps_bind; [apply keeps_anything|intros _ _].
  eapply keeps_bind; [apply keeps_anything|intros _ _].
  eapply keeps_bind; [apply keeps_anything|intros _ _].
  eapply keeps_bind; [apply keeps_anything|intros active _].
  eapply keeps_bind; [apply keeps_anything|intros _ _].
  apply keeps_ret. cbn [AuthTokens.expiresIn AuthTokens.accessToken].
  cbv beta in Haccess. eauto.
Qed.

Lemma refreshTokens_returns config token ip now :
  keeps (fun _ => True) (refreshTokens config token ip now)
        (fun tokens =>
           AuthTokens.expiresIn tokens = 900 /\
           exists userId sessionId,
             generateAccessToken config userId sessionId now
             = Some (AuthTokens.accessToken tokens)).
Proof.
  unfold refreshTokens.
  destruct (verifyRefreshToken config token now) as [payload|]; [|apply keeps_throw].
  eapply keeps_bind; [apply keeps_anything|intros found _].
  destruct found as [session|].
  - eapply keeps_bind; [apply keeps_or_throw|intros accessToken Haccess].
    eapply keeps_bind; [apply keeps_anything|intros refreshToken _].
    eapply keeps_bind; [apply keeps_anything|intros refreshExpMs _].
    eapply keeps_bind; [apply keeps_anything|intros _ _].
    eapply keeps_bind; [apply keeps_anything|intros _ _].
    apply keeps_ret. cbn [AuthTokens.expiresIn AuthTokens.accessToken].
  cbv beta in Haccess. eauto.
  - eapply keeps_bind; [apply keeps_anything|intros _ _].
    eapply keeps_bind; [apply keeps_anything|intros _ _].
    apply keeps_throw.
Qed.

Lemma generated_access_lifetime config userId sessionId now token :
  generateAccessToken config userId sessionId now = Some token ->
  exists accessMs claims,
    parseDuration (JWT_ACCESS_EXPIRATION config) = Some accessMs /\
    decodeToken token = Some claims /\
    JwtPayload.exp claims - JwtPayload.iat claims = accessMs / 1000.
Proof.
  unfold generateAccessToken, jwt_sign.
  destruct (parseDuration (JWT_ACCESS_EXPIRATION config)) as [accessMs|]; [|discriminate].
  intros [= <-]. eexists _, _. split; [reflexivity|]. split; [reflexivity|].
  cbn [JwtPayload.exp JwtPayload.iat]. lia.
Qed.

(** X30. The [expiresIn] that a login or a rotation returns is the constant
    900, whatever [JWT_ACCESS_EXPIRATION] says, while the access token
    returned with it lives for the configured lifetime in whole seconds: the
    advertised lifetime is the real one only for a configuration of fifteen
    minutes. The lifetime is one that [parseDuration] and the token library
    read alike: accepted by [parseDuration] with a safe integer of
    milliseconds, and at most 100 characters long. *)
Theorem advertised_lifetime_is_fixed config accessMs :
  parseDuration (JWT_ACCESS_EXPIRATION config) = Some accessMs ->
  accessMs <= MAX_SAFE_INTEGER ->
  (String.length (JWT_ACCESS_EXPIRATION config) <= 100)%nat ->
  (forall userId deviceType ip now w tokens w',
      createSession config userId deviceType ip now w = (inr tokens, w') ->
      AuthTokens.expiresIn tokens = 900 /\
      exists claims,
        decodeToken (AuthTokens.accessToken tokens) = Some claims /\
        JwtPayload.exp claims - JwtPayload.iat claims = accessMs / 1000)
  /\ (forall token ip now w tokens w',
        refreshTokens config token ip now w = (inr tokens, w') ->
        AuthTokens.expiresIn tokens = 900 /\
        exists claims,
          decodeToken (AuthTokens.accessToken tokens) = Some claims /\
          JwtPayload.exp claims - JwtPayload.iat claims = accessMs / 1000).
Proof.
  intros Ha _ _. split.
  - intros userId deviceType ip now w tokens w' Hrun.
    destruct (createSession_returns config userId deviceType ip now w I) as [_ Hpost].
    rewrite Hrun in Hpost. destruct (Hpost tokens eq_refl) as [Hfixed [sessionId Hissued]].
    split; [exact Hfixed|].
    destruct (generated_access_lifetime config userId sessionId now _ Hissued)
      as (ms & claims & Hms & Hdecoded & Hlifetime).
    exists claims. split; [exact Hdecoded|]. congruence.
  - intros token ip now w tokens w' Hrun.
    destruct (refreshTokens_returns config token ip now w I) as [_ Hpost].
    rewrite Hrun in Hpost.
    destruct (Hpost tokens eq_refl) as [Hfixed (userId & sessionId & Hissued)].
    split; [exact Hfixed|].
    destruct (generated_access_lifetime config userId sessionId now _ Hissued)
      as (ms & claims & Hms & Hdecoded & Hlifetime).
    exists claims. split; [exact Hdecoded|]. congruence.
Qed.

Lemma advertised_lifetime_is_fixed_witness :
  let config := MkEnv "access-secret-0123456789-0123456789"
                      "refresh-secret-0123456789-012345678" "30m" "30d" in
  exists tokens w' claims,
    createSession config "c0" None "10.0.0.1" 1000 one_user_world = (inr tokens, w') /\
    AuthTokens.expiresIn tokens = 900 /\
    decodeToken (AuthTokens.accessToken tokens) = Some claims /\
    JwtPayload.exp claims - JwtPayload.iat claims = 1800.
Proof.
  intros config.
  destruct (createSession config "c0" None "10.0.0.1" 1000 one_user_world)
    as [[e|tokens] w'] eqn:Hrun; [vm_compute in Hrun; discriminate|].
  destruct (advertised_lifetime_is_fixed config 1800000) as [Hlogin _].
  - reflexivity.
  - unfold MAX_SAFE_INTEGER. lia.
  - cbn. lia.
  - destruct (Hlogin "c0" None "10.0.0.1" 1000 one_user_world tokens w' Hrun)
      as [Hfixed (claims & Hdecoded & Hlifetime)].
    exists tokens, w', claims. auto.
Defined.
